(** * Tinfoil desktop front end: shallow embedding and verified properties

    The development follows the JavaScript sources of the Electron shell
    (the two preload scripts, main.js and the hardened main process) and
    of the React renderer (ProcessContext, App, ProgressBar, JobList,
    StatusBadge).

    Asynchronous functions are run to completion in one step: the only
    suspension points are [await fetch] and [await response.json()], and
    the answer of the server is an argument of the operation.  React state
    is a record; the functional updaters [setX(prev => ...)] of the source
    are applied to the record in program order. *)

From Stdlib Require Import String Ascii List ZArith QArith Qround Lia Bool.
From Stdlib Require Import DecimalString Lqa Qpower Qabs.
From Stdlib Require Floats.
From stdpp Require Import base list.
Import ListNotations.

#[local] Set Warnings "-register-all".

Local Open Scope string_scope.
Local Open Scope list_scope.

(** ** JavaScript values *)

Module JS.

(** Values that cross the boundaries of the program: JSON payloads,
    the arguments given to the preload API, and [undefined].  A number
    is given by its exact value; a string is the sequence of its code
    units; a function is known by an opaque identity.  The fields of an
    object are its own enumerable properties, each name once, in
    enumeration order. *)
Inductive value : Type :=
| VUndefined
| VNull
| VBool (b : bool)
| VNum (q : Q)
| VStr (s : string)
| VArr (items : list value)
| VObj (fields : list (string * value))
| VFun (id : nat).

(** [typeof v] *)
Definition typeof (v : value) : string :=
  match v with
  | VUndefined => "undefined"
  | VNull => "object"
  | VBool _ => "boolean"
  | VNum _ => "number"
  | VStr _ => "string"
  | VArr _ => "object"
  | VObj _ => "object"
  | VFun _ => "function"
  end.

(** ToBoolean, the test of [if (v)], [!v] and [v || w]. *)
Definition truthy (v : value) : bool :=
  match v with
  | VUndefined | VNull => false
  | VBool b => b
  | VNum q => negb (Qeq_bool q 0)
  | VStr s => negb (String.eqb s "")
  | VArr _ | VObj _ | VFun _ => true
  end.

(** [s.includes(sub)] *)
Fixpoint includes (s sub : string) : bool :=
  String.prefix sub s ||
  match s with
  | EmptyString => false
  | String _ rest => includes rest sub
  end.

(** A thrown [Error]: only its message is ever read. *)
Record error : Type := Error { message : string }.

(** Completion of a computation: a value, or a thrown error. *)
Inductive completion (A : Type) : Type :=
| Normal (a : A)
| Throw (e : error).
Arguments Normal {A} a.
Arguments Throw {A} e.

End JS.
Import JS.

(** ** preload.js: the API exposed to the renderer *)

Module Preload.

Definition MAX_LISTENERS : nat := 10.

(** [validateString(value, maxLength = 4096)] *)
Definition validateString (v : value) (maxLength : nat) : bool :=
  match v with
  | VStr s => (0 <? String.length s)%nat && (String.length s <=? maxLength)%nat
  | _ => false
  end.

(** [validatePath(path)]; the [includes] test is only reached for a
    string, the conjunction being short-circuit. *)
Definition validatePath (path : value) : bool :=
  validateString path 4096 &&
  match path with
  | VStr s => negb (includes s "..")
  | _ => false
  end.

(** What an exposed function hands back: an IPC invocation whose promise
    it returns, or a promise it rejected itself. *)
Inductive ipc_call : Type :=
| Invoke (channel : string) (arg : value)
| Reject (e : error).

(** [openDirectory: (path) => ...] *)
Definition openDirectory (path : value) : ipc_call :=
  if negb (validatePath path) then Reject (Error "Invalid path")
  else Invoke "open-directory" path.

(** The module-level counters and the listeners handed to
    [ipcRenderer.on], oldest first. *)
Record state : Type := State {
  logListenerCount : nat;
  errorListenerCount : nat;
  exitListenerCount : nat;
  listeners : list (string * value)
}.

Definition initial : state := State 0 0 0 [].

(** [onPythonLog: (callback) => ...] *)
Definition onPythonLog (callback : value) (st : state) : state :=
  if negb (String.eqb (typeof callback) "function") then st
  else if (MAX_LISTENERS <=? logListenerCount st)%nat then st
  else State (S (logListenerCount st)) (errorListenerCount st)
             (exitListenerCount st)
             (listeners st ++ [("python-log", callback)]).

(** [onPythonError: (callback) => ...] *)
Definition onPythonError (callback : value) (st : state) : state :=
  if negb (String.eqb (typeof callback) "function") then st
  else if (MAX_LISTENERS <=? errorListenerCount st)%nat then st
  else State (logListenerCount st) (S (errorListenerCount st))
             (exitListenerCount st)
             (listeners st ++ [("python-error", callback)]).

(** [onPythonExit: (callback) => ...] *)
Definition onPythonExit (callback : value) (st : state) : state :=
  if negb (String.eqb (typeof callback) "function") then st
  else if (MAX_LISTENERS <=? exitListenerCount st)%nat then st
  else State (logListenerCount st) (errorListenerCount st)
             (S (exitListenerCount st))
             (listeners st ++ [("python-exit", callback)]).

(** A call made by the renderer to one of the three registration
    functions. *)
Inductive call : Type :=
| OnPythonLog (callback : value)
| OnPythonError (callback : value)
| OnPythonExit (callback : value).

Definition step (st : state) (c : call) : state :=
  match c with
  | OnPythonLog cb => onPythonLog cb st
  | OnPythonError cb => onPythonError cb st
  | OnPythonExit cb => onPythonExit cb st
  end.

Definition run (calls : list call) (st : state) : state :=
  fold_left step calls st.

(** Number of listeners registered on a channel. *)
Definition registered (channel : string) (st : state) : nat :=
  List.length (List.filter (fun l => String.eqb (fst l) channel) (listeners st)).

End Preload.

(** ** The preload script without validation

    The repository holds a second preload script, which forwards every
    call to the main process as it is. *)

Module PreloadPlain.

(** [openDirectory: (path) => ipcRenderer.invoke('open-directory', path)] *)
Definition openDirectory (path : value) : Preload.ipc_call :=
  Preload.Invoke "open-directory" path.

End PreloadPlain.

(** ** main.js: the IPC handlers of the main process *)

(** What a call of the API sets off: an invocation of the main process
    over IPC, the shell opening a path. *)
Inductive event : Type :=
| IpcInvoke (channel : string) (arg : value)
| ShellOpenPath (dirPath : value).

Module Main.

(** [ipcMain.handle('open-directory', async (_, dirPath) => ...)] of
    main.js: the path is opened as received.  main.js loads the
    preload.js of its own directory, the validating one. *)
Definition open_directory (dirPath : value) : value * list event :=
  (VBool true, [ShellOpenPath dirPath]).

End Main.

Module MainHardened.

(** The file system as the handler sees it. *)
Record filesystem : Type := Filesystem {
  existsSync : string -> bool;
  isDirectory : string -> bool
}.

(** [validatePath(filePath)] of the hardened main process. *)
Definition validatePath (filePath : value) : bool :=
  match filePath with
  | VStr s =>
      if includes s ".." then false
      else if (4096 <? String.length s)%nat then false
      else true
  | _ => false
  end.

(** [ipcMain.handle('open-directory', ...)] of the hardened main
    process.  The file system is only consulted for a validated path,
    which is a string. *)
Definition open_directory (fs : filesystem) (dirPath : value)
  : value * list event :=
  if negb (validatePath dirPath) then (VBool false, [])
  else match dirPath with
       | VStr s =>
           if negb (existsSync fs s) then (VBool false, [])
           else if negb (isDirectory fs s) then (VBool false, [])
           else (VBool true, [ShellOpenPath dirPath])
       | _ => (VBool false, [])
       end.

End MainHardened.

(** ** The renderer calling [window.api.openDirectory] *)

(** Settlement of the promise the renderer receives. *)
Inductive settlement : Type :=
| Resolved (v : value)
| Rejected (e : error).

(** [window.api.openDirectory(path)] when the preload script exposes
    [expose] and the 'open-directory' handler of the main process is
    [handler]. *)
Definition api_openDirectory (expose : value -> Preload.ipc_call)
  (handler : value -> value * list event)
  (path : value) : settlement * list event :=
  match expose path with
  | Preload.Reject e => (Rejected e, [])
  | Preload.Invoke channel arg =>
      let '(v, evs) := handler arg in
      (Resolved v, IpcInvoke channel arg :: evs)
  end.

Definition opens_a_directory (evs : list event) : bool :=
  existsb (fun e => match e with ShellOpenPath _ => true | _ => false end) evs.

(** ** Shared pieces of the renderer *)

Module Renderer.

(** A template literal, kept as its pieces: the text between the
    substitutions and the substituted values, in order. *)
Inductive piece : Type :=
| Lit (s : string)
| Sub (v : value).

Definition template : Type := list piece.

(** A [fetch] call: [fetch(url)] is a GET without headers or body; the
    body is the value given to [JSON.stringify]. *)
Record request : Type := Request {
  method : string;
  url : template;
  headers : list (string * string);
  body : option value
}.

(** A response, as far as the renderer looks at it: what
    [response.json()] settles to. *)
Record response : Type := Response { json : completion value }.

(** What the network makes of a [fetch]: the promise rejects, or a
    response arrives. *)
Inductive reply : Type :=
| Rejects (e : error)
| Responds (r : response).

(** An entry of the [logs] state. *)
Record log_entry : Type := LogEntry {
  message : template;
  type : string;
  timestamp : Z
}.

(** An interval timer created by [setInterval]: the job its callback
    polls, its period in milliseconds, and whether it is still armed. *)
Record timer : Type := Timer {
  polled : value;
  delay : Z;
  active : bool
}.

(** Own property of an object, by name. *)
Fixpoint lookup_own (name : string) (fields : list (string * value))
  : option value :=
  match fields with
  | [] => None
  | (k, v) :: rest => if String.eqb k name then Some v else lookup_own name rest
  end.

(** Assignment [o[name] = v]: an existing property keeps its place, a new
    one comes last (as names that are not array indices do). *)
Fixpoint assign (fields : list (string * value)) (kv : string * value)
  : list (string * value) :=
  match fields with
  | [] => [kv]
  | (k, v) :: rest =>
      if String.eqb k (fst kv) then (k, snd kv) :: rest
      else (k, v) :: assign rest kv
  end.

(** The property names the renderer reads from a payload.  No built-in
    prototype defines any of them, so on a value other than an object
    owning the property the read gives [undefined]. *)
Inductive field : Type := Job_id | Status | Valid | Validations.

Definition field_name (f : field) : string :=
  match f with
  | Job_id => "job_id"
  | Status => "status"
  | Valid => "valid"
  | Validations => "validations"
  end.

(** [v.f]: a TypeError on [null] and [undefined]. *)
Definition get (v : value) (f : field) : completion value :=
  match v with
  | VUndefined =>
      Throw (Error ("Cannot read properties of undefined (reading '"
                      ++ field_name f ++ "')"))
  | VNull =>
      Throw (Error ("Cannot read properties of null (reading '"
                      ++ field_name f ++ "')"))
  | VObj fields =>
      Normal (match lookup_own (field_name f) fields with
              | Some x => x
              | None => VUndefined
              end)
  | _ => Normal VUndefined
  end.

(** Decimal spelling of an index. *)
Definition index_name (i : nat) : string :=
  NilEmpty.string_of_uint (Nat.to_uint i).

Fixpoint indexed {A : Type} (i : nat) (l : list A) : list (string * A) :=
  match l with
  | [] => []
  | x :: rest => (index_name i, x) :: indexed (S i) rest
  end.

Fixpoint characters (s : string) : list value :=
  match s with
  | EmptyString => []
  | String c rest => VStr (String c EmptyString) :: characters rest
  end.

(** Own enumerable string-keyed properties of a value, in enumeration
    order: the fields of an object, the elements of an array and the
    characters of a string under their indices, nothing for the rest. *)
Definition own_enumerable (v : value) : list (string * value) :=
  match v with
  | VObj fields => fields
  | VArr items => indexed 0 items
  | VStr s => indexed 0 (characters s)
  | _ => []
  end.

(** [Object.entries(v)] *)
Definition Object_entries (v : value) : completion (list (string * value)) :=
  match v with
  | VUndefined | VNull =>
      Throw (Error "Cannot convert undefined or null to object")
  | _ => Normal (own_enumerable v)
  end.

(** [{ ...a, ...b }] *)
Definition spread (a b : value) : value :=
  VObj (fold_left assign (own_enumerable a ++ own_enumerable b) []).

(** [v === 'literal'] *)
Definition is_string (v : value) (literal : string) : bool :=
  match v with
  | VStr s => String.eqb s literal
  | _ => false
  end.

Section StrictEquality.

(** Arrays, objects and functions are equal when they are the same
    reference; which references coincide is left to [same_ref], about
    which nothing is assumed. *)
Variable same_ref : value -> value -> bool.

(** [a === b] *)
Definition strict_eq (a b : value) : bool :=
  match a, b with
  | VUndefined, VUndefined => true
  | VNull, VNull => true
  | VBool x, VBool y => Bool.eqb x y
  | VNum x, VNum y => Qeq_bool x y
  | VStr x, VStr y => String.eqb x y
  | (VArr _ | VObj _ | VFun _), (VArr _ | VObj _ | VFun _) => same_ref a b
  | _, _ => false
  end.

End StrictEquality.

(** Sequencing of completions. *)
Definition and_then {A B : Type} (c : completion A) (k : A -> completion B)
  : completion B :=
  match c with
  | Normal a => k a
  | Throw e => Throw e
  end.

(** [l.map(f)] for a callback that may throw. *)
Fixpoint map_throwing {A B : Type} (f : A -> completion B) (l : list A)
  : completion (list B) :=
  match l with
  | [] => Normal []
  | x :: rest =>
      and_then (f x) (fun y =>
      and_then (map_throwing f rest) (fun ys => Normal (y :: ys)))
  end.

(** *** Computations over a component's state that may throw *)

Definition M (S A : Type) : Type := S -> completion A * S.

Definition ret {S A : Type} (a : A) : M S A := fun st => (Normal a, st).

Definition bind {S A B : Type} (m : M S A) (k : A -> M S B) : M S B :=
  fun st =>
    match m st with
    | (Normal a, st') => k a st'
    | (Throw e, st') => (Throw e, st')
    end.

Notation "x <- m ;; k" := (bind m (fun x => k))
  (at level 100, m at next level, right associativity).
Notation "m ;; k" := (bind m (fun _ => k))
  (at level 100, right associativity).

(** A completion computed without touching the state. *)
Definition lift {S A : Type} (c : completion A) : M S A := fun st => (c, st).

Definition get_state {S : Type} : M S S := fun st => (Normal st, st).

(** [try { body } catch (error) { handler }] *)
Definition try_catch {S A : Type} (body : M S A) (handler : error -> M S A)
  : M S A :=
  fun st =>
    match body st with
    | (Normal a, st') => (Normal a, st')
    | (Throw e, st') => handler e st'
    end.

(** [try { body } finally { cleanup }] *)
Definition try_finally {S A : Type} (body : M S A) (cleanup : M S unit)
  : M S A :=
  fun st =>
    match body st with
    | (c, st') =>
        match cleanup st' with
        | (Normal _, st'') => (c, st'')
        | (Throw e, st'') => (Throw e, st'')
        end
    end.

(** [l.forEach(f)] *)
Fixpoint for_each {S A : Type} (f : A -> M S unit) (l : list A) : M S unit :=
  match l with
  | [] => ret tt
  | x :: rest => f x ;; for_each f rest
  end.

(** [v.name] for the other names the renderer reads from a payload
    (version, result, output_dir): like the names of [field], no built-in
    prototype defines them. *)
Definition read (v : value) (name : string) : completion value :=
  match v with
  | VUndefined =>
      Throw (Error ("Cannot read properties of undefined (reading '"
                      ++ name ++ "')"))
  | VNull =>
      Throw (Error ("Cannot read properties of null (reading '"
                      ++ name ++ "')"))
  | VObj fields =>
      Normal (match lookup_own name fields with
              | Some x => x
              | None => VUndefined
              end)
  | _ => Normal VUndefined
  end.

(** *** Evaluating a template literal

    [`${v}`] converts [v] with ToString.  A primitive always has a
    string.  An object is converted by the first of its [toString] and
    [valueOf] that is callable and answers a primitive.  An object of a
    payload inherits both from [Object.prototype], whose [toString]
    answers "[object Object]" and whose [valueOf] answers the object
    itself: the conversion throws a TypeError exactly when the object
    owns a [toString] that is not callable and owns no callable
    [valueOf].  JSON.parse yields no function; a function that a value
    does carry under one of the two names is taken to answer a primitive.
    An array is joined: its elements are converted in turn, [null] and
    [undefined] as the empty string. *)
Fixpoint stringifies (v : value) : bool :=
  match v with
  | VArr items =>
      (fix all (l : list value) : bool :=
         match l with
         | [] => true
         | x :: rest => stringifies x && all rest
         end) items
  | VObj fields =>
      match lookup_own "toString" fields with
      | None | Some (VFun _) => true
      | Some _ =>
          match lookup_own "valueOf" fields with
          | Some (VFun _) => true
          | _ => false
          end
      end
  | _ => true
  end.

(** The TypeError of a conversion that finds no primitive. *)
Definition not_primitive : error :=
  Error "Cannot convert object to primitive value".

(** The value of a template literal: its text, once every substitution
    has been converted; the TypeError of the conversion otherwise. *)
Definition template_literal (t : template) : completion template :=
  if forallb (fun p => match p with
                       | Lit _ => true
                       | Sub v => stringifies v
                       end) t
  then Normal t
  else Throw not_primitive.

End Renderer.
Import Renderer.

(** ** ProcessContext: the provider of the renderer's state *)

Module ProcessContext.

(** The state hooks of [ProcessProvider], followed by what the provider
    has done to its surroundings: the requests it issued (oldest first),
    the interval timers it created (a timer's identifier is its index),
    the error a state updater raised while React rendered, and the clock
    read by [new Date()]. *)
Record state : Type := State {
  inputPath : string;
  outputPath : string;
  forceUpdate : bool;
  outputPattern : string;
  lyricsSource : string;
  tagFallback : bool;
  apiKey : string;
  processing : bool;
  logs : list log_entry;
  jobs : list value;
  requests : list request;
  timers : list timer;
  renderError : option error;
  now : Z
}.

(** The [useState] initial values. *)
Definition initial (clock : Z) : state :=
  {| inputPath := ""; outputPath := ""; forceUpdate := false;
     outputPattern := "{artist}/{year} - {album}/{track:02d} - {title}";
     lyricsSource := "genius"; tagFallback := true; apiKey := "";
     processing := false; logs := []; jobs := [];
     requests := []; timers := []; renderError := None; now := clock |}.

Definition with_processing (b : bool) (st : state) : state :=
  {| inputPath := inputPath st; outputPath := outputPath st;
     forceUpdate := forceUpdate st; outputPattern := outputPattern st;
     lyricsSource := lyricsSource st; tagFallback := tagFallback st;
     apiKey := apiKey st; processing := b; logs := logs st;
     jobs := jobs st; requests := requests st; timers := timers st;
     renderError := renderError st; now := now st |}.

Definition with_logs (l : list log_entry) (st : state) : state :=
  {| inputPath := inputPath st; outputPath := outputPath st;
     forceUpdate := forceUpdate st; outputPattern := outputPattern st;
     lyricsSource := lyricsSource st; tagFallback := tagFallback st;
     apiKey := apiKey st; processing := processing st; logs := l;
     jobs := jobs st; requests := requests st; timers := timers st;
     renderError := renderError st; now := now st |}.

Definition with_jobs (j : list value) (st : state) : state :=
  {| inputPath := inputPath st; outputPath := outputPath st;
     forceUpdate := forceUpdate st; outputPattern := outputPattern st;
     lyricsSource := lyricsSource st; tagFallback := tagFallback st;
     apiKey := apiKey st; processing := processing st; logs := logs st;
     jobs := j; requests := requests st; timers := timers st;
     renderError := renderError st; now := now st |}.

Definition with_requests (r : list request) (st : state) : state :=
  {| inputPath := inputPath st; outputPath := outputPath st;
     forceUpdate := forceUpdate st; outputPattern := outputPattern st;
     lyricsSource := lyricsSource st; tagFallback := tagFallback st;
     apiKey := apiKey st; processing := processing st; logs := logs st;
     jobs := jobs st; requests := r; timers := timers st;
     renderError := renderError st; now := now st |}.

Definition with_timers (t : list timer) (st : state) : state :=
  {| inputPath := inputPath st; outputPath := outputPath st;
     forceUpdate := forceUpdate st; outputPattern := outputPattern st;
     lyricsSource := lyricsSource st; tagFallback := tagFallback st;
     apiKey := apiKey st; processing := processing st; logs := logs st;
     jobs := jobs st; requests := requests st; timers := t;
     renderError := renderError st; now := now st |}.

Definition with_renderError (e : option error) (st : state) : state :=
  {| inputPath := inputPath st; outputPath := outputPath st;
     forceUpdate := forceUpdate st; outputPattern := outputPattern st;
     lyricsSource := lyricsSource st; tagFallback := tagFallback st;
     apiKey := apiKey st; processing := processing st; logs := logs st;
     jobs := jobs st; requests := requests st; timers := timers st;
     renderError := e; now := now st |}.

(** *** State updates and effects *)

Definition M : Type -> Type := Renderer.M state.

(** [setProcessing(b)] *)
Definition setProcessing (b : bool) : M unit :=
  fun st => (Normal tt, with_processing b st).

(** [addLog(message, type)]:
    [setLogs(prev => [...prev, { message, type, timestamp: new Date() }])] *)
Definition addLog (message : template) (type : string) : M unit :=
  fun st =>
    (Normal tt,
     with_logs (logs st ++ [LogEntry message type (now st)]) st).

(** [setJobs(updater)].  The updater runs when React computes the next
    state, not under the caller's [try]: when it throws, the caller goes
    on, the list is not replaced and the error surfaces in rendering. *)
Definition setJobs (updater : list value -> completion (list value)) : M unit :=
  fun st =>
    match updater (jobs st) with
    | Normal next => (Normal tt, with_jobs next st)
    | Throw e => (Normal tt, with_renderError (Some e) st)
    end.

(** [await fetch(...)]: the request leaves, then the promise settles as the
    network has it. *)
Definition fetch (net : reply) (req : request) : M response :=
  fun st =>
    let st' := with_requests (requests st ++ [req]) st in
    match net with
    | Rejects e => (Throw e, st')
    | Responds r => (Normal r, st')
    end.

(** [setInterval(callback, delay)] for the polling callback of [jobId];
    the result is the timer's identifier. *)
Definition setInterval (jobId : value) (delay : Z) : M nat :=
  fun st =>
    (Normal (List.length (timers st)),
     with_timers (timers st ++ [Timer jobId delay true]) st).

(** [clearInterval(interval)] *)
Definition clearInterval (interval : nat) : M unit :=
  fun st =>
    (Normal tt,
     with_timers (alter (fun t => Timer (polled t) (delay t) false)
                        interval (timers st)) st).

(** *** The operations of the provider *)

(** [pollJobStatus(jobId)]: arms the interval timer, every 1000 ms. *)
Definition pollJobStatus (jobId : value) : M unit :=
  _ <- setInterval jobId 1000 ;;
  ret tt.

(** The body sent to POST /process_directory by [startProcessing]. *)
Definition process_directory_body (st : state) : value :=
  VObj [ ("input_path", VStr (inputPath st));
         ("output_path", VStr (outputPath st));
         ("force_update", VBool (forceUpdate st));
         ("output_pattern", VStr (outputPattern st));
         ("lyrics_source", VStr (lyricsSource st));
         ("tag_fallback", VBool (tagFallback st));
         ("api_key", VStr (apiKey st)) ].

(** [startProcessing()].  The paths and [error.message] are strings; the
    one substitution that is converted is [data.job_id], whose conversion
    may throw: after [setJobs], before [pollJobStatus], under the [try]. *)
Definition startProcessing (net : reply) : M unit :=
  st <- get_state ;;
  if String.eqb (inputPath st) "" || String.eqb (outputPath st) "" then
    addLog [Lit "Input and output paths are required"] "error"
  else
    (setProcessing true ;;
     addLog [Lit "Processing started: "; Sub (VStr (inputPath st));
             Lit " -> "; Sub (VStr (outputPath st))] "info" ;;
     try_finally
       (try_catch
          (response <- fetch net
             {| method := "POST";
                url := [Lit "http://localhost:8000/process_directory"];
                headers := [("Content-Type", "application/json")];
                body := Some (process_directory_body st) |} ;;
           data <- lift (json response) ;;
           id <- lift (get data Job_id) ;;
           if truthy id then
             (setJobs (fun prev => Normal (prev ++ [data])) ;;
              created <- lift (template_literal [Lit "Job created: "; Sub id]) ;;
              addLog created "info" ;;
              pollJobStatus id)
           else
             addLog [Lit "Failed to create job"] "error")
          (fun error =>
             addLog [Lit "Error: "; Sub (VStr (JS.message error))] "error"))
       (setProcessing false)).

(** [validateSetup()] *)
Definition validateSetup (net : reply) : M value :=
  st <- get_state ;;
  try_catch
    (response <- fetch net
       {| method := "GET";
          url := [Lit "http://localhost:8000/validate_setup?api_key=";
                  Sub (VStr (apiKey st))];
          headers := [];
          body := None |} ;;
     data <- lift (json response) ;;
     ok <- lift (get data Valid) ;;
     (if truthy ok then
        addLog [Lit "Setup validation successful"] "success"
      else
        (checks <- lift (get data Validations) ;;
         entries <- lift (Object_entries checks) ;;
         for_each (fun '(key, valid) =>
                     if negb (truthy valid) then
                       addLog [Lit "Validation failed for "; Sub (VStr key)]
                              "error"
                     else ret tt)
                  entries)) ;;
     ret data)
    (fun error =>
       addLog [Lit "Error validating setup: "; Sub (VStr (JS.message error))]
              "error" ;;
       ret (VObj [("valid", VBool false)])).

Section Polling.

Variable same_ref : value -> value -> bool.

(** The updater given to [setJobs] by a poll:
    [prev => prev.map(job => job.job_id === jobId ? { ...job, ...data } : job)] *)
Definition merge_status (jobId data : value) (prev : list value)
  : completion (list value) :=
  map_throwing
    (fun job =>
       and_then (get job Job_id) (fun id =>
       Normal (if strict_eq same_ref id jobId then spread job data else job)))
    prev.

(** The callback of the interval timer [interval] created by
    [pollJobStatus(jobId)].  The job id of a timer went through the
    template of [startProcessing] before the timer was created, so the
    templates of the callback convert it again without throwing. *)
Definition interval_callback (interval : nat) (jobId : value) (net : reply)
  : M unit :=
  try_catch
    (response <- fetch net
       {| method := "GET";
          url := [Lit "http://localhost:8000/status/"; Sub jobId];
          headers := [];
          body := None |} ;;
     data <- lift (json response) ;;
     setJobs (merge_status jobId data) ;;
     s <- lift (get data Status) ;;
     if is_string s "completed" || is_string s "failed" then
       (clearInterval interval ;;
        addLog [Lit "Job "; Sub jobId; Lit " "; Sub s]
               (if is_string s "completed" then "success" else "error"))
     else ret tt)
    (fun error =>
       addLog [Lit "Error polling job "; Sub jobId; Lit ": ";
               Sub (VStr (JS.message error))] "error" ;;
       clearInterval interval).

(** The timer [interval] comes due: its callback runs when it is still
    armed; a cleared or unknown timer does nothing. *)
Definition tick (interval : nat) (net : reply) : M unit :=
  fun st =>
    match timers st !! interval with
    | Some t =>
        if active t then interval_callback interval (polled t) net st
        else (Normal tt, st)
    | None => (Normal tt, st)
    end.

(** Successive periods of one timer, with the network's answers. *)
Fixpoint ticks (interval : nat) (nets : list reply) (st : state) : state :=
  match nets with
  | [] => st
  | net :: rest => ticks interval rest (snd (tick interval net st))
  end.

End Polling.

(** *** Choosing and opening directories *)

Definition with_inputPath (p : string) (st : state) : state :=
  {| inputPath := p; outputPath := outputPath st;
     forceUpdate := forceUpdate st; outputPattern := outputPattern st;
     lyricsSource := lyricsSource st; tagFallback := tagFallback st;
     apiKey := apiKey st; processing := processing st; logs := logs st;
     jobs := jobs st; requests := requests st; timers := timers st;
     renderError := renderError st; now := now st |}.

Definition with_outputPath (p : string) (st : state) : state :=
  {| inputPath := inputPath st; outputPath := p;
     forceUpdate := forceUpdate st; outputPattern := outputPattern st;
     lyricsSource := lyricsSource st; tagFallback := tagFallback st;
     apiKey := apiKey st; processing := processing st; logs := logs st;
     jobs := jobs st; requests := requests st; timers := timers st;
     renderError := renderError st; now := now st |}.

(** [setInputPath(p)] and [setOutputPath(p)] *)
Definition setInputPath (p : string) : M unit :=
  fun st => (Normal tt, with_inputPath p st).

Definition setOutputPath (p : string) : M unit :=
  fun st => (Normal tt, with_outputPath p st).

(** [await window.api.f(...)]: the value the promise resolves to, or the
    error it rejects with, thrown. *)
Definition await {A : Type} (settled : completion A) : M A :=
  lift settled.

(** [selectInputPath()].  The answer of [window.api.selectDirectory()] is
    the [filePaths] of Electron's dialog, an array of strings, or a
    rejection. *)
Definition selectInputPath (answer : completion (list string)) : M unit :=
  try_catch
    (paths <- await answer ;;
     match paths with
     | first :: _ =>
         setInputPath first ;;
         addLog [Lit "Input path set: "; Sub (VStr first)] "info"
     | [] => ret tt
     end)
    (fun error =>
       addLog [Lit "Error selecting input path: ";
               Sub (VStr (JS.message error))] "error").

(** [selectOutputPath()], on the answer of
    [window.api.selectOutputDirectory()]. *)
Definition selectOutputPath (answer : completion (list string)) : M unit :=
  try_catch
    (paths <- await answer ;;
     match paths with
     | first :: _ =>
         setOutputPath first ;;
         addLog [Lit "Output path set: "; Sub (VStr first)] "info"
     | [] => ret tt
     end)
    (fun error =>
       addLog [Lit "Error selecting output path: ";
               Sub (VStr (JS.message error))] "error").

(** [openDirectory(dirPath)], on the settlement of
    [window.api.openDirectory(dirPath)]: the resolved value is dropped, a
    rejection is logged. *)
Definition openDirectory (settled : settlement) : M unit :=
  try_catch
    (_ <- await (match settled with
                 | Resolved v => Normal v
                 | Rejected e => Throw e
                 end) ;;
     ret tt)
    (fun error =>
       addLog [Lit "Error opening directory: ";
               Sub (VStr (JS.message error))] "error").

(** *** Histories of the provider *)

Section Histories.

Variable same_ref : value -> value -> bool.

(** One thing that happens to the provider: a call of one of its
    operations or a period of one of its timers, with what the outside
    answers. *)
Inductive action : Type :=
| StartProcessing (net : reply)
| Period (interval : nat) (net : reply)
| ValidateSetup (net : reply)
| SelectInputPath (answer : completion (list string))
| SelectOutputPath (answer : completion (list string))
| OpenDirectory (settled : settlement).

Definition perform (st : state) (a : action) : state :=
  match a with
  | StartProcessing net => snd (startProcessing net st)
  | Period interval net => snd (tick same_ref interval net st)
  | ValidateSetup net => snd (validateSetup net st)
  | SelectInputPath answer => snd (selectInputPath answer st)
  | SelectOutputPath answer => snd (selectOutputPath answer st)
  | OpenDirectory settled => snd (openDirectory settled st)
  end.

Definition history (actions : list action) (st : state) : state :=
  fold_left perform actions st.

End Histories.

End ProcessContext.

(** ** App: the single-component renderer *)

Module App.

(** An entry of App's [logs] state; [id] is [Date.now()]. *)
Record log_entry : Type := LogEntry {
  id : Z;
  message : template;
  type : string;
  timestamp : Z
}.

(** The state hooks of [App], the requests it issued and the clock. *)
Record state : Type := State {
  inputPath : string;
  outputPath : string;
  logs : list log_entry;
  isProcessing : bool;
  apiStatus : string;
  requests : list request;
  now : Z
}.

Definition initial (clock : Z) : state :=
  {| inputPath := ""; outputPath := ""; logs := []; isProcessing := false;
     apiStatus := "unknown"; requests := []; now := clock |}.

Definition M : Type -> Type := Renderer.M state.

(** [addLog(message, type)] *)
Definition addLog (message : template) (type : string) : M unit :=
  fun st =>
    (Normal tt,
     {| inputPath := inputPath st; outputPath := outputPath st;
        logs := logs st ++ [LogEntry (now st) message type (now st)];
        isProcessing := isProcessing st; apiStatus := apiStatus st;
        requests := requests st; now := now st |}).

(** [setIsProcessing(b)] *)
Definition setIsProcessing (b : bool) : M unit :=
  fun st =>
    (Normal tt,
     {| inputPath := inputPath st; outputPath := outputPath st;
        logs := logs st; isProcessing := b; apiStatus := apiStatus st;
        requests := requests st; now := now st |}).

(** [await fetch(...)] *)
Definition fetch (net : reply) (req : request) : M response :=
  fun st =>
    let st' :=
      {| inputPath := inputPath st; outputPath := outputPath st;
         logs := logs st; isProcessing := isProcessing st;
         apiStatus := apiStatus st; requests := requests st ++ [req];
         now := now st |} in
    match net with
    | Rejects e => (Throw e, st')
    | Responds r => (Normal r, st')
    end.

(** The body sent to POST /process_directory by [handleProcess]. *)
Definition process_directory_body (st : state) : value :=
  VObj [ ("input_path", VStr (inputPath st));
         ("output_path", VStr (outputPath st));
         ("force_update", VBool false);
         ("lyrics_source", VStr "genius") ].

(** [handleProcess()] *)
Definition handleProcess (net : reply) : M unit :=
  st <- get_state ;;
  if String.eqb (inputPath st) "" || String.eqb (outputPath st) "" then
    addLog [Lit "Please select input and output directories first"] "error"
  else
    try_finally
      (try_catch
         (setIsProcessing true ;;
          addLog [Lit "Starting processing..."] "info" ;;
          response <- fetch net
            {| method := "POST";
               url := [Lit "http://localhost:8000/process_directory"];
               headers := [("Content-Type", "application/json")];
               body := Some (process_directory_body st) |} ;;
          data <- lift (json response) ;;
          id <- lift (get data Job_id) ;;
          if truthy id then
            (started <- lift (template_literal
                                [Lit "Processing job started: "; Sub id]) ;;
             addLog started "success")
          else
            addLog [Lit "Failed to start processing job"] "error")
         (fun error =>
            addLog [Lit "Error processing files: ";
                    Sub (VStr (JS.message error))] "error"))
      (setIsProcessing false).

(** [setApiStatus(s)] *)
Definition setApiStatus (s : string) : M unit :=
  fun st =>
    (Normal tt,
     {| inputPath := inputPath st; outputPath := outputPath st;
        logs := logs st; isProcessing := isProcessing st; apiStatus := s;
        requests := requests st; now := now st |}).

(** [checkApiConnection()] *)
Definition checkApiConnection (net : reply) : M unit :=
  try_catch
    (addLog [Lit "Checking Python API connection..."] "info" ;;
     setApiStatus "checking" ;;
     response <- fetch net
       {| method := "GET";
          url := [Lit "http://localhost:8000/config"];
          headers := [];
          body := None |} ;;
     data <- lift (json response) ;;
     version <- lift (read data "version") ;;
     connected <- lift (template_literal
                          [Lit "API connection successful! Tinfoil version: ";
                           Sub version]) ;;
     addLog connected "success" ;;
     setApiStatus "connected")
    (fun error =>
       addLog [Lit "API connection failed: "; Sub (VStr (JS.message error))]
              "error" ;;
       setApiStatus "error").

(** The [disabled] attribute of the Process button. *)
Definition process_disabled (st : state) : bool :=
  isProcessing st || String.eqb (inputPath st) ""
  || String.eqb (outputPath st) ""
  || negb (String.eqb (apiStatus st) "connected").

End App.

(** ** Numbers

    A JavaScript number is a binary64 double.  A finite double is given
    here by its exact value, a rational, and an arithmetic operation
    rounds the exact result to the nearest double, a tie going to the
    even significand, as IEEE 754 has it: the product with 100, the one
    operation the components perform, is proved below to be the product
    of binary64 arithmetic ([times_100_binary64]).  The sign of a zero
    is not kept: no text the components print depends on it ([-0] prints
    as "0"). *)

Module Number.

Inductive number : Type :=
| Finite (q : Q)
| Infinity (negative : bool)
| NaN.

(** [2^e], for any integer [e]. *)
Definition pow2 (e : Z) : Q := (2 ^ e)%Q.

(** The binary exponent of a positive rational: the [e] with
    [2^e <= x < 2^(e+1)]. *)
Definition ilog2 (x : Q) : Z :=
  let e := (Z.log2 (Qnum x) - Z.log2 (Zpos (Qden x)))%Z in
  if Qle_bool (pow2 e) x then e else (e - 1)%Z.

(** The integer nearest to [y], a tie going to the even one. *)
Definition round_half_even (y : Q) : Z :=
  let f := Qfloor y in
  match (y - inject_Z f ?= 1 # 2)%Q with
  | Lt => f
  | Gt => (f + 1)%Z
  | Eq => if Z.even f then f else (f + 1)%Z
  end.

(** The exponent of the last place of the doubles around a positive
    [x]: 52 binary places below the leading one, and never below that of
    the subnormal doubles, -1074. *)
Definition exponent (x : Q) : Z := Z.max (ilog2 x - 52) (-1074).

(** The unit in the last place around a positive [x]. *)
Definition ulp (x : Q) : Q := pow2 (exponent x).

(** The multiple of the unit in the last place nearest to a positive
    [x]. *)
Definition nearest (x : Q) : Q :=
  (inject_Z (round_half_even (x / ulp x)) * ulp x)%Q.

(** Rounding to nearest, before the range is looked at: sign and
    magnitude. *)
Definition round_to_double (x : Q) : Q :=
  match (x ?= 0)%Q with
  | Eq => 0%Q
  | Gt => nearest x
  | Lt => (- nearest (- x))%Q
  end.

(** The double nearest to [x]: the rounded value, or an infinity when
    that reaches [2^1024] in magnitude. *)
Definition binary64 (x : Q) : number :=
  let r := round_to_double x in
  if Qle_bool (pow2 1024) (Qabs r) then Infinity (negb (Qle_bool 0 r))
  else Finite r.

(** [a * b] *)
Definition times (a b : number) : number :=
  match a, b with
  | NaN, _ | _, NaN => NaN
  | Finite x, Finite y => binary64 (x * y)
  | Infinity s, Infinity s' => Infinity (xorb s s')
  | Infinity s, Finite y | Finite y, Infinity s =>
      if Qeq_bool y 0 then NaN else Infinity (xorb s (negb (Qle_bool 0 y)))
  end.

(** [a <= b] *)
Definition le (a b : number) : Prop :=
  match a, b with
  | NaN, _ | _, NaN => False
  | Finite x, Finite y => (x <= y)%Q
  | Infinity negative, Finite _ => negative = true
  | Finite _, Infinity negative => negative = false
  | Infinity negative, Infinity negative' =>
      negative = true \/ negative' = false
  end.

(** Two numbers are the same number. *)
Definition eqb (a b : number) : bool :=
  match a, b with
  | Finite x, Finite y => Qeq_bool x y
  | Infinity s, Infinity s' => Bool.eqb s s'
  | NaN, NaN => true
  | _, _ => false
  end.

(** The number a binary64 datum stands for. *)
Definition of_binary64 (f : SpecFloat.spec_float) : number :=
  match f with
  | SpecFloat.S754_zero _ => Finite 0
  | SpecFloat.S754_infinity s => Infinity s
  | SpecFloat.S754_nan => NaN
  | SpecFloat.S754_finite s m e =>
      Finite ((if s then - inject_Z (Zpos m) else inject_Z (Zpos m)) * pow2 e)
  end.

End Number.

(** ** Presentational components *)

Module Components.

(** [Math.round(x)]: the integer nearest to [x], a half going up; an
    infinity and NaN are returned as they are. *)
Definition Math_round (x : Number.number) : Number.number :=
  match x with
  | Number.Finite q => Number.Finite (inject_Z (Qfloor (q + (1 # 2))))
  | _ => x
  end.

(** What a progress cell shows: the colour class of the bar, the number
    its width is set to (followed by "%"), and the number printed beside
    it (followed by "%"). *)
Record progress_view : Type := ProgressView {
  barColor : string;
  width : Number.number;
  label : Number.number
}.

(** [ProgressBar({ progress, status })], for a [progress] that is a
    number. *)
Definition ProgressBar (progress : Number.number) (status : value)
  : progress_view :=
  let barColor :=
    if is_string status "completed" then "bg-green-600"
    else if is_string status "failed" then "bg-red-600"
    else "bg-blue-600" in
  let percentage :=
    Math_round (Number.times progress (Number.Finite 100)) in
  {| barColor := barColor; width := percentage; label := percentage |}.

(** The progress cell of a [JobList] row, for a job whose [status] is
    [status] and whose [progress] is the number [progress]: NaN when the
    job has no progress, [undefined * 100] being NaN. *)
Definition JobList_progress (progress : Number.number) (status : value)
  : progress_view :=
  {| barColor :=
       if is_string status "completed" then "bg-green-600"
       else if is_string status "failed" then "bg-red-600"
       else "bg-blue-600";
     width := Number.times progress (Number.Finite 100);
     label := Math_round (Number.times progress (Number.Finite 100)) |}.

(** The colour classes of the status cell of a [JobList] row. *)
Definition JobList_status_class (status : value) : string :=
  if is_string status "completed" then "bg-green-100 text-green-800"
  else if is_string status "failed" then "bg-red-100 text-red-800"
  else if is_string status "processing" then "bg-blue-100 text-blue-800"
  else "bg-yellow-100 text-yellow-800".

(** *** StatusBadge *)

Definition scheme (bg text : string) : value :=
  VObj [("bg", VStr bg); ("text", VStr text)].

(** The own properties of the [STATUS_COLORS] literal. *)
Definition STATUS_COLORS : list (string * value) :=
  [ ("pending", scheme "bg-yellow-100" "text-yellow-800");
    ("processing", scheme "bg-blue-100" "text-blue-800");
    ("completed", scheme "bg-green-100" "text-green-800");
    ("failed", scheme "bg-red-100" "text-red-800") ].

(** The methods every object literal inherits from [Object.prototype]. *)
Definition Object_prototype_methods : list string :=
  [ "constructor"; "hasOwnProperty"; "isPrototypeOf";
    "propertyIsEnumerable"; "toLocaleString"; "toString"; "valueOf";
    "__defineGetter__"; "__defineSetter__";
    "__lookupGetter__"; "__lookupSetter__" ].

Fixpoint position (name : string) (names : list string) (from : nat)
  : option nat :=
  match names with
  | [] => None
  | n :: rest =>
      if String.eqb n name then Some from else position name rest (S from)
  end.

(** A property an object literal does not own, looked up on
    [Object.prototype]: one of its methods, the prototype itself for
    [__proto__] (it has no enumerable property), [undefined] otherwise. *)
Definition inherited (name : string) : value :=
  if String.eqb name "__proto__" then VObj []
  else match position name Object_prototype_methods 0 with
       | Some i => VFun i
       | None => VUndefined
       end.

(** [literal[name]] for an object literal with own properties [fields]. *)
Definition member (fields : list (string * value)) (name : string) : value :=
  match lookup_own name fields with
  | Some v => v
  | None => inherited name
  end.

(** [colors.bg] and [colors.text]: names that neither functions nor
    [Object.prototype] define. *)
Definition style (colors : value) (name : string) : completion value :=
  match colors with
  | VUndefined =>
      Throw (Error ("Cannot read properties of undefined (reading '"
                      ++ name ++ "')"))
  | VNull =>
      Throw (Error ("Cannot read properties of null (reading '"
                      ++ name ++ "')"))
  | VObj fields =>
      Normal (match lookup_own name fields with
              | Some v => v
              | None => VUndefined
              end)
  | _ => Normal VUndefined
  end.

(** The [span] of a badge: its class and its text child. *)
Record badge : Type := Badge {
  className : template;
  children : string
}.

(** [StatusBadge({ status })] *)
Definition StatusBadge (status : string) : completion badge :=
  let colors :=
    if truthy (member STATUS_COLORS status) then member STATUS_COLORS status
    else member STATUS_COLORS "pending" in
  and_then (style colors "bg") (fun bg =>
  and_then (style colors "text") (fun text =>
  Normal {| className :=
              [Lit "inline-flex items-center px-2.5 py-0.5 rounded-full text-xs font-medium ";
               Sub bg; Lit " "; Sub text];
            children := status |})).

(** The class of a badge in the pending colours. *)
Definition pending_className : template :=
  [Lit "inline-flex items-center px-2.5 py-0.5 rounded-full text-xs font-medium ";
   Sub (VStr "bg-yellow-100"); Lit " "; Sub (VStr "text-yellow-800")].

End Components.

(** ** Settings: the setup check *)

Module Settings.

(** The [setupStatus] state of the component. *)
Record state : Type := State {
  isValidating : bool;
  validation : value
}.

(** [useState({ isValidating: false, validation: null })] *)
Definition initial : state := State false VNull.

(** The component's own state beside the provider's. *)
Definition M : Type -> Type := Renderer.M (ProcessContext.state * state).

(** An operation of the provider, called from the component. *)
Definition in_context {A : Type} (m : ProcessContext.M A) : M A :=
  fun w =>
    match m (fst w) with
    | (c, ctx) => (c, (ctx, snd w))
    end.

(** [setSetupStatus(s)] *)
Definition setSetupStatus (s : state) : M unit :=
  fun w => (Normal tt, (fst w, s)).

(** [checkSetup()] *)
Definition checkSetup (net : reply) : M unit :=
  setSetupStatus (State true VNull) ;;
  try_catch
    (result <- in_context (ProcessContext.validateSetup net) ;;
     setSetupStatus (State false result))
    (fun error =>
       setSetupStatus (State false (VObj [("valid", VBool false)])) ;;
       in_context
         (ProcessContext.addLog
            [Lit "Validation error: "; Sub (VStr (JS.message error))]
            "error")).

(** What the panel shows under the key: nothing before the first check
    ([setupStatus.validation && ...]), then the tick or the cross
    according to [validation.valid]. *)
Inductive verdict : Type := NoVerdict | KeyValid | KeyInvalid.

Definition shown_verdict (s : state) : completion verdict :=
  if negb (truthy (validation s)) then Normal NoVerdict
  else
    and_then (get (validation s) Valid) (fun ok =>
    Normal (if truthy ok then KeyValid else KeyInvalid)).

End Settings.

(** * Vocabulary of the statements *)

(** ** Paths *)

(** A path the validation is meant to stop: not a string, or a string
    that contains ".." or is longer than 4096 characters. *)
Definition unsafe_path (path : value) : Prop :=
  (forall s, path <> VStr s) \/
  (exists s, path = VStr s /\
             (includes s ".." = true \/ (4096 < String.length s)%nat)).

(** ** Listeners *)

(** The counters count the listeners, and stay within the budget. *)
Definition within_budget (st : Preload.state) : Prop :=
  Preload.registered "python-log" st = Preload.logListenerCount st /\
  Preload.registered "python-error" st = Preload.errorListenerCount st /\
  Preload.registered "python-exit" st = Preload.exitListenerCount st /\
  (Preload.logListenerCount st <= Preload.MAX_LISTENERS)%nat /\
  (Preload.errorListenerCount st <= Preload.MAX_LISTENERS)%nat /\
  (Preload.exitListenerCount st <= Preload.MAX_LISTENERS)%nat.

(** ** Requests *)

(** The seven fields of the POST /process_directory interface. *)
Definition interface_fields : list string :=
  [ "input_path"; "output_path"; "force_update"; "output_pattern";
    "lyrics_source"; "tag_fallback"; "api_key" ].

(** The names of the fields of a request's JSON body. *)
Definition body_fields (r : request) : list string :=
  match body r with
  | Some (VObj fields) => List.map fst fields
  | _ => []
  end.

Definition posts_to_process_directory (r : request) : Prop :=
  method r = "POST" /\ url r = [Lit "http://localhost:8000/process_directory"].

(** The request of one poll: GET /status/{job_id}. *)
Definition status_request (jobId : value) : request :=
  {| method := "GET";
     url := [Lit "http://localhost:8000/status/"; Sub jobId];
     headers := [];
     body := None |}.

(** ** Replies *)

(** The [fetch] promise itself rejects. *)
Definition fetch_throws (net : reply) : Prop :=
  exists e, net = Rejects e.

(** The response arrives but its JSON decoding throws. *)
Definition parsing_throws (net : reply) : Prop :=
  exists e, net = Responds (Response (Throw e)).

(** The response arrives and decodes to [data]. *)
Definition delivers (net : reply) (data : value) : Prop :=
  net = Responds (Response (Normal data)).

(** The response decodes to a body whose [status] reads as [s]
    ([undefined] when the body has none). *)
Definition fetched_status (net : reply) (s : value) : Prop :=
  exists data, delivers net data /\ get data Status = Normal s.

(** The terminal statuses of a job. *)
Definition terminal (s : value) : Prop :=
  s = VStr "completed" \/ s = VStr "failed".

(** The timer is still armed. *)
Definition armed (interval : nat) (st : ProcessContext.state) : Prop :=
  exists t, ProcessContext.timers st !! interval = Some t /\ active t = true.

(** ** Log entries *)

(** The entry [startProcessing] writes before it posts. *)
Definition started_entry (st : ProcessContext.state) : log_entry :=
  Renderer.LogEntry
    [Lit "Processing started: "; Sub (VStr (ProcessContext.inputPath st));
     Lit " -> "; Sub (VStr (ProcessContext.outputPath st))]
    "info" (ProcessContext.now st).

(** The entry [validateSetup] writes for a failed check. *)
Definition failed_check_entry (clock : Z) (kv : string * value) : log_entry :=
  Renderer.LogEntry [Lit "Validation failed for "; Sub (VStr (fst kv))]
                    "error" clock.

(** The entry [validateSetup] writes when it catches [e]. *)
Definition validation_error_entry (clock : Z) (e : error) : log_entry :=
  Renderer.LogEntry [Lit "Error validating setup: "; Sub (VStr (JS.message e))]
                    "error" clock.

(** ** Results of [validateSetup] *)

(** An object with a boolean-valued [valid] field. *)
Definition has_boolean_valid (v : value) : Prop :=
  exists fields b, v = VObj fields /\ lookup_own "valid" fields = Some (VBool b).

(** What ends the [try] block of [validateSetup] with the error [e]: the
    fetch rejects, the decoding throws, the body is [null] so that reading
    [valid] throws, or [valid] is falsy and [validations] is missing or
    [null] so that [Object.entries] throws. *)
Definition validation_throws (net : reply) (e : error) : Prop :=
  net = Rejects e \/
  net = Responds (Response (Throw e)) \/
  exists data, delivers net data /\
    (get data Valid = Throw e \/
     exists ok checks,
       get data Valid = Normal ok /\ truthy ok = false /\
       get data Validations = Normal checks /\
       Object_entries checks = Throw e).

(** ** Status badges *)

(** The four statuses [STATUS_COLORS] has a scheme for. *)
Definition known_statuses : list string :=
  ["pending"; "processing"; "completed"; "failed"].

(** ** One poll *)

(** The body arrives but reading its [status] throws: the body is
    [null]. *)
Definition reading_throws (net : reply) : Prop :=
  exists data e, delivers net data /\ get data Status = Throw e.

(** Whether the callback of a poll reaches [clearInterval] on this reply:
    in the [catch] block, or after a terminal status. *)
Definition poll_stops (net : reply) : bool :=
  match net with
  | Rejects _ => true
  | Responds r =>
      match json r with
      | Throw _ => true
      | Normal data =>
          match get data Status with
          | Throw _ => true
          | Normal s => is_string s "completed" || is_string s "failed"
          end
      end
  end.

(** [clearInterval] applied to the list of timers. *)
Definition cleared (interval : nat) (l : list timer) : list timer :=
  alter (fun t => Timer (polled t) (delay t) false) interval l.

(** An entry of the jobs list is an object. *)
Definition is_object (v : value) : Prop := exists fields, v = VObj fields.

(** ** Further vocabulary: paths and listeners *)

(** [sub] occurs in [s]. *)
Definition occurs_in (sub s : string) : Prop :=
  exists pre post, s = (pre ++ sub ++ post)%string.

(** The functions offered to a channel by a sequence of calls, in call
    order. *)
Definition offered (channel : string) (calls : list Preload.call)
  : list value :=
  flat_map
    (fun c =>
       let '(ch, cb) :=
         match c with
         | Preload.OnPythonLog cb => ("python-log", cb)
         | Preload.OnPythonError cb => ("python-error", cb)
         | Preload.OnPythonExit cb => ("python-exit", cb)
         end in
       if String.eqb ch channel && String.eqb (typeof cb) "function"
       then [cb] else [])
    calls.

(** The callbacks listening on a channel, oldest first. *)
Definition listening (channel : string) (st : Preload.state) : list value :=
  List.map snd
    (List.filter (fun l => String.eqb (fst l) channel) (Preload.listeners st)).

Definition preload_channel (channel : string) : Prop :=
  channel = "python-log" \/ channel = "python-error" \/ channel = "python-exit".

(** ** Further vocabulary: the provider *)

(** The three types of entries the log viewer has a colour for. *)
Definition known_type (e : log_entry) : Prop :=
  type e = "info" \/ type e = "success" \/ type e = "error".

(** The request fails with [e] before a body is decoded: the fetch
    rejects or the JSON decoding throws. *)
Definition fails_with (net : reply) (e : error) : Prop :=
  net = Rejects e \/ net = Responds (Response (Throw e)).

(** What one action may do to the provider's state: the logs and the
    requests grow at the end, by entries of a known type; either the
    jobs keep their number while the timers stay or lose one, or one
    object joins the jobs, and with it its timer unless its job_id has no
    string; jobs that are objects stay objects and then no updater
    throws; the processing flag does not come up. *)
Definition footprint (st st' : ProcessContext.state) : Prop :=
  (exists more, ProcessContext.logs st' = ProcessContext.logs st ++ more /\
                Forall known_type more) /\
  (exists more, ProcessContext.requests st'
                = ProcessContext.requests st ++ more) /\
  ((List.length (ProcessContext.jobs st') = List.length (ProcessContext.jobs st) /\
    (ProcessContext.timers st' = ProcessContext.timers st \/
     exists i, ProcessContext.timers st' = cleared i (ProcessContext.timers st))) \/
   (exists data,
      is_object data /\
      ProcessContext.jobs st' = ProcessContext.jobs st ++ [data] /\
      (ProcessContext.timers st' = ProcessContext.timers st \/
       exists id,
         stringifies id = true /\
         ProcessContext.timers st'
         = ProcessContext.timers st ++ [Timer id 1000 true]))) /\
  (Forall is_object (ProcessContext.jobs st) ->
   Forall is_object (ProcessContext.jobs st') /\
   ProcessContext.renderError st' = ProcessContext.renderError st) /\
  (ProcessContext.processing st = false ->
   ProcessContext.processing st' = false).

(** A timer as [pollJobStatus] makes them: its period is 1000 ms and the
    job id it polls has a string. *)
Definition well_made (t : timer) : Prop :=
  delay t = 1000%Z /\ stringifies (polled t) = true.

(** What holds of the provider's state whenever it is at rest: no timer
    without a job, the jobs are objects, no updater has thrown, every
    timer is as [pollJobStatus] makes them, and nothing is processing. *)
Definition at_rest (st : ProcessContext.state) : Prop :=
  (List.length (ProcessContext.timers st)
   <= List.length (ProcessContext.jobs st))%nat /\
  Forall is_object (ProcessContext.jobs st) /\
  ProcessContext.renderError st = None /\
  Forall well_made (ProcessContext.timers st) /\
  ProcessContext.processing st = false.

(** A press on Open Folder: the call goes through the preload script
    [expose] to the handler of the main process, and the provider's
    [openDirectory] sees how the promise settles.  The result is the
    provider's state and what the call set off. *)
Definition open_folder (expose : value -> Preload.ipc_call)
  (handler : value -> value * list event) (path : value)
  (st : ProcessContext.state) : ProcessContext.state * list event :=
  let '(settled, evs) := api_openDirectory expose handler path in
  (snd (ProcessContext.openDirectory settled st), evs).

(** The entry [openDirectory] writes when the call is rejected. *)
Definition open_error_entry (clock : Z) (e : error) : log_entry :=
  Renderer.LogEntry [Lit "Error opening directory: "; Sub (VStr (JS.message e))]
                    "error" clock.

(** The fields of a merged entry. *)
Definition fields_of (v : value) : list (string * value) :=
  match v with
  | VObj fields => fields
  | _ => []
  end.

(** Each property name occurs once. *)
Definition distinct_names (fields : list (string * value)) : Prop :=
  List.NoDup (List.map fst fields).

(** ** Further vocabulary: App, the components, Settings *)

(** The request of [checkApiConnection]. *)
Definition config_request : request :=
  {| method := "GET";
     url := [Lit "http://localhost:8000/config"];
     headers := [];
     body := None |}.

(** The property names an object literal finds on [Object.prototype]. *)
Definition inherited_names : list string :=
  "__proto__" :: Components.Object_prototype_methods.

(** The class of a badge whose colour classes are [bg] and [text]. *)
Definition badge_class (bg text : value) : template :=
  [Lit "inline-flex items-center px-2.5 py-0.5 rounded-full text-xs font-medium ";
   Sub bg; Lit " "; Sub text].

(** ** Further vocabulary: binary64 data *)

(** The record of [shr] after [k] shifts of the exact mantissa [M]. *)
Definition shifted (M k : Z) : SpecFloat.shr_record :=
  if (k =? 0)%Z then SpecFloat.Build_shr_record M false false
  else SpecFloat.Build_shr_record
         (M / 2 ^ k) (Z.odd (M / 2 ^ (k - 1)))
         (negb (M mod 2 ^ (k - 1) =? 0)%Z).

(** 100 as a binary64 datum. *)
Definition hundred : SpecFloat.spec_float :=
  SpecFloat.S754_finite false 7036874417766400 (-46).

(** * Verified properties *)

(** ** Opening a directory through the preload API *)

Lemma preload_validatePath_unsafe (path : value) :
  unsafe_path path -> Preload.validatePath path = false.
Proof.
  intros [Hns | (s & -> & [Hdots | Hlong])].
  - destruct path; try reflexivity. now destruct (Hns s).
  - unfold Preload.validatePath. rewrite Hdots. apply andb_false_r.
  - unfold Preload.validatePath, Preload.validateString.
    apply Nat.leb_gt in Hlong. rewrite Hlong.
    now rewrite andb_false_r.
Qed.

Lemma hardened_validatePath_unsafe (path : value) :
  unsafe_path path -> MainHardened.validatePath path = false.
Proof.
  intros [Hns | (s & -> & [Hdots | Hlong])].
  - destruct path; try reflexivity. now destruct (Hns s).
  - simpl. now rewrite Hdots.
  - simpl. apply Nat.ltb_lt in Hlong. rewrite Hlong.
    now destruct (includes s "..").
Qed.

(** C2.  For every path that is not a string, contains ".." or exceeds
    4096 characters, a call of [window.api.openDirectory] opens nothing.
    With preload.js the call is rejected with "Invalid path" before any
    IPC invocation, whatever handler the main process has installed.
    With the preload script that forwards the path unchecked, the
    hardened main process answers [false] and [shell.openPath] is not
    reached. *)
Theorem openDirectory_rejects_unsafe_path
  (handler : value -> value * list event) (fs : MainHardened.filesystem)
  (path : value) :
  unsafe_path path ->
  api_openDirectory Preload.openDirectory handler path
  = (Rejected (Error "Invalid path"), []) /\
  api_openDirectory PreloadPlain.openDirectory
                    (MainHardened.open_directory fs) path
  = (Resolved (VBool false), [IpcInvoke "open-directory" path]) /\
  opens_a_directory
    (snd (api_openDirectory Preload.openDirectory handler path)) = false /\
  opens_a_directory
    (snd (api_openDirectory PreloadPlain.openDirectory
                            (MainHardened.open_directory fs) path)) = false.
Proof.
  intros Hbad.
  assert (Hguard : api_openDirectory Preload.openDirectory handler path
                   = (Rejected (Error "Invalid path"), [])).
  { unfold api_openDirectory, Preload.openDirectory.
    now rewrite (preload_validatePath_unsafe path Hbad). }
  assert (Hmain : api_openDirectory PreloadPlain.openDirectory
                    (MainHardened.open_directory fs) path
                  = (Resolved (VBool false), [IpcInvoke "open-directory" path])).
  { unfold api_openDirectory, PreloadPlain.openDirectory,
           MainHardened.open_directory.
    now rewrite (hardened_validatePath_unsafe path Hbad). }
  rewrite Hguard, Hmain. now repeat split.
Qed.

Lemma openDirectory_rejects_unsafe_path_witness :
  unsafe_path (VStr "/music/../../etc") /\
  api_openDirectory Preload.openDirectory Main.open_directory
                    (VStr "/music/../../etc")
  = (Rejected (Error "Invalid path"), []).
Proof.
  assert (H : unsafe_path (VStr "/music/../../etc")).
  { right. exists "/music/../../etc". split; [reflexivity|].
    left. reflexivity. }
  split; [exact H|].
  exact (proj1 (openDirectory_rejects_unsafe_path
                  Main.open_directory
                  (MainHardened.Filesystem (fun _ => true) (fun _ => true))
                  (VStr "/music/../../etc") H)).
Defined.

(** A path that passes the validation does reach the handler of main.js,
    which opens it: the guard is what keeps the other paths out. *)
Example openDirectory_opens_valid_path :
  api_openDirectory Preload.openDirectory Main.open_directory
                    (VStr "/music/out")
  = (Resolved (VBool true),
     [IpcInvoke "open-directory" (VStr "/music/out");
      ShellOpenPath (VStr "/music/out")]).
Proof. reflexivity. Qed.

(** The hardened main process opens a validated path when it is an
    existing directory. *)
Example hardened_main_opens_directory :
  api_openDirectory PreloadPlain.openDirectory
    (MainHardened.open_directory
       (MainHardened.Filesystem (fun _ => true) (fun _ => true)))
    (VStr "/music/out")
  = (Resolved (VBool true),
     [IpcInvoke "open-directory" (VStr "/music/out");
      ShellOpenPath (VStr "/music/out")]).
Proof. reflexivity. Qed.

(** The guards are what keeps such a path out: the forwarding preload
    script in front of the handler of main.js would open it.  main.js
    loads the preload.js that sits next to it, which validates. *)
Example unguarded_pair_would_open :
  api_openDirectory PreloadPlain.openDirectory Main.open_directory
                    (VStr "/music/../../etc")
  = (Resolved (VBool true),
     [IpcInvoke "open-directory" (VStr "/music/../../etc");
      ShellOpenPath (VStr "/music/../../etc")]).
Proof. reflexivity. Qed.

(** ** The listener budget of the preload script *)

Lemma registered_snoc (channel : string) (st : Preload.state)
  (a b c : nat) (ch : string) (cb : value) :
  Preload.registered channel
    (Preload.State a b c (Preload.listeners st ++ [(ch, cb)]))
  = (Preload.registered channel st
     + (if String.eqb ch channel then 1 else 0))%nat.
Proof.
  unfold Preload.registered. simpl.
  rewrite List.filter_app, List.length_app. simpl.
  now destruct (String.eqb ch channel).
Qed.

Lemma within_budget_step (st : Preload.state) (c : Preload.call) :
  within_budget st -> within_budget (Preload.step st c).
Proof.
  intros (Hl & He & Hx & Bl & Be & Bx).
  destruct c as [cb | cb | cb]; simpl;
    [unfold Preload.onPythonLog
    |unfold Preload.onPythonError
    |unfold Preload.onPythonExit];
    destruct (negb (String.eqb (typeof cb) "function"));
    try (repeat split; assumption).
  - destruct (Nat.leb_spec Preload.MAX_LISTENERS (Preload.logListenerCount st));
      [repeat split; assumption|].
    unfold within_budget. rewrite !registered_snoc. simpl.
    repeat split; lia.
  - destruct (Nat.leb_spec Preload.MAX_LISTENERS (Preload.errorListenerCount st));
      [repeat split; assumption|].
    unfold within_budget. rewrite !registered_snoc. simpl.
    repeat split; lia.
  - destruct (Nat.leb_spec Preload.MAX_LISTENERS (Preload.exitListenerCount st));
      [repeat split; assumption|].
    unfold within_budget. rewrite !registered_snoc. simpl.
    repeat split; lia.
Qed.

Lemma within_budget_run (calls : list Preload.call) (st : Preload.state) :
  within_budget st -> within_budget (Preload.run calls st).
Proof.
  revert st. induction calls as [|c calls IH]; intros st H; simpl.
  - exact H.
  - apply IH, within_budget_step, H.
Qed.

Lemma within_budget_initial : within_budget Preload.initial.
Proof. unfold within_budget, Preload.MAX_LISTENERS. simpl. repeat split; lia. Qed.

(** C10.  After any sequence of calls to [onPythonLog], [onPythonError]
    and [onPythonExit], each of the three channels carries at most 10
    listeners; and a call whose argument is not a function leaves the
    whole state, counters included, as it was. *)
Theorem listeners_never_exceed_budget :
  (forall calls : list Preload.call,
     (Preload.registered "python-log" (Preload.run calls Preload.initial) <= 10)%nat /\
     (Preload.registered "python-error" (Preload.run calls Preload.initial) <= 10)%nat /\
     (Preload.registered "python-exit" (Preload.run calls Preload.initial) <= 10)%nat) /\
  (forall (callback : value) (st : Preload.state),
     typeof callback <> "function" ->
     Preload.onPythonLog callback st = st /\
     Preload.onPythonError callback st = st /\
     Preload.onPythonExit callback st = st).
Proof.
  split.
  - intros calls.
    destruct (within_budget_run calls Preload.initial within_budget_initial)
      as (Hl & He & Hx & Bl & Be & Bx).
    unfold Preload.MAX_LISTENERS in *. rewrite Hl, He, Hx. auto.
  - intros callback st Hnf.
    unfold Preload.onPythonLog, Preload.onPythonError, Preload.onPythonExit.
    apply String.eqb_neq in Hnf. rewrite Hnf. auto.
Qed.

Lemma listeners_never_exceed_budget_witness :
  typeof (VStr "not a function") <> "function" /\
  Preload.onPythonLog (VStr "not a function") Preload.initial = Preload.initial.
Proof.
  assert (H : typeof (VStr "not a function") <> "function") by discriminate.
  split; [exact H|].
  exact (proj1 (proj2 listeners_never_exceed_budget
                  (VStr "not a function") Preload.initial H)).
Defined.

(** The budget is reached: the eleventh function handed to [onPythonLog]
    is dropped. *)
Example eleventh_listener_is_dropped :
  let calls := List.map (fun i => Preload.OnPythonLog (VFun i)) (seq 0 11) in
  Preload.registered "python-log" (Preload.run calls Preload.initial) = 10%nat.
Proof. reflexivity. Qed.

(** ** Starting a job *)

(** Unfolds the sequencing combinators of a computation. *)
Ltac run_M :=
  unfold Renderer.bind, Renderer.get_state, Renderer.ret, Renderer.lift,
         Renderer.try_catch, Renderer.try_finally; simpl.

(** A template with one substitution throws exactly when the
    substituted value has no string. *)
Lemma template_literal_one (text : string) (v : value) :
  template_literal [Lit text; Sub v]
  = if stringifies v then Normal [Lit text; Sub v] else Throw not_primitive.
Proof.
  unfold template_literal. cbn [forallb]. now rewrite andb_true_r.
Qed.

Lemma empty_path_test (a b : string) :
  a = "" \/ b = "" -> String.eqb a "" || String.eqb b "" = true.
Proof.
  intros [-> | ->]; simpl; [reflexivity | apply orb_true_r].
Qed.

Lemma filled_paths_test (a b : string) :
  a <> "" -> b <> "" -> String.eqb a "" || String.eqb b "" = false.
Proof.
  intros Ha Hb. apply String.eqb_neq in Ha, Hb. now rewrite Ha, Hb.
Qed.

(** With an empty path, [startProcessing] is its first [addLog]. *)
Lemma startProcessing_empty_path (net : reply) (st : ProcessContext.state) :
  ProcessContext.inputPath st = "" \/ ProcessContext.outputPath st = "" ->
  ProcessContext.startProcessing net st
  = ProcessContext.addLog [Lit "Input and output paths are required"] "error" st.
Proof.
  intros Hempty. apply empty_path_test in Hempty.
  unfold ProcessContext.startProcessing. run_M. now rewrite Hempty.
Qed.

Lemma handleProcess_empty_path (net : reply) (st : App.state) :
  App.inputPath st = "" \/ App.outputPath st = "" ->
  App.handleProcess net st
  = App.addLog [Lit "Please select input and output directories first"]
               "error" st.
Proof.
  intros Hempty. apply empty_path_test in Hempty.
  unfold App.handleProcess. run_M. now rewrite Hempty.
Qed.

(** C8.  With an empty input or output path, [startProcessing] and App's
    [handleProcess] issue no request, leave the jobs and the timers alone,
    append exactly one log entry, of type error, and do not touch the
    processing flag: it is false on return as it was on entry. *)
Theorem empty_path_starts_nothing :
  (forall (net : reply) (st : ProcessContext.state),
     ProcessContext.inputPath st = "" \/ ProcessContext.outputPath st = "" ->
     let st' := snd (ProcessContext.startProcessing net st) in
     fst (ProcessContext.startProcessing net st) = Normal tt /\
     ProcessContext.requests st' = ProcessContext.requests st /\
     ProcessContext.jobs st' = ProcessContext.jobs st /\
     ProcessContext.timers st' = ProcessContext.timers st /\
     ProcessContext.logs st'
     = ProcessContext.logs st
       ++ [Renderer.LogEntry [Lit "Input and output paths are required"]
                             "error" (ProcessContext.now st)] /\
     ProcessContext.processing st' = ProcessContext.processing st /\
     (ProcessContext.processing st = false ->
      ProcessContext.processing st' = false)) /\
  (forall (net : reply) (st : App.state),
     App.inputPath st = "" \/ App.outputPath st = "" ->
     let st' := snd (App.handleProcess net st) in
     fst (App.handleProcess net st) = Normal tt /\
     App.requests st' = App.requests st /\
     App.logs st'
     = App.logs st
       ++ [App.LogEntry (App.now st)
             [Lit "Please select input and output directories first"]
             "error" (App.now st)] /\
     App.isProcessing st' = App.isProcessing st /\
     (App.isProcessing st = false -> App.isProcessing st' = false)).
Proof.
  split; intros net st Hempty.
  - rewrite (startProcessing_empty_path net st Hempty). simpl.
    repeat split; auto.
  - rewrite (handleProcess_empty_path net st Hempty). simpl.
    repeat split; auto.
Qed.

Lemma empty_path_starts_nothing_witness :
  let st := ProcessContext.initial 0 in
  let net := Responds (Response (Normal (VObj [("job_id", VStr "j1")]))) in
  (ProcessContext.inputPath st = "" \/ ProcessContext.outputPath st = "") /\
  ProcessContext.requests (snd (ProcessContext.startProcessing net st)) = [] /\
  ProcessContext.processing (snd (ProcessContext.startProcessing net st)) = false.
Proof.
  intros st net.
  assert (H : ProcessContext.inputPath st = "" \/ ProcessContext.outputPath st = "")
    by (left; reflexivity).
  split; [exact H|].
  pose proof (proj1 empty_path_starts_nothing net st H)
    as (_ & Hr & _ & _ & _ & _ & Hp).
  split; [exact Hr | exact (Hp eq_refl)].
Defined.

Lemma startProcessing_requests (net : reply) (st : ProcessContext.state) :
  ProcessContext.inputPath st <> "" -> ProcessContext.outputPath st <> "" ->
  ProcessContext.requests (snd (ProcessContext.startProcessing net st))
  = ProcessContext.requests st
    ++ [ {| method := "POST";
            url := [Lit "http://localhost:8000/process_directory"];
            headers := [("Content-Type", "application/json")];
            body := Some (ProcessContext.process_directory_body st) |} ].
Proof.
  intros Hi Ho. unfold ProcessContext.startProcessing. run_M.
  rewrite (filled_paths_test _ _ Hi Ho).
  unfold ProcessContext.fetch; simpl.
  destruct net as [e | [[data | e]]]; simpl; try reflexivity.
  destruct (get data Job_id) as [id | e]; simpl; try reflexivity.
  destruct (truthy id); [|reflexivity].
  rewrite template_literal_one. destruct (stringifies id); reflexivity.
Qed.

Lemma handleProcess_requests (net : reply) (st : App.state) :
  App.inputPath st <> "" -> App.outputPath st <> "" ->
  App.requests (snd (App.handleProcess net st))
  = App.requests st
    ++ [ {| method := "POST";
            url := [Lit "http://localhost:8000/process_directory"];
            headers := [("Content-Type", "application/json")];
            body := Some (App.process_directory_body st) |} ].
Proof.
  intros Hi Ho. unfold App.handleProcess. run_M.
  rewrite (filled_paths_test _ _ Hi Ho).
  unfold App.fetch; simpl.
  destruct net as [e | [[data | e]]]; simpl; try reflexivity.
  destruct (get data Job_id) as [id | e]; simpl; try reflexivity.
  destruct (truthy id); [|reflexivity].
  rewrite template_literal_one. destruct (stringifies id); reflexivity.
Qed.

(** C1, as stated, fails for App: the body [handleProcess] posts has four
    fields; output_pattern, tag_fallback and api_key are not among them. *)
Lemma handleProcess_body_lacks_fields :
  let st := {| App.inputPath := "/music/in"; App.outputPath := "/music/out";
               App.logs := []; App.isProcessing := false;
               App.apiStatus := "connected"; App.requests := [];
               App.now := 0 |} in
  let net := Responds (Response (Normal (VObj [("job_id", VStr "j1")]))) in
  exists r,
    App.requests (snd (App.handleProcess net st)) = [r] /\
    posts_to_process_directory r /\
    body_fields r = ["input_path"; "output_path"; "force_update"; "lyrics_source"] /\
    body_fields r <> interface_fields /\
    ~ In "api_key" (body_fields r).
Proof.
  simpl. eexists. split; [reflexivity|].
  split; [split; reflexivity|].
  split; [reflexivity|].
  split; [discriminate|].
  simpl. intros H. repeat (destruct H as [H | H]; [discriminate|]). exact H.
Qed.

(** C1, amended.  A call of [startProcessing] with both paths filled
    issues exactly one request, a POST to /process_directory whose body
    has the seven fields of the interface and no other; a call of App's
    [handleProcess] with both paths filled issues exactly one request, a
    POST to /process_directory whose body has the four fields input_path,
    output_path, force_update and lyrics_source and no other.  With an
    empty path neither issues any request. *)
Theorem process_directory_request_bodies :
  (forall (net : reply) (st : ProcessContext.state),
     exists issued,
       ProcessContext.requests (snd (ProcessContext.startProcessing net st))
       = ProcessContext.requests st ++ issued /\
       (forall r, In r issued ->
          posts_to_process_directory r /\ body_fields r = interface_fields) /\
       List.length issued
       = (if String.eqb (ProcessContext.inputPath st) ""
             || String.eqb (ProcessContext.outputPath st) ""
          then 0 else 1)%nat) /\
  (forall (net : reply) (st : App.state),
     exists issued,
       App.requests (snd (App.handleProcess net st))
       = App.requests st ++ issued /\
       (forall r, In r issued ->
          posts_to_process_directory r /\
          body_fields r
          = ["input_path"; "output_path"; "force_update"; "lyrics_source"]) /\
       List.length issued
       = (if String.eqb (App.inputPath st) "" || String.eqb (App.outputPath st) ""
          then 0 else 1)%nat).
Proof.
  split; intros net st.
  - destruct (String.eqb_spec (ProcessContext.inputPath st) "") as [Hi | Hi];
      [|destruct (String.eqb_spec (ProcessContext.outputPath st) "") as [Ho | Ho]].
    + exists []. rewrite app_nil_r, startProcessing_empty_path by now left.
      simpl. split; [reflexivity|]. split; [intros r []|reflexivity].
    + exists []. rewrite app_nil_r, startProcessing_empty_path by now right.
      simpl. split; [reflexivity|]. split; [intros r []|reflexivity].
    + eexists. split; [apply (startProcessing_requests net st Hi Ho)|].
      split; [|reflexivity].
      intros r [<- | []]. split; [split|]; reflexivity.
  - destruct (String.eqb_spec (App.inputPath st) "") as [Hi | Hi];
      [|destruct (String.eqb_spec (App.outputPath st) "") as [Ho | Ho]].
    + exists []. rewrite app_nil_r, handleProcess_empty_path by now left.
      simpl. split; [reflexivity|]. split; [intros r []|reflexivity].
    + exists []. rewrite app_nil_r, handleProcess_empty_path by now right.
      simpl. split; [reflexivity|]. split; [intros r []|reflexivity].
    + eexists. split; [apply (handleProcess_requests net st Hi Ho)|].
      split; [|reflexivity].
      intros r [<- | []]. split; [split|]; reflexivity.
Qed.

Lemma process_directory_request_bodies_witness :
  let st := ProcessContext.State "/music/in" "/music/out" false "{title}"
              "genius" true "key" false [] [] [] [] None 0 in
  let net := Rejects (Error "Failed to fetch") in
  exists issued,
    ProcessContext.requests (snd (ProcessContext.startProcessing net st)) = issued /\
    List.length issued = 1%nat /\
    forall r, In r issued -> body_fields r = interface_fields.
Proof.
  intros st net.
  destruct (proj1 process_directory_request_bodies net st)
    as (issued & Hreq & Hbody & Hlen).
  exists issued. split; [exact Hreq|]. split; [exact Hlen|].
  intros r Hr. exact (proj2 (Hbody r Hr)).
Defined.

(** ** The answer to POST /process_directory *)

(** C5, as stated, fails for a body whose job_id is present but falsy:
    with the empty string as job_id nothing is appended to the jobs and no
    timer is created. *)
Lemma falsy_job_id_creates_no_job :
  let st := ProcessContext.with_jobs [VObj [("job_id", VStr "j0")]]
              (ProcessContext.State "/music/in" "/music/out" false "{title}"
                 "genius" true "key" false [] [] [] [] None 0) in
  let data := VObj [("job_id", VStr "")] in
  let st' := snd (ProcessContext.startProcessing
                    (Responds (Response (Normal data))) st) in
  get data Job_id = Normal (VStr "") /\
  ProcessContext.jobs st' = ProcessContext.jobs st /\
  ProcessContext.jobs st' <> ProcessContext.jobs st ++ [data] /\
  ProcessContext.timers st' = [].
Proof.
  simpl. repeat split; try reflexivity. discriminate.
Qed.

(** C5, amended.  Once the response to POST /process_directory is decoded
    to [data]: when [data.job_id] is truthy and converts to a string,
    [data] is appended to the jobs, the entries already there staying as
    they are, a timer polling that job_id every 1000 ms is armed and the
    entry "Job created" is logged; when [data.job_id] is truthy but its
    conversion to a string throws, [data] has been appended all the same,
    no timer is armed and the TypeError is logged as an error; when
    [data.job_id] is missing or falsy (or [data] is [null]), the jobs and
    the timers are unchanged and one entry of type error follows the start
    entry in the logs.  In every case the processing flag is false on
    return and nothing is thrown. *)
Theorem job_creation_outcome (data : value) (st : ProcessContext.state) :
  ProcessContext.inputPath st <> "" -> ProcessContext.outputPath st <> "" ->
  let st' := snd (ProcessContext.startProcessing
                    (Responds (Response (Normal data))) st) in
  (forall id, get data Job_id = Normal id -> truthy id = true ->
     stringifies id = true ->
     ProcessContext.jobs st' = ProcessContext.jobs st ++ [data] /\
     ProcessContext.timers st'
     = ProcessContext.timers st ++ [Timer id 1000 true] /\
     ProcessContext.logs st'
     = ProcessContext.logs st
       ++ [started_entry st;
           Renderer.LogEntry [Lit "Job created: "; Sub id] "info"
                             (ProcessContext.now st)]) /\
  (forall id, get data Job_id = Normal id -> truthy id = true ->
     stringifies id = false ->
     ProcessContext.jobs st' = ProcessContext.jobs st ++ [data] /\
     ProcessContext.timers st' = ProcessContext.timers st /\
     ProcessContext.logs st'
     = ProcessContext.logs st
       ++ [started_entry st;
           Renderer.LogEntry
             [Lit "Error: ";
              Sub (VStr "Cannot convert object to primitive value")]
             "error" (ProcessContext.now st)]) /\
  ((forall id, get data Job_id = Normal id -> truthy id = false) ->
     ProcessContext.jobs st' = ProcessContext.jobs st /\
     ProcessContext.timers st' = ProcessContext.timers st /\
     exists entry,
       ProcessContext.logs st'
       = ProcessContext.logs st ++ [started_entry st; entry] /\
       type entry = "error") /\
  ProcessContext.processing st' = false /\
  fst (ProcessContext.startProcessing (Responds (Response (Normal data))) st)
  = Normal tt.
Proof.
  intros Hi Ho. unfold ProcessContext.startProcessing. run_M.
  rewrite (filled_paths_test _ _ Hi Ho). simpl.
  destruct (get data Job_id) as [id | e] eqn:Hid; simpl.
  - destruct (truthy id) eqn:Ht; simpl.
    + rewrite template_literal_one.
      destruct (stringifies id) eqn:Hs; simpl;
        (split; [|split; [|split; [|split; reflexivity]]]).
      * intros id' [= <-] _ _. unfold started_entry.
        rewrite <- !app_assoc. repeat split; reflexivity.
      * intros id' [= <-] _ Hs'. congruence.
      * intros Hfalsy. specialize (Hfalsy id eq_refl). congruence.
      * intros id' [= <-] _ Hs'. congruence.
      * intros id' [= <-] _ _. unfold started_entry.
        rewrite <- !app_assoc. repeat split; reflexivity.
      * intros Hfalsy. specialize (Hfalsy id eq_refl). congruence.
    + split; [|split; [|split; [|split; reflexivity]]].
      * intros id' [= <-] Ht'. congruence.
      * intros id' [= <-] Ht'. congruence.
      * intros _. repeat split; try reflexivity.
        eexists. unfold started_entry. rewrite <- !app_assoc.
        split; reflexivity.
  - split; [|split; [|split; [|split; reflexivity]]].
    + intros id' [=].
    + intros id' [=].
    + intros _. repeat split; try reflexivity.
      eexists. unfold started_entry. rewrite <- !app_assoc.
      split; reflexivity.
Qed.

Lemma job_creation_outcome_witness :
  let st := ProcessContext.State "/music/in" "/music/out" false "{title}"
              "genius" true "key" false [] [] [] [] None 0 in
  let data := VObj [("job_id", VStr "j1")] in
  (ProcessContext.inputPath st <> "" /\ ProcessContext.outputPath st <> "") /\
  ProcessContext.jobs
    (snd (ProcessContext.startProcessing
            (Responds (Response (Normal data))) st)) = [data].
Proof.
  intros st data.
  assert (Hi : ProcessContext.inputPath st <> "") by discriminate.
  assert (Ho : ProcessContext.outputPath st <> "") by discriminate.
  split; [split; assumption|].
  exact (proj1 (proj1 (job_creation_outcome data st Hi Ho)
                  (VStr "j1") eq_refl eq_refl eq_refl)).
Defined.

(** A job_id that is an object owning a [toString] that is no function:
    the job is appended, the template of "Job created" throws, no timer
    is armed and the TypeError is what the log shows. *)
Example job_id_without_string :
  let st := ProcessContext.State "/music/in" "/music/out" false "{title}"
              "genius" true "key" false [] [] [] [] None 0 in
  let data := VObj [("job_id", VObj [("toString", VNum 1)])] in
  let st' := snd (ProcessContext.startProcessing
                    (Responds (Response (Normal data))) st) in
  ProcessContext.jobs st' = [data] /\
  ProcessContext.timers st' = [] /\
  List.map type (ProcessContext.logs st') = ["info"; "error"] /\
  ProcessContext.processing st' = false.
Proof. repeat split; reflexivity. Qed.

(** ** Validating the setup *)

Lemma with_logs_same (st : ProcessContext.state) :
  ProcessContext.with_logs (ProcessContext.logs st) st = st.
Proof. now destruct st. Qed.

(** The [forEach] over the entries of [validations] logs the falsy ones,
    in order. *)
Lemma for_each_failed_checks (entries : list (string * value))
  (st : ProcessContext.state) :
  for_each
    (fun '(key, valid) =>
       if negb (truthy valid) then
         ProcessContext.addLog [Lit "Validation failed for "; Sub (VStr key)]
                               "error"
       else ret tt)
    entries st
  = (Normal tt,
     ProcessContext.with_logs
       (ProcessContext.logs st
        ++ List.map (failed_check_entry (ProcessContext.now st))
             (List.filter (fun kv => negb (truthy (snd kv))) entries))
       st).
Proof.
  revert st. induction entries as [|[key valid] entries IH]; intros st; simpl.
  - now rewrite app_nil_r, with_logs_same.
  - unfold Renderer.bind. destruct (truthy valid); simpl.
    + unfold Renderer.ret. apply IH.
    + unfold ProcessContext.addLog. rewrite IH. simpl.
      now rewrite <- app_assoc.
Qed.

(** C6, as stated, fails twice.  A body without a [valid] field is
    returned as it is, so the result has no boolean [valid]; and a body
    with [valid] false but no [validations] gets one error entry although
    no entry of [validations] is false. *)
Lemma validateSetup_result_without_boolean_valid :
  let st := ProcessContext.initial 0 in
  let unlabelled := VObj [("validations", VObj [("fpcalc", VBool false)])] in
  let bare := VObj [("valid", VBool false)] in
  (fst (ProcessContext.validateSetup (Responds (Response (Normal unlabelled))) st)
   = Normal unlabelled /\
   ~ has_boolean_valid unlabelled) /\
  (get bare Valid = Normal (VBool false) /\
   get bare Validations = Normal VUndefined /\
   List.length
     (ProcessContext.logs
        (snd (ProcessContext.validateSetup (Responds (Response (Normal bare))) st)))
   = 1%nat).
Proof.
  simpl. split; [split; [reflexivity|]|repeat split; reflexivity].
  intros (fields & b & [= <-] & Hvalid). discriminate.
Qed.

(** C6, amended.  [validateSetup] never propagates an exception.  When
    its [try] block throws (the fetch rejects, the JSON decoding throws,
    the body is [null], or [valid] is falsy while [validations] is missing
    or [null]) it returns [{ valid: false }] and appends one error entry.
    Otherwise it returns the decoded body itself: after one success entry
    when [valid] is truthy, and after one error entry for each falsy entry
    of [validations], in order, when [valid] is falsy.  So the result is
    either [{ valid: false }] or the very body the server sent. *)
Theorem validateSetup_outcome (net : reply) (st : ProcessContext.state) :
  (exists v, fst (ProcessContext.validateSetup net st) = Normal v /\
     (v = VObj [("valid", VBool false)] \/ delivers net v)) /\
  ProcessContext.requests (snd (ProcessContext.validateSetup net st))
  = ProcessContext.requests st
    ++ [ {| method := "GET";
            url := [Lit "http://localhost:8000/validate_setup?api_key=";
                    Sub (VStr (ProcessContext.apiKey st))];
            headers := []; body := None |} ] /\
  (forall e, validation_throws net e ->
     fst (ProcessContext.validateSetup net st)
     = Normal (VObj [("valid", VBool false)]) /\
     ProcessContext.logs (snd (ProcessContext.validateSetup net st))
     = ProcessContext.logs st
       ++ [validation_error_entry (ProcessContext.now st) e]) /\
  (forall data ok,
     delivers net data -> get data Valid = Normal ok -> truthy ok = true ->
     fst (ProcessContext.validateSetup net st) = Normal data /\
     ProcessContext.logs (snd (ProcessContext.validateSetup net st))
     = ProcessContext.logs st
       ++ [Renderer.LogEntry [Lit "Setup validation successful"] "success"
                             (ProcessContext.now st)]) /\
  (forall data ok checks entries,
     delivers net data -> get data Valid = Normal ok -> truthy ok = false ->
     get data Validations = Normal checks ->
     Object_entries checks = Normal entries ->
     fst (ProcessContext.validateSetup net st) = Normal data /\
     ProcessContext.logs (snd (ProcessContext.validateSetup net st))
     = ProcessContext.logs st
       ++ List.map (failed_check_entry (ProcessContext.now st))
            (List.filter (fun kv => negb (truthy (snd kv))) entries)).
Proof.
  unfold validation_throws, delivers, ProcessContext.validateSetup.
  run_M. unfold ProcessContext.fetch. simpl.
  destruct net as [e0 | [[data | e0]]]; simpl.
  - (* the fetch rejects *)
    split; [eexists; split; [reflexivity | now left]|].
    split; [reflexivity|]. split; [|split; intros; discriminate].
    intros e [[= <-] | [[=] | (data & [=] & _)]]. now split.
  - (* a body arrives *)
    destruct (get data Valid) as [ok | e1] eqn:Hok; simpl.
    + destruct (truthy ok) eqn:Ht; simpl.
      * split; [eexists; split; [reflexivity | now right]|].
        split; [reflexivity|]. split; [|split].
        -- intros e [[=] | [[=] | (d & [= <-] & [Hth | Hth])]].
           ++ congruence.
           ++ destruct Hth as (ok' & checks & Hok' & Hf & _). congruence.
        -- intros d ok' [= <-] _ _. now split.
        -- intros d ok' checks entries [= <-] Hok' Hf. congruence.
      * destruct (get data Validations) as [checks | e2] eqn:Hchecks; simpl.
        -- destruct (Object_entries checks) as [entries | e3] eqn:Hent; simpl.
           ++ rewrite for_each_failed_checks. simpl.
              split; [eexists; split; [reflexivity | now right]|].
              split; [reflexivity|]. split; [|split].
              ** intros e [[=] | [[=] | (d & [= <-] & [Hth | Hth])]].
                 --- congruence.
                 --- destruct Hth as (ok' & checks' & Hok' & _ & Hc' & He').
                     congruence.
              ** intros d ok' [= <-] Hok' Ht'. congruence.
              ** intros d ok' checks' entries' [= <-] _ _ Hc' He'.
                 assert (checks' = checks) by congruence. subst checks'.
                 assert (entries' = entries) by congruence. subst entries'.
                 now split.
           ++ split; [eexists; split; [reflexivity | now left]|].
              split; [reflexivity|]. split; [|split].
              ** intros e [[=] | [[=] | (d & [= <-] & [Hth | Hth])]].
                 --- congruence.
                 --- destruct Hth as (ok' & checks' & Hok' & _ & Hc' & He').
                     assert (checks' = checks) by congruence. subst checks'.
                     assert (e = e3) by congruence. subst e. now split.
              ** intros d ok' [= <-] Hok' Ht'. congruence.
              ** intros d ok' checks' entries' [= <-] _ _ Hc' He'. congruence.
        -- (* [data.validations] cannot throw once [data.valid] was read *)
           exfalso. destruct data; simpl in *; discriminate.
    + split; [eexists; split; [reflexivity | now left]|].
      split; [reflexivity|]. split; [|split].
      * intros e [[=] | [[=] | (d & [= <-] & [Hth | Hth])]].
        -- assert (e = e1) by congruence. subst e. now split.
        -- destruct Hth as (ok' & checks' & Hok' & _). congruence.
      * intros d ok' [= <-] Hok'. congruence.
      * intros d ok' checks entries [= <-] Hok'. congruence.
  - (* the decoding throws *)
    split; [eexists; split; [reflexivity | now left]|].
    split; [reflexivity|]. split; [|split; intros; discriminate].
    intros e [[=] | [[= <-] | (data & [=] & _)]]. now split.
Qed.

Lemma validateSetup_outcome_witness :
  let st := ProcessContext.initial 0 in
  let net := Rejects (Error "Failed to fetch") in
  validation_throws net (Error "Failed to fetch") /\
  fst (ProcessContext.validateSetup net st)
  = Normal (VObj [("valid", VBool false)]).
Proof.
  intros st net.
  assert (H : validation_throws net (Error "Failed to fetch"))
    by (left; reflexivity).
  split; [exact H|].
  exact (proj1 (proj1 (proj2 (proj2 (validateSetup_outcome net st)))
                  (Error "Failed to fetch") H)).
Defined.

(** A conforming answer with two failed checks out of three. *)
Example validateSetup_reports_failed_checks :
  let data := VObj [("valid", VBool false);
                    ("validations",
                     VObj [("fpcalc", VBool false); ("mutagen", VBool true);
                           ("acoustid", VBool false)])] in
  ProcessContext.validateSetup (Responds (Response (Normal data)))
                               (ProcessContext.initial 7)
  = (Normal data,
     ProcessContext.with_requests
       [ {| method := "GET";
            url := [Lit "http://localhost:8000/validate_setup?api_key=";
                    Sub (VStr "")];
            headers := []; body := None |} ]
       (ProcessContext.with_logs
          [Renderer.LogEntry [Lit "Validation failed for "; Sub (VStr "fpcalc")]
                             "error" 7;
           Renderer.LogEntry [Lit "Validation failed for "; Sub (VStr "acoustid")]
                             "error" 7]
          (ProcessContext.initial 7))).
Proof. reflexivity. Qed.

(** ** Polling the status of a job *)

Lemma is_string_spec (s : value) (literal : string) :
  is_string s literal = true <-> s = VStr literal.
Proof.
  destruct s; simpl; try (split; [discriminate | intros [=]]).
  rewrite String.eqb_eq. split; [now intros -> | now intros [= ->]].
Qed.

Lemma terminal_spec (s : value) :
  is_string s "completed" || is_string s "failed" = true <-> terminal s.
Proof.
  unfold terminal. rewrite orb_true_iff, !is_string_spec. reflexivity.
Qed.

(** [poll_stops] in words. *)
Lemma poll_stops_spec (net : reply) :
  poll_stops net = true <->
  fetch_throws net \/ parsing_throws net \/ reading_throws net \/
  exists s, fetched_status net s /\ terminal s.
Proof.
  unfold fetch_throws, parsing_throws, reading_throws, fetched_status, delivers.
  destruct net as [e | [[data | e]]]; simpl.
  - split; [intros _; left; now exists e | reflexivity].
  - destruct (get data Status) as [s | e] eqn:Hs.
    + rewrite terminal_spec. split.
      * intros Ht. right; right; right. exists s. split; [|exact Ht].
        exists data. now split.
      * intros [(e1 & [=]) | [(e2 & [=]) | [(d & e3 & [= <-] & He) | (s' & (d & [= <-] & Hs') & Ht)]]].
        -- congruence.
        -- congruence.
    + split; [|reflexivity]. intros _. right; right; left.
      exists data, e. now split.
  - split; [|reflexivity]. intros _. right; left. now exists e.
Qed.

Section PollingProofs.

Variable same_ref : value -> value -> bool.

(** One period of an armed timer: the request leaves, and the timer is
    cleared or left alone according to the reply. *)
Lemma tick_armed (interval : nat) (t : timer) (net : reply)
  (st : ProcessContext.state) :
  ProcessContext.timers st !! interval = Some t -> active t = true ->
  let st' := snd (ProcessContext.tick same_ref interval net st) in
  fst (ProcessContext.tick same_ref interval net st) = Normal tt /\
  ProcessContext.requests st'
  = ProcessContext.requests st ++ [status_request (polled t)] /\
  ProcessContext.timers st'
  = (if poll_stops net then cleared interval (ProcessContext.timers st)
     else ProcessContext.timers st).
Proof.
  intros Hlook Hact. unfold ProcessContext.tick. rewrite Hlook, Hact.
  unfold ProcessContext.interval_callback. run_M.
  unfold ProcessContext.fetch, ProcessContext.setJobs. simpl.
  destruct net as [e | [[data | e]]]; simpl; [now repeat split | | now repeat split].
  destruct (ProcessContext.merge_status same_ref (polled t) data
              (ProcessContext.jobs st)) as [next | e0]; simpl;
    (destruct (get data Status) as [s | e]; simpl; [|now repeat split]);
    destruct (is_string s "completed" || is_string s "failed"); simpl;
    now repeat split.
Qed.

(** A timer that is cleared, or was never created, does nothing. *)
Lemma tick_unarmed (interval : nat) (net : reply) (st : ProcessContext.state) :
  ~ armed interval st ->
  ProcessContext.tick same_ref interval net st = (Normal tt, st).
Proof.
  intros Hna. unfold ProcessContext.tick.
  destruct (ProcessContext.timers st !! interval) as [t|] eqn:Hlook; [|reflexivity].
  destruct (active t) eqn:Hact; [|reflexivity].
  destruct Hna. now exists t.
Qed.

Lemma cleared_not_armed (interval : nat) (t : timer) (l : list timer)
  (st' : ProcessContext.state) :
  l !! interval = Some t ->
  ProcessContext.timers st' = cleared interval l ->
  ~ armed interval st'.
Proof.
  intros Hlook Heq (t' & Hlook' & Hact').
  rewrite Heq in Hlook'. unfold cleared in Hlook'.
  rewrite list_lookup_alter_eq, Hlook in Hlook'. simpl in Hlook'.
  injection Hlook' as <-. discriminate.
Qed.

(** Replies with a status that is not terminal keep the timer armed, one
    request per period. *)
Lemma ticks_keep_polling (interval : nat) (t : timer) (nets : list reply)
  (st : ProcessContext.state) :
  ProcessContext.timers st !! interval = Some t -> active t = true ->
  Forall (fun net => exists s, fetched_status net s /\ ~ terminal s) nets ->
  ProcessContext.timers (ProcessContext.ticks same_ref interval nets st)
  = ProcessContext.timers st /\
  ProcessContext.requests (ProcessContext.ticks same_ref interval nets st)
  = ProcessContext.requests st
    ++ repeat (status_request (polled t)) (List.length nets).
Proof.
  intros Hlook Hact Hnets. revert st Hlook.
  induction Hnets as [|net nets (s & Hs & Hnt) _ IH]; intros st Hlook; simpl.
  - now rewrite app_nil_r.
  - destruct (tick_armed interval t net st Hlook Hact) as (_ & Hreq & Htim).
    assert (Hgo : poll_stops net = false).
    { destruct (poll_stops net) eqn:Hstop; [|reflexivity].
      destruct Hs as (data & Hd & Hs). unfold delivers in Hd. subst net.
      simpl in Hstop. rewrite Hs in Hstop.
      apply terminal_spec in Hstop. now destruct Hnt. }
    rewrite Hgo in Htim.
    destruct (IH (snd (ProcessContext.tick same_ref interval net st)))
      as (IHt & IHr); [now rewrite Htim|].
    rewrite IHt, IHr, Htim, Hreq, <- app_assoc. now split.
Qed.

(** C3, amended.  [pollJobStatus] arms a timer of period 1000 ms for the
    job.  Each period of an armed timer issues one GET /status/{job_id}.
    The timer is cleared exactly when that poll throws (the fetch rejects,
    the JSON decoding of the response throws, or the body is [null] so
    that reading its status throws) or the fetched status is completed or
    failed; otherwise the timers are as before.  A cleared timer issues
    nothing.  Any run of replies whose status is not terminal, pending and
    processing among them, leaves the timer armed with one request per
    period. *)
Theorem poll_loop_lifecycle :
  (forall (jobId : value) (st : ProcessContext.state),
     ProcessContext.timers (snd (ProcessContext.pollJobStatus jobId st))
     = ProcessContext.timers st ++ [Timer jobId 1000 true] /\
     ProcessContext.requests (snd (ProcessContext.pollJobStatus jobId st))
     = ProcessContext.requests st) /\
  (forall (interval : nat) (t : timer) (net : reply) (st : ProcessContext.state),
     ProcessContext.timers st !! interval = Some t -> active t = true ->
     let st' := snd (ProcessContext.tick same_ref interval net st) in
     ProcessContext.requests st'
     = ProcessContext.requests st ++ [status_request (polled t)] /\
     (~ armed interval st' <->
      fetch_throws net \/ parsing_throws net \/ reading_throws net \/
      exists s, fetched_status net s /\ terminal s) /\
     (armed interval st' ->
      ProcessContext.timers st' = ProcessContext.timers st)) /\
  (forall (interval : nat) (net : reply) (st : ProcessContext.state),
     ~ armed interval st ->
     ProcessContext.tick same_ref interval net st = (Normal tt, st)) /\
  (forall (interval : nat) (t : timer) (nets : list reply)
          (st : ProcessContext.state),
     ProcessContext.timers st !! interval = Some t -> active t = true ->
     Forall (fun net =>
               fetched_status net (VStr "pending") \/
               fetched_status net (VStr "processing") \/
               exists s, fetched_status net s /\ ~ terminal s) nets ->
     armed interval (ProcessContext.ticks same_ref interval nets st) /\
     ProcessContext.requests (ProcessContext.ticks same_ref interval nets st)
     = ProcessContext.requests st
       ++ repeat (status_request (polled t)) (List.length nets)).
Proof.
  split; [|split; [|split]].
  - intros jobId st. now split.
  - intros interval t net st Hlook Hact st'.
    destruct (tick_armed interval t net st Hlook Hact) as (_ & Hreq & Htim).
    fold st' in Hreq, Htim.
    split; [exact Hreq|]. rewrite <- poll_stops_spec.
    destruct (poll_stops net).
    + split; [split; [reflexivity|]|].
      * intros _. exact (cleared_not_armed interval t _ st' Hlook Htim).
      * intros Harmed.
        now destruct (cleared_not_armed interval t _ st' Hlook Htim).
    + split; [split; [|discriminate]|intros _; exact Htim].
      intros Hna. destruct Hna. exists t. now rewrite Htim.
  - apply tick_unarmed.
  - intros interval t nets st Hlook Hact Hnets.
    destruct (ticks_keep_polling interval t nets st Hlook Hact) as (Htim & Hreq).
    { eapply List.Forall_impl; [|exact Hnets]. simpl.
      intros net [Hp | [Hp | Hs]]; [| |exact Hs].
      - exists (VStr "pending"). split; [exact Hp|].
        intros [[=] | [=]].
      - exists (VStr "processing"). split; [exact Hp|].
        intros [[=] | [=]]. }
    split; [|exact Hreq]. exists t. now rewrite Htim.
Qed.

End PollingProofs.

(** C3, as stated, fails: the loop also stops when the fetch succeeds but
    the JSON decoding of the response throws, and when the body decodes to
    [null]; in neither case does the fetch throw or is there a fetched
    status. *)
Lemma poll_stops_without_fetch_throwing :
  let st := ProcessContext.with_timers [Timer (VStr "j1") 1000 true]
              (ProcessContext.initial 0) in
  let garbled :=
    Responds (Response (Throw (Error "Unexpected token I in JSON at position 0"))) in
  let empty := Responds (Response (Normal VNull)) in
  armed 0 st /\
  (~ fetch_throws garbled /\ (forall s, ~ fetched_status garbled s) /\
   ~ armed 0 (snd (ProcessContext.tick (fun _ _ => false) 0 garbled st))) /\
  (~ fetch_throws empty /\ (forall s, ~ fetched_status empty s) /\
   ~ armed 0 (snd (ProcessContext.tick (fun _ _ => false) 0 empty st))).
Proof.
  simpl. split; [eexists; split; reflexivity|]. split; repeat split.
  - intros (e & [=]).
  - intros s (data & [=] & _).
  - intros (t & [= <-] & [=]).
  - intros (e & [=]).
  - intros s (data & [= <-] & [=]).
  - intros (t & [= <-] & [=]).
Qed.

Lemma poll_loop_lifecycle_witness :
  let st := ProcessContext.with_timers [Timer (VStr "j1") 1000 true]
              (ProcessContext.initial 0) in
  let done := Responds (Response (Normal (VObj [("status", VStr "completed")]))) in
  (ProcessContext.timers st !! 0%nat = Some (Timer (VStr "j1") 1000 true) /\
   active (Timer (VStr "j1") 1000 true) = true) /\
  ~ armed 0 (snd (ProcessContext.tick (fun _ _ => false) 0 done st)).
Proof.
  intros st done.
  assert (Hlook : ProcessContext.timers st !! 0%nat
                  = Some (Timer (VStr "j1") 1000 true)) by reflexivity.
  assert (Hact : active (Timer (VStr "j1") 1000 true) = true) by reflexivity.
  split; [split; assumption|].
  apply (proj1 (proj2 (poll_loop_lifecycle (fun _ _ => false)))
           0%nat _ done st Hlook Hact).
  right; right; right. exists (VStr "completed"). split.
  - exists (VObj [("status", VStr "completed")]). split; reflexivity.
  - left. reflexivity.
Defined.

(** ** Merging a poll into the jobs *)

Section MergeProofs.

Variable same_ref : value -> value -> bool.

(** The updater keeps the length and rewrites entry by entry. *)
Lemma merge_status_entries (jobId data : value) (prev next : list value) :
  ProcessContext.merge_status same_ref jobId data prev = Normal next ->
  List.length next = List.length prev /\
  forall (i : nat) (job : value),
    prev !! i = Some job ->
    exists id,
      get job Job_id = Normal id /\
      next !! i = Some (if strict_eq same_ref id jobId
                        then spread job data else job).
Proof.
  unfold ProcessContext.merge_status. revert next.
  induction prev as [|job0 prev IH]; intros next; simpl.
  - intros [= <-]. split; [reflexivity|]. intros i job [=].
  - destruct (get job0 Job_id) as [id0 | e0] eqn:Hid0; simpl; [|discriminate].
    destruct (map_throwing _ prev) as [rest | e1]; simpl; [|discriminate].
    intros [= <-]. destruct (IH rest eq_refl) as (Hlen & Hentries).
    split; [simpl; now rewrite Hlen|].
    intros [|i] job; simpl.
    + intros [= <-]. now exists id0.
    + apply Hentries.
Qed.

(** On a list of objects the updater does not throw. *)
Lemma merge_status_total (jobId data : value) (prev : list value) :
  Forall is_object prev ->
  exists next, ProcessContext.merge_status same_ref jobId data prev = Normal next.
Proof.
  unfold ProcessContext.merge_status.
  induction 1 as [|job prev (fields & ->) _ (next & IH)]; simpl.
  - now eexists.
  - rewrite IH. simpl. now eexists.
Qed.

(** What a period makes of the jobs: nothing, or the updater's result. *)
Lemma tick_jobs (interval : nat) (net : reply) (st : ProcessContext.state) :
  let st' := snd (ProcessContext.tick same_ref interval net st) in
  ProcessContext.jobs st' = ProcessContext.jobs st \/
  exists t data,
    ProcessContext.timers st !! interval = Some t /\ delivers net data /\
    ProcessContext.merge_status same_ref (polled t) data (ProcessContext.jobs st)
    = Normal (ProcessContext.jobs st').
Proof.
  unfold ProcessContext.tick.
  destruct (ProcessContext.timers st !! interval) as [t|] eqn:Hlook;
    [|now left].
  destruct (active t); [|now left].
  unfold ProcessContext.interval_callback. run_M.
  unfold ProcessContext.fetch, ProcessContext.setJobs, delivers. simpl.
  destruct net as [e | [[data | e]]]; simpl; [now left | | now left].
  destruct (ProcessContext.merge_status same_ref (polled t) data
              (ProcessContext.jobs st)) as [next | e0] eqn:Hmerge; simpl.
  - right. exists t, data.
    destruct (get data Status) as [s | e]; simpl;
      [destruct (is_string s "completed" || is_string s "failed"); simpl|];
      now repeat split.
  - left.
    destruct (get data Status) as [s | e]; simpl;
      [destruct (is_string s "completed" || is_string s "failed"); simpl|];
      reflexivity.
Qed.

(** On jobs that are objects, as [startProcessing] and the merges make
    them, the merge does happen: every entry for J is replaced. *)
Lemma poll_merge_updates_job (interval : nat) (t : timer) (data : value)
  (st : ProcessContext.state) :
  ProcessContext.timers st !! interval = Some t -> active t = true ->
  Forall is_object (ProcessContext.jobs st) ->
  let st' := snd (ProcessContext.tick same_ref interval
                    (Responds (Response (Normal data))) st) in
  forall (i : nat) (job : value),
    ProcessContext.jobs st !! i = Some job ->
    exists id,
      get job Job_id = Normal id /\
      ProcessContext.jobs st' !! i
      = Some (if strict_eq same_ref id (polled t) then spread job data else job).
Proof.
  intros Hlook Hact Hobj st' i job Hjob.
  destruct (merge_status_total (polled t) data _ Hobj) as (next & Hm).
  destruct (merge_status_entries _ _ _ _ Hm) as (_ & Hentries).
  destruct (Hentries i job Hjob) as (id & Hid & Hnext).
  exists id. split; [exact Hid|].
  assert (Hjobs : ProcessContext.jobs st' = next).
  { subst st'. unfold ProcessContext.tick. rewrite Hlook, Hact.
    unfold ProcessContext.interval_callback. run_M.
    unfold ProcessContext.fetch, ProcessContext.setJobs. simpl.
    rewrite Hm. simpl.
    destruct (get data Status) as [s | e]; simpl;
      [destruct (is_string s "completed" || is_string s "failed"); simpl|];
      reflexivity. }
  now rewrite Hjobs.
Qed.

(** C4.  When the timer polling job J comes due, whatever the reply, the
    jobs list keeps its length, every entry whose job_id is not strictly
    equal to J stays in place with the same fields, and an entry that does
    change is one whose job_id is strictly equal to J, replaced by its
    merge with the polled body.  And the entry for J is updated: when the
    timer is armed, J has a string (as the job id of every timer
    [startProcessing] creates) and the reply decodes to a body, every
    entry of the jobs (objects, as [startProcessing] and the merges make
    them) whose job_id is strictly equal to J is replaced by its merge
    with that body, each other entry staying what it was. *)
Theorem poll_merge_leaves_other_jobs (interval : nat) (t : timer)
  (net : reply) (st : ProcessContext.state) :
  ProcessContext.timers st !! interval = Some t ->
  let st' := snd (ProcessContext.tick same_ref interval net st) in
  List.length (ProcessContext.jobs st') = List.length (ProcessContext.jobs st) /\
  (forall (i : nat) (job : value),
     ProcessContext.jobs st !! i = Some job ->
     (forall id, get job Job_id = Normal id ->
                 strict_eq same_ref id (polled t) = false ->
                 ProcessContext.jobs st' !! i = Some job) /\
     (ProcessContext.jobs st' !! i = Some job \/
      exists id data,
        delivers net data /\ get job Job_id = Normal id /\
        strict_eq same_ref id (polled t) = true /\
        ProcessContext.jobs st' !! i = Some (spread job data))) /\
  (forall data : value,
     active t = true -> stringifies (polled t) = true ->
     delivers net data ->
     Forall is_object (ProcessContext.jobs st) ->
     forall (i : nat) (job : value),
       ProcessContext.jobs st !! i = Some job ->
       exists id,
         get job Job_id = Normal id /\
         ProcessContext.jobs st' !! i
         = Some (if strict_eq same_ref id (polled t)
                 then spread job data else job)).
Proof.
  intros Hlook st'. split; [|split].
  - destruct (tick_jobs interval net st)
      as [Hsame | (t' & data & Hlook' & Hd & Hm)];
      fold st' in Hsame || fold st' in Hm.
    + now rewrite Hsame.
    + exact (proj1 (merge_status_entries _ _ _ _ Hm)).
  - intros i job Hjob.
    destruct (tick_jobs interval net st)
      as [Hsame | (t' & data & Hlook' & Hd & Hm)];
      fold st' in Hsame || fold st' in Hm.
    + rewrite Hsame. split; auto.
    + assert (t' = t) by congruence. subst t'.
      destruct (merge_status_entries _ _ _ _ Hm) as (_ & Hentries).
      destruct (Hentries i job Hjob) as (id & Hid & Hnext).
      split.
      * intros id' Hid' Hdiff. assert (id' = id) by congruence. subst id'.
        now rewrite Hdiff in Hnext.
      * destruct (strict_eq same_ref id (polled t)) eqn:Heq.
        -- right. exists id, data. now repeat split.
        -- now left.
  - intros data Hact _ Hd Hobj i job Hjob. unfold delivers in Hd. subst net.
    exact (poll_merge_updates_job interval t data st Hlook Hact Hobj i job Hjob).
Qed.

(** The jobs stay objects: a poll replaces an entry by a fresh object or
    keeps it. *)
Lemma tick_keeps_objects (interval : nat) (net : reply)
  (st : ProcessContext.state) :
  Forall is_object (ProcessContext.jobs st) ->
  Forall is_object
    (ProcessContext.jobs (snd (ProcessContext.tick same_ref interval net st))).
Proof.
  intros Hobj.
  destruct (tick_jobs interval net st) as [-> | (t & data & _ & _ & Hm)];
    [exact Hobj|].
  destruct (merge_status_entries _ _ _ _ Hm) as (Hlen & Hentries).
  apply Forall_lookup. intros i job' Hjob'.
  destruct (ProcessContext.jobs st !! i) as [job|] eqn:Hjob.
  - destruct (Hentries i job Hjob) as (id & _ & Hnext).
    rewrite Hnext in Hjob'. injection Hjob' as <-.
    destruct (strict_eq same_ref id (polled t)).
    + unfold spread. now eexists.
    + exact (proj1 (Forall_lookup _ _) Hobj i job Hjob).
  - apply lookup_lt_Some in Hjob'. apply lookup_ge_None in Hjob. lia.
Qed.

End MergeProofs.

(** A body with a truthy [job_id] is an object. *)
Lemma truthy_job_id_object (data id : value) :
  get data Job_id = Normal id -> truthy id = true -> is_object data.
Proof.
  destruct data; simpl; intros [= <-]; try discriminate. now eexists.
Qed.

(** The jobs stay objects: [startProcessing] appends an object or
    nothing. *)
Lemma startProcessing_keeps_objects (net : reply) (st : ProcessContext.state) :
  Forall is_object (ProcessContext.jobs st) ->
  Forall is_object
    (ProcessContext.jobs (snd (ProcessContext.startProcessing net st))).
Proof.
  intros Hobj. unfold ProcessContext.startProcessing. run_M.
  destruct (String.eqb (ProcessContext.inputPath st) ""
            || String.eqb (ProcessContext.outputPath st) ""); simpl;
    [exact Hobj|].
  destruct net as [e | [[data | e]]]; simpl; try exact Hobj.
  destruct (get data Job_id) as [id | e] eqn:Hid; simpl; [|exact Hobj].
  destruct (truthy id) eqn:Ht; simpl; [|exact Hobj].
  rewrite template_literal_one. destruct (stringifies id); simpl;
    (apply Forall_app; split; [exact Hobj|]);
    (constructor; [|constructor]);
    exact (truthy_job_id_object data id Hid Ht).
Qed.

Lemma poll_merge_leaves_other_jobs_witness :
  let other := VObj [("job_id", VStr "j0"); ("status", VStr "pending")] in
  let mine := VObj [("job_id", VStr "j1")] in
  let data := VObj [("job_id", VStr "j1"); ("status", VStr "processing");
                    ("progress", VNum (1 # 2))] in
  let st := ProcessContext.with_jobs [other; mine]
              (ProcessContext.with_timers [Timer (VStr "j1") 1000 true]
                 (ProcessContext.initial 0)) in
  let net := Responds (Response (Normal data)) in
  ProcessContext.timers st !! 0%nat = Some (Timer (VStr "j1") 1000 true) /\
  ProcessContext.jobs (snd (ProcessContext.tick (fun _ _ => false) 0 net st))
    !! 0%nat = Some other /\
  exists id,
    get mine Job_id = Normal id /\
    ProcessContext.jobs (snd (ProcessContext.tick (fun _ _ => false) 0 net st))
      !! 1%nat
    = Some (if strict_eq (fun _ _ => false) id (VStr "j1")
            then spread mine data else mine).
Proof.
  intros other mine data st net.
  assert (Hlook : ProcessContext.timers st !! 0%nat
                  = Some (Timer (VStr "j1") 1000 true)) by reflexivity.
  assert (Hobj : Forall is_object (ProcessContext.jobs st)).
  { repeat constructor; now eexists. }
  split; [exact Hlook|]. split.
  - exact (proj1 (proj1 (proj2 (poll_merge_leaves_other_jobs (fun _ _ => false)
                                  0%nat _ net st Hlook))
                    0%nat other eq_refl)
             (VStr "j0") eq_refl eq_refl).
  - exact (proj2 (proj2 (poll_merge_leaves_other_jobs (fun _ _ => false)
                           0%nat _ net st Hlook))
             data eq_refl eq_refl eq_refl Hobj 1%nat mine eq_refl).
Defined.

(** The same poll does update the entry of its own job. *)
Example poll_merge_updates_own_job :
  let st := ProcessContext.with_jobs
              [VObj [("job_id", VStr "j0"); ("status", VStr "pending")];
               VObj [("job_id", VStr "j1")]]
              (ProcessContext.with_timers [Timer (VStr "j1") 1000 true]
                 (ProcessContext.initial 0)) in
  let net := Responds (Response (Normal
               (VObj [("job_id", VStr "j1"); ("status", VStr "processing")]))) in
  ProcessContext.jobs (snd (ProcessContext.tick (fun _ _ => false) 0 net st))
  = [VObj [("job_id", VStr "j0"); ("status", VStr "pending")];
     VObj [("job_id", VStr "j1"); ("status", VStr "processing")]].
Proof. reflexivity. Qed.

(** A job from start to completion: the POST answers with a job_id, the
    first poll finds the job processing, the second finds it completed
    and clears the timer, a third period does nothing. *)
Example job_runs_to_completion :
  let sr := fun _ _ : value => false in
  let st0 := ProcessContext.State "/music/in" "/music/out" false "{title}"
               "genius" true "key" false [] [] [] [] None 0 in
  let created := Responds (Response (Normal (VObj [("job_id", VStr "j1")]))) in
  let processing_ := Responds (Response (Normal
        (VObj [("job_id", VStr "j1"); ("status", VStr "processing");
               ("progress", VNum (1 # 2))]))) in
  let completed := Responds (Response (Normal
        (VObj [("job_id", VStr "j1"); ("status", VStr "completed");
               ("progress", VNum 1)]))) in
  let st1 := snd (ProcessContext.startProcessing created st0) in
  let st2 := ProcessContext.ticks sr 0 [processing_; completed; processing_] st1 in
  ProcessContext.jobs st2
  = [VObj [("job_id", VStr "j1"); ("status", VStr "completed");
           ("progress", VNum 1)]] /\
  ProcessContext.timers st2 = [Timer (VStr "j1") 1000 false] /\
  List.map method (ProcessContext.requests st2) = ["POST"; "GET"; "GET"] /\
  List.map type (ProcessContext.logs st2) = ["info"; "info"; "success"] /\
  ProcessContext.processing st2 = false.
Proof. repeat split; reflexivity. Qed.

(** ** Showing progress *)

(** *** Rounding to the nearest double *)

Section NumberProofs.

Import Number.
Local Open Scope Q_scope.


Lemma pow2_pos (e : Z) : 0 < pow2 e.
Proof. apply Qpower_0_lt. reflexivity. Qed.

Lemma pow2_add (a b : Z) : pow2 (a + b) == pow2 a * pow2 b.
Proof. apply Qpower_plus. discriminate. Qed.

Lemma pow2_le (a b : Z) : (a <= b)%Z -> pow2 a <= pow2 b.
Proof. intros H. apply Qpower_le_compat_l; [exact H | discriminate]. Qed.

Lemma pow2_lt (a b : Z) : (a < b)%Z -> pow2 a < pow2 b.
Proof. intros H. apply Qpower_lt_compat_l; [exact H | reflexivity]. Qed.

Lemma pow2_lt_inv (a b : Z) : pow2 a < pow2 b -> (a < b)%Z.
Proof. intros H. eapply Qpower_lt_compat_l_inv; [exact H | reflexivity]. Qed.

Lemma pow2_Z (k : Z) : (0 <= k)%Z -> pow2 k == inject_Z (2 ^ k).
Proof. intros H. unfold pow2. now rewrite Zpower_Qpower. Qed.

Lemma pow2_split (a b : Z) :
  (b <= a)%Z -> pow2 a == inject_Z (2 ^ (a - b)) * pow2 b.
Proof.
  intros H. rewrite <- pow2_Z by lia. rewrite <- pow2_add.
  now replace (a - b + b)%Z with a by lia.
Qed.

Lemma ilog2_spec (x : Q) :
  0 < x -> pow2 (ilog2 x) <= x /\ x < pow2 (ilog2 x + 1).
Proof.
  intros Hx. destruct x as [n d].
  assert (Hn : (0 < n)%Z) by (unfold Qlt in Hx; simpl in Hx; lia).
  unfold ilog2. cbn [Qnum Qden].
  set (a := Z.log2 n). set (b := Z.log2 (Zpos d)).
  destruct (Z.log2_spec n Hn) as (Ha1 & Ha2). fold a in Ha1, Ha2.
  destruct (Z.log2_spec (Zpos d) eq_refl) as (Hb1 & Hb2). fold b in Hb1, Hb2.
  pose proof (Z.log2_nonneg n) as Ha0. fold a in Ha0.
  pose proof (Z.log2_nonneg (Zpos d)) as Hb0. fold b in Hb0.
  assert (Hxd : (n # d) * inject_Z (Zpos d) == inject_Z n).
  { unfold Qeq, Qmult, inject_Z; simpl. lia. }
  assert (A1 : pow2 a <= inject_Z n) by (rewrite pow2_Z, <- Zle_Qle; lia).
  assert (A2 : inject_Z n < pow2 (a + 1)).
  { rewrite pow2_Z, <- Zlt_Qlt by lia. now rewrite Z.add_1_r. }
  assert (B1 : pow2 b <= inject_Z (Zpos d)) by (rewrite pow2_Z, <- Zle_Qle; lia).
  assert (B2 : inject_Z (Zpos d) < pow2 (b + 1)).
  { rewrite pow2_Z, <- Zlt_Qlt by lia. now rewrite Z.add_1_r. }
  assert (U : n # d < pow2 (a - b + 1)).
  { apply Qmult_lt_r with (z := pow2 b); [apply pow2_pos|].
    rewrite <- pow2_add. replace (a - b + 1 + b)%Z with (a + 1)%Z by lia.
    pose proof (pow2_pos b). nra. }
  assert (L : pow2 (a - b - 1) < n # d).
  { apply Qmult_lt_r with (z := pow2 (b + 1)); [apply pow2_pos|].
    rewrite <- pow2_add. replace (a - b - 1 + (b + 1))%Z with a by lia.
    nra. }
  destruct (Qle_bool (pow2 (a - b)) (n # d)) eqn:Hc.
  - apply Qle_bool_iff in Hc. split; [exact Hc | exact U].
  - assert (Hlt : n # d < pow2 (a - b)).
    { apply Qnot_le_lt. intros H. apply Qle_bool_iff in H. congruence. }
    split; [apply Qlt_le_weak; exact L|].
    now replace (a - b - 1 + 1)%Z with (a - b)%Z by lia.
Qed.

Lemma ilog2_lt (x : Q) (k : Z) : 0 < x -> x < pow2 k -> (ilog2 x < k)%Z.
Proof.
  intros Hx Hk. apply pow2_lt_inv.
  eapply Qle_lt_trans; [exact (proj1 (ilog2_spec x Hx)) | exact Hk].
Qed.

Lemma ilog2_ge (x : Q) (k : Z) : 0 < x -> pow2 k <= x -> (k <= ilog2 x)%Z.
Proof.
  intros Hx Hk.
  assert (H : (k < ilog2 x + 1)%Z); [|lia].
  apply pow2_lt_inv.
  eapply Qle_lt_trans; [exact Hk | exact (proj2 (ilog2_spec x Hx))].
Qed.

Lemma ilog2_monotone (x y : Q) : 0 < x -> x <= y -> (ilog2 x <= ilog2 y)%Z.
Proof.
  intros Hx Hxy. apply ilog2_ge; [lra|].
  eapply Qle_trans; [exact (proj1 (ilog2_spec x Hx)) | exact Hxy].
Qed.

Lemma round_half_even_cases (y : Q) :
  let f := Qfloor y in
  (round_half_even y = f /\ y - inject_Z f <= 1 # 2) \/
  (round_half_even y = (f + 1)%Z /\ 1 # 2 <= y - inject_Z f).
Proof.
  intros f. unfold round_half_even. fold f.
  destruct (Qcompare_spec (y - inject_Z f) (1 # 2)) as [H | H | H].
  - destruct (Z.even f); [left | right]; split; try reflexivity; lra.
  - left. split; [reflexivity | lra].
  - right. split; [reflexivity | lra].
Qed.

Lemma Qfloor_bounds (y : Q) :
  inject_Z (Qfloor y) <= y /\ y < inject_Z (Qfloor y) + 1.
Proof.
  split; [apply Qfloor_le|].
  pose proof (Qlt_floor y) as H. rewrite inject_Z_plus in H. exact H.
Qed.

Lemma round_half_even_near (y : Q) :
  y - (1 # 2) <= inject_Z (round_half_even y) /\
  inject_Z (round_half_even y) <= y + (1 # 2).
Proof.
  destruct (Qfloor_bounds y) as (Hl & Hu).
  destruct (round_half_even_cases y) as [(-> & H) | (-> & H)];
    rewrite ?inject_Z_plus; change (inject_Z 1) with 1; lra.
Qed.

Lemma round_half_even_ge (y : Q) (N : Z) :
  inject_Z N <= y -> (N <= round_half_even y)%Z.
Proof.
  intros H. apply Qfloor_resp_le in H. rewrite Qfloor_Z in H.
  destruct (round_half_even_cases y) as [(-> & _) | (-> & _)]; lia.
Qed.

Lemma round_half_even_le (y : Q) (N : Z) :
  y <= inject_Z N -> (round_half_even y <= N)%Z.
Proof.
  intros H. destruct (Qfloor_bounds y) as (Hl & Hu).
  pose proof (Qfloor_resp_le _ _ H) as Hf. rewrite Qfloor_Z in Hf.
  destruct (round_half_even_cases y) as [(-> & _) | (-> & Hhalf)]; [exact Hf|].
  destruct (Z.eq_dec (Qfloor y) N) as [Heq | Hne]; [|lia].
  rewrite Heq in Hhalf. lra.
Qed.

Lemma round_half_even_monotone (x y : Q) :
  x <= y -> (round_half_even x <= round_half_even y)%Z.
Proof.
  intros Hxy. pose proof (Qfloor_resp_le _ _ Hxy) as Hf.
  destruct (Z.eq_dec (Qfloor x) (Qfloor y)) as [Heq | Hne].
  - unfold round_half_even. rewrite <- Heq.
    destruct (Qcompare_spec (x - inject_Z (Qfloor x)) (1 # 2)) as [Hx | Hx | Hx];
      destruct (Qcompare_spec (y - inject_Z (Qfloor x)) (1 # 2)) as [Hy | Hy | Hy];
      try destruct (Z.even (Qfloor x)); try lia; lra.
  - apply Z.le_trans with (Qfloor y).
    + destruct (round_half_even_cases x) as [(-> & _) | (-> & _)]; lia.
    + apply round_half_even_ge, Qfloor_le.
Qed.

Lemma ulp_pos (x : Q) : 0 < ulp x.
Proof. apply pow2_pos. Qed.

Lemma nearest_le_multiple (x : Q) (N : Z) :
  x <= inject_Z N * ulp x -> nearest x <= inject_Z N * ulp x.
Proof.
  intros H. unfold nearest.
  apply Qmult_le_compat_r; [|apply Qlt_le_weak, ulp_pos].
  rewrite <- Zle_Qle. apply round_half_even_le.
  apply Qle_shift_div_r; [apply ulp_pos | exact H].
Qed.

Lemma nearest_ge_multiple (x : Q) (N : Z) :
  inject_Z N * ulp x <= x -> inject_Z N * ulp x <= nearest x.
Proof.
  intros H. unfold nearest.
  apply Qmult_le_compat_r; [|apply Qlt_le_weak, ulp_pos].
  rewrite <- Zle_Qle. apply round_half_even_ge.
  apply Qle_shift_div_l; [apply ulp_pos | exact H].
Qed.

Lemma nearest_le_pow2 (x : Q) (t : Z) :
  (exponent x <= t)%Z -> x <= pow2 t -> nearest x <= pow2 t.
Proof.
  intros Ht Hx. unfold ulp in *.
  rewrite (pow2_split t (exponent x) Ht) in *.
  now apply nearest_le_multiple.
Qed.

Lemma nearest_ge_pow2 (x : Q) (t : Z) :
  (exponent x <= t)%Z -> pow2 t <= x -> pow2 t <= nearest x.
Proof.
  intros Ht Hx. unfold ulp in *.
  rewrite (pow2_split t (exponent x) Ht) in *.
  now apply nearest_ge_multiple.
Qed.

Lemma nearest_nonneg (x : Q) : 0 <= x -> 0 <= nearest x.
Proof.
  intros H. apply Qle_trans with (inject_Z 0 * ulp x).
  - change (inject_Z 0) with 0. lra.
  - apply nearest_ge_multiple. change (inject_Z 0) with 0. lra.
Qed.

Lemma nearest_error (x : Q) :
  x - ulp x * (1 # 2) <= nearest x /\ nearest x <= x + ulp x * (1 # 2).
Proof.
  pose proof (ulp_pos x) as Hu.
  destruct (round_half_even_near (x / ulp x)) as (Hl & Hh).
  assert (Hx : x == x / ulp x * ulp x) by (field; lra).
  unfold nearest. set (r := inject_Z (round_half_even (x / ulp x))) in *.
  set (q := x / ulp x) in *. set (u := ulp x) in *. clearbody r q u.
  split; nra.
Qed.

Lemma nearest_monotone (x y : Q) :
  0 < x -> x <= y -> nearest x <= nearest y.
Proof.
  intros Hx Hxy. assert (Hy : 0 < y) by lra.
  pose proof (ilog2_monotone x y Hx Hxy) as Hlog.
  destruct (ilog2_spec x Hx) as (Hx1 & Hx2).
  destruct (ilog2_spec y Hy) as (Hy1 & Hy2).
  destruct (Z.eq_dec (exponent x) (exponent y)) as [Heq | Hne].
  - unfold nearest, ulp. rewrite Heq.
    apply Qmult_le_compat_r; [|apply Qlt_le_weak, pow2_pos].
    rewrite <- Zle_Qle. apply round_half_even_monotone.
    apply Qmult_le_compat_r; [exact Hxy|].
    apply Qlt_le_weak, Qinv_lt_0_compat, pow2_pos.
  - assert (Hexp : (exponent x < exponent y)%Z)
      by (unfold exponent in *; lia).
    apply Qle_trans with (pow2 (ilog2 y)).
    + apply nearest_le_pow2; [unfold exponent in *; lia|].
      apply Qle_trans with (pow2 (ilog2 x + 1));
        [apply Qlt_le_weak; exact Hx2|].
      apply pow2_le. unfold exponent in *. lia.
    + apply nearest_ge_pow2; [unfold exponent in *; lia | exact Hy1].
Qed.

Lemma round_to_double_monotone (x y : Q) :
  x <= y -> round_to_double x <= round_to_double y.
Proof.
  intros Hxy. unfold round_to_double.
  destruct (Qcompare_spec x 0) as [Hx | Hx | Hx];
    destruct (Qcompare_spec y 0) as [Hy | Hy | Hy]; try lra.
  - apply nearest_nonneg. lra.
  - pose proof (nearest_nonneg (- x)). lra.
  - pose proof (nearest_monotone (- y) (- x)). lra.
  - pose proof (nearest_nonneg (- x)). pose proof (nearest_nonneg y). lra.
  - apply nearest_monotone; lra.
Qed.

Lemma round_to_double_sign (x : Q) :
  (0 <= x -> 0 <= round_to_double x) /\ (x <= 0 -> round_to_double x <= 0).
Proof.
  unfold round_to_double.
  destruct (Qcompare_spec x 0) as [Hx | Hx | Hx]; split; intros H; try lra.
  - pose proof (nearest_nonneg (- x)). lra.
  - apply nearest_nonneg. lra.
Qed.

Lemma binary64_not_NaN (x : Q) : binary64 x <> NaN.
Proof. unfold binary64. now destruct (Qle_bool _ _). Qed.

(** What [binary64] gives, by the size of the rounded value. *)
Lemma binary64_cases (x : Q) :
  let r := round_to_double x in
  (binary64 x = Finite r /\ - pow2 1024 < r /\ r < pow2 1024) \/
  (binary64 x = Infinity false /\ pow2 1024 <= r) \/
  (binary64 x = Infinity true /\ r <= - pow2 1024).
Proof.
  intros r. unfold binary64. fold r.
  pose proof (pow2_pos 1024) as Hp. set (top := pow2 1024) in *. clearbody top.
  destruct (Qle_bool top (Qabs r)) eqn:Hbig.
  - apply Qle_bool_iff in Hbig. right.
    destruct (Qle_bool 0 r) eqn:Hs; cbn [negb].
    + apply Qle_bool_iff in Hs. left. split; [reflexivity|].
      now rewrite Qabs_pos in Hbig.
    + right. split; [reflexivity|].
      assert (Hneg : r <= 0).
      { apply Qlt_le_weak, Qnot_le_lt. intros H.
        apply Qle_bool_iff in H. congruence. }
      rewrite Qabs_neg in Hbig by exact Hneg. lra.
  - left. split; [reflexivity|].
    assert (Hsmall : Qabs r < top).
    { apply Qnot_le_lt. intros H. apply Qle_bool_iff in H. congruence. }
    apply Qabs_Qlt_condition in Hsmall. exact Hsmall.
Qed.

Lemma binary64_monotone (x y : Q) :
  x <= y -> le (binary64 x) (binary64 y).
Proof.
  intros Hxy. pose proof (round_to_double_monotone x y Hxy) as Hr.
  pose proof (pow2_pos 1024) as Hp.
  destruct (binary64_cases x) as [(-> & Hx1 & Hx2) | [(-> & Hx) | (-> & Hx)]];
    destruct (binary64_cases y) as [(-> & Hy1 & Hy2) | [(-> & Hy) | (-> & Hy)]];
    set (top := pow2 1024) in *; clearbody top;
    cbn [le]; try reflexivity; try tauto; try lra.
Qed.

(** [x * 100] *)
Lemma times_100 (p : number) :
  times p (Finite 100)
  = match p with
    | Finite x => binary64 (x * 100)
    | other => other
    end.
Proof. now destruct p as [x | [|] |]. Qed.

Lemma times_100_monotone (p q : number) :
  le p q -> le (times p (Finite 100)) (times q (Finite 100)).
Proof.
  rewrite !times_100.
  destruct p as [x | s |], q as [y | s' |]; cbn [le]; try tauto.
  - intros Hxy. apply binary64_monotone. lra.
  - intros ->. destruct (binary64_cases (x * 100))
      as [(-> & _) | [(-> & _) | (-> & _)]]; cbn [le]; auto.
  - intros ->. destruct (binary64_cases (y * 100))
      as [(-> & _) | [(-> & _) | (-> & _)]]; cbn [le]; auto.
Qed.

Lemma Math_round_monotone (a b : number) :
  le a b -> le (Components.Math_round a) (Components.Math_round b).
Proof.
  destruct a as [x | s |], b as [y | s' |]; cbn [le Components.Math_round]; try tauto.
  intros Hxy. rewrite <- Zle_Qle. apply Qfloor_resp_le. lra.
Qed.

Lemma Math_round_nearest (x : Q) :
  x - (1 # 2) < inject_Z (Qfloor (x + (1 # 2))) /\
  inject_Z (Qfloor (x + (1 # 2))) <= x + (1 # 2).
Proof.
  destruct (Qfloor_bounds (x + (1 # 2))) as (Hl & Hu). lra.
Qed.

(** The double nearest to a number between 0 and 100 lies between 0 and
    100, within 2^-47 of the number. *)
Lemma binary64_percent (y : Q) :
  0 <= y -> y <= 100 ->
  exists r,
    binary64 y = Finite r /\ 0 <= r /\ r <= 100 /\
    y - (1 # 140737488355328) <= r /\ r <= y + (1 # 140737488355328).
Proof.
  intros H0 H100.
  assert (Hr : 0 <= round_to_double y /\ round_to_double y <= 100 /\
               y - (1 # 140737488355328) <= round_to_double y /\
               round_to_double y <= y + (1 # 140737488355328)).
  { unfold round_to_double.
    destruct (Qcompare_spec y 0) as [Hy | Hy | Hy]; [lra | lra |].
    assert (Hlog : (ilog2 y < 7)%Z).
    { apply ilog2_lt; [exact Hy|].
      apply Qle_lt_trans with 100; [exact H100 | reflexivity]. }
    assert (Hexp : (exponent y <= -46)%Z) by (unfold exponent; lia).
    assert (Hulp : ulp y <= 1 # 70368744177664).
    { unfold ulp. apply Qle_trans with (pow2 (-46)); [now apply pow2_le|].
      discriminate. }
    pose proof (ulp_pos y) as Hu.
    destruct (nearest_error y) as (He1 & He2).
    split; [apply nearest_nonneg, Qlt_le_weak, Hy|]. split; [|split].
    - assert (Hone : inject_Z (100 * 2 ^ (- exponent y)) * ulp y == 100).
      { rewrite inject_Z_mult, <- pow2_Z by lia. unfold ulp.
        rewrite <- Qmult_assoc, <- pow2_add.
        replace (- exponent y + exponent y)%Z with 0%Z by lia. reflexivity. }
      rewrite <- Hone. apply nearest_le_multiple. rewrite Hone. exact H100.
    - assert ((1 # 140737488355328) == (1 # 70368744177664) * (1 # 2)) by reflexivity.
      set (u := ulp y) in *. set (n := nearest y) in *. clearbody u n. nra.
    - assert ((1 # 140737488355328) == (1 # 70368744177664) * (1 # 2)) by reflexivity.
      set (u := ulp y) in *. set (n := nearest y) in *. clearbody u n. nra. }
  destruct Hr as (Hr0 & Hr100 & Hre).
  exists (round_to_double y). split; [|auto].
  assert (Htop : 100 < pow2 1024) by (vm_compute; reflexivity).
  pose proof (pow2_pos 1024) as Hp.
  destruct (binary64_cases y) as [(-> & _) | [(_ & Hbig) | (_ & Hbig)]];
    [reflexivity | |];
    exfalso; set (top := pow2 1024) in *; clearbody top; lra.
Qed.


(** *** Agreement with binary64 multiplication *)

Lemma ilog2_unique (x : Q) (k : Z) :
  0 < x -> pow2 k <= x -> x < pow2 (k + 1) -> ilog2 x = k.
Proof.
  intros Hx Hl Hu.
  pose proof (ilog2_ge x k Hx Hl). pose proof (ilog2_lt x (k + 1) Hx Hu). lia.
Qed.

Lemma ilog2_comp (x y : Q) : 0 < x -> x == y -> ilog2 x = ilog2 y.
Proof.
  intros Hx Hxy. symmetry.
  destruct (ilog2_spec x Hx) as (Hl & Hu).
  apply ilog2_unique; rewrite <- Hxy; assumption.
Qed.

Lemma round_half_even_comp (x y : Q) :
  x == y -> round_half_even x = round_half_even y.
Proof.
  intros Hxy. unfold round_half_even.
  rewrite (Qfloor_comp _ _ Hxy).
  assert (H : x - inject_Z (Qfloor y) == y - inject_Z (Qfloor y))
    by now rewrite Hxy.
  now rewrite (Qcompare_comp _ _ H (1 # 2) (1 # 2) (Qeq_refl _)).
Qed.

Lemma nearest_comp (x y : Q) : 0 < x -> x == y -> nearest x == nearest y.
Proof.
  intros Hx Hxy. unfold nearest, ulp, exponent.
  rewrite <- (ilog2_comp x y Hx Hxy).
  set (u := pow2 (Z.max (ilog2 x - 52) (-1074))).
  assert (H : x / u == y / u) by now rewrite Hxy.
  now rewrite (round_half_even_comp _ _ H).
Qed.

Lemma round_to_double_comp (x y : Q) :
  x == y -> round_to_double x == round_to_double y.
Proof.
  intros Hxy. unfold round_to_double.
  rewrite <- (Qcompare_comp _ _ Hxy 0 0 (Qeq_refl _)).
  destruct (Qcompare_spec x 0) as [H | H | H]; [reflexivity | |].
  - apply Qopp_comp, nearest_comp; [lra | now rewrite Hxy].
  - now apply nearest_comp.
Qed.

Lemma binary64_comp (x y : Q) :
  x == y -> eqb (binary64 x) (binary64 y) = true.
Proof.
  intros Hxy. pose proof (round_to_double_comp x y Hxy) as Hr.
  unfold binary64.
  rewrite (Qleb_comp _ _ (Qeq_refl (pow2 1024)) _ _ (Qabs_wd _ _ Hr)).
  rewrite (Qleb_comp _ _ (Qeq_refl 0) _ _ Hr).
  destruct (Qle_bool (pow2 1024) (Qabs (round_to_double y))); cbn [eqb].
  - apply Bool.eqb_reflx.
  - now apply Qeq_bool_iff.
Qed.

Lemma shr_1_nonneg (m : Z) (r s : bool) :
  (0 <= m)%Z ->
  SpecFloat.shr_1 (SpecFloat.Build_shr_record m r s)
  = SpecFloat.Build_shr_record (m / 2) (Z.odd m) (r || s).
Proof.
  intros Hm. rewrite <- Z.div2_div.
  destruct m as [|p|p]; [reflexivity | now destruct p | lia].
Qed.

Lemma shr_1_shifted (M k : Z) :
  (0 <= M)%Z -> (0 <= k)%Z ->
  SpecFloat.shr_1 (shifted M k) = shifted M (k + 1).
Proof.
  intros HM Hk. unfold shifted.
  destruct (Z.eqb_spec (k + 1) 0) as [Hk1 | _]; [lia|].
  destruct (Z.eqb_spec k 0) as [-> | Hk0].
  - rewrite shr_1_nonneg by exact HM.
    change (2 ^ (0 + 1))%Z with 2%Z. change (2 ^ (0 + 1 - 1))%Z with 1%Z.
    now rewrite Z.div_1_r, Z.mod_1_r.
  - assert (Hpos : (0 < 2 ^ (k - 1))%Z) by (apply Z.pow_pos_nonneg; lia).
    assert (Hpow : (2 ^ k = 2 ^ (k - 1) * 2)%Z).
    { replace k with (k - 1 + 1)%Z at 1 by lia.
      now rewrite Z.pow_add_r by lia. }
    rewrite shr_1_nonneg by (apply Z.div_pos; [exact HM | apply Z.pow_pos_nonneg; lia]).
    replace (k + 1 - 1)%Z with k by lia. f_equal.
    + rewrite Z.pow_add_r, Z.pow_1_r by lia.
      rewrite Z.div_div; [reflexivity | | lia].
      apply Z.pow_nonzero; lia.
    + rewrite Hpow, Z.rem_mul_r by lia.
      rewrite Zodd_mod.
      pose proof (Z.mod_pos_bound M (2 ^ (k - 1)) Hpos) as Hlow.
      pose proof (Z.mod_pos_bound (M / 2 ^ (k - 1)) 2 eq_refl) as Hbit.
      destruct (Z.eqb_spec ((M / 2 ^ (k - 1)) mod 2) 1) as [Hb | Hb];
        destruct (Z.eqb_spec (M mod 2 ^ (k - 1)) 0) as [Hl | Hl];
        destruct (Z.eqb_spec (M mod 2 ^ (k - 1)
                              + 2 ^ (k - 1) * ((M / 2 ^ (k - 1)) mod 2)) 0)
          as [Hs | Hs]; simpl; try reflexivity; nia.
Qed.

Lemma iter_pos_shifted (p : positive) (M k : Z) :
  (0 <= M)%Z -> (0 <= k)%Z ->
  SpecFloat.iter_pos SpecFloat.shr_1 p (shifted M k) = shifted M (k + Zpos p).
Proof.
  intros HM. revert k. induction p as [p IH | p IH |]; intros k Hk; simpl.
  - rewrite shr_1_shifted, IH, IH by lia. f_equal. lia.
  - rewrite IH, IH by lia. f_equal. lia.
  - now apply shr_1_shifted.
Qed.

Lemma Qcompare_half (n P : Z) :
  (0 < P)%Z -> (inject_Z n / inject_Z P ?= 1 # 2) = (2 * n ?= P)%Z.
Proof.
  intros HP.
  assert (HiP : 0 < inject_Z P) by (change 0 with (inject_Z 0); now rewrite <- Zlt_Qlt).
  destruct (Z.compare_spec (2 * n) P) as [H | H | H].
  - apply Qeq_alt. subst P. rewrite inject_Z_mult in *.
    change (inject_Z 2) with 2 in *. field. lra.
  - apply Qlt_alt. apply Qlt_shift_div_r; [exact HiP|].
    rewrite Zlt_Qlt, inject_Z_mult in H.
    change (inject_Z 2) with 2 in H. lra.
  - apply Qgt_alt. apply Qlt_shift_div_l; [exact HiP|].
    rewrite Zlt_Qlt, inject_Z_mult in H.
    change (inject_Z 2) with 2 in H. lra.
Qed.

(** Rounding a quotient by a power of two, on integers. *)
Lemma round_half_even_quotient (M P : Z) :
  (0 < P)%Z ->
  round_half_even (inject_Z M / inject_Z P)
  = match (2 * (M mod P) ?= P)%Z with
    | Lt => (M / P)%Z
    | Gt => (M / P + 1)%Z
    | Eq => if Z.even (M / P) then (M / P)%Z else (M / P + 1)%Z
    end.
Proof.
  intros HP. unfold round_half_even. rewrite <- Zdiv_Qdiv.
  assert (HiP : 0 < inject_Z P) by (change 0 with (inject_Z 0); now rewrite <- Zlt_Qlt).
  assert (H : inject_Z M / inject_Z P - inject_Z (M / P)
              == inject_Z (M mod P) / inject_Z P).
  { rewrite Z.mod_eq by lia. unfold Z.sub. rewrite inject_Z_plus, inject_Z_opp, inject_Z_mult. field. lra. }
  rewrite (Qcompare_comp _ _ H (1 # 2) (1 # 2) (Qeq_refl _)).
  now rewrite Qcompare_half.
Qed.

Lemma round_shifted (M k : Z) :
  (0 <= M)%Z -> (0 < k)%Z ->
  SpecFloat.round_nearest_even (SpecFloat.shr_m (shifted M k))
    (SpecFloat.loc_of_shr_record (shifted M k))
  = round_half_even (inject_Z M / inject_Z (2 ^ k)).
Proof.
  intros HM Hk.
  assert (Hh : (0 < 2 ^ (k - 1))%Z) by (apply Z.pow_pos_nonneg; lia).
  assert (Hpow : (2 ^ k = 2 ^ (k - 1) * 2)%Z).
  { replace k with (k - 1 + 1)%Z at 1 by lia.
    now rewrite Z.pow_add_r by lia. }
  rewrite round_half_even_quotient by lia.
  unfold shifted. destruct (Z.eqb_spec k 0) as [Hk0 | _]; [lia|].
  cbn [SpecFloat.shr_m SpecFloat.loc_of_shr_record].
  rewrite Zodd_mod.
  assert (Hmod : (M mod 2 ^ k
                  = M mod 2 ^ (k - 1)
                    + 2 ^ (k - 1) * ((M / 2 ^ (k - 1)) mod 2))%Z).
  { rewrite Hpow. apply Z.rem_mul_r; lia. }
  pose proof (Z.mod_pos_bound M (2 ^ (k - 1)) Hh) as Hlow.
  pose proof (Z.mod_pos_bound (M / 2 ^ (k - 1)) 2 eq_refl) as Hbit.
  rewrite Hmod.
  set (low := (M mod 2 ^ (k - 1))%Z) in *.
  set (b := ((M / 2 ^ (k - 1)) mod 2)%Z) in *.
  set (h := (2 ^ (k - 1))%Z) in *.
  assert (Hcase : b = 0%Z \/ b = 1%Z) by lia.
  clearbody b low h.
  destruct Hcase as [-> | ->]; cbn [Z.eqb Pos.eqb];
    destruct (Z.eqb_spec low 0) as [Hl | Hl]; cbn [negb];
    cbn [SpecFloat.round_nearest_even];
    match goal with
    | |- context [(?a ?= ?b)%Z] => destruct (Z.compare_spec a b)
    end;
    try reflexivity; lia.
Qed.

Lemma digits2_pos_size (m : positive) : SpecFloat.digits2_pos m = Pos.size m.
Proof. induction m as [m IH | m IH |]; simpl; now rewrite ?IH. Qed.

Lemma Zdigits2_log2 (m : positive) :
  SpecFloat.Zdigits2 (Zpos m) = (Z.log2 (Zpos m) + 1)%Z.
Proof.
  simpl. rewrite digits2_pos_size.
  destruct m as [m | m |]; simpl; try reflexivity; now rewrite Pos2Z.inj_succ.
Qed.

Lemma fexp_binary64 (e : Z) :
  SpecFloat.fexp FloatOps.prec FloatOps.emax e = Z.max (e - 53) (-1074).
Proof. reflexivity. Qed.

Lemma scaled_pos (M : positive) (E : Z) : 0 < inject_Z (Zpos M) * pow2 E.
Proof.
  apply Qmult_lt_0_compat; [reflexivity | apply pow2_pos].
Qed.

Lemma ilog2_scaled (M : positive) (E : Z) :
  ilog2 (inject_Z (Zpos M) * pow2 E) = (Z.log2 (Zpos M) + E)%Z.
Proof.
  destruct (Z.log2_spec (Zpos M) eq_refl) as (Hl & Hu).
  pose proof (Z.log2_nonneg (Zpos M)) as H0.
  pose proof (pow2_pos E) as HE.
  apply ilog2_unique; [apply scaled_pos | |].
  - rewrite pow2_add, (pow2_Z (Z.log2 (Zpos M)) H0).
    apply Qmult_le_compat_r; [|lra]. now rewrite <- Zle_Qle.
  - replace (Z.log2 (Zpos M) + E + 1)%Z with (Z.succ (Z.log2 (Zpos M)) + E)%Z by lia.
    rewrite pow2_add, (pow2_Z (Z.succ (Z.log2 (Zpos M)))) by lia.
    apply Qmult_lt_r; [exact HE|]. now rewrite <- Zlt_Qlt.
Qed.

Lemma exponent_scaled (M : positive) (E : Z) :
  exponent (inject_Z (Zpos M) * pow2 E)
  = SpecFloat.fexp FloatOps.prec FloatOps.emax
      (SpecFloat.Zdigits2 (Zpos M) + E).
Proof.
  unfold exponent. rewrite ilog2_scaled, fexp_binary64, Zdigits2_log2.
  f_equal. lia.
Qed.

(** The first shift of [binary_round_aux]. *)
Lemma shr_fexp_first (M : positive) (E : Z) :
  let e1 := exponent (inject_Z (Zpos M) * pow2 E) in
  (E < e1)%Z ->
  SpecFloat.shr_fexp FloatOps.prec FloatOps.emax (Zpos M) E SpecFloat.loc_Exact
  = (shifted (Zpos M) (e1 - E), e1).
Proof.
  intros e1 He. unfold SpecFloat.shr_fexp. rewrite <- exponent_scaled. fold e1.
  unfold SpecFloat.shr. cbn [SpecFloat.shr_record_of_loc].
  destruct (e1 - E)%Z as [|p|p] eqn:Hn; try lia.
  change (SpecFloat.Build_shr_record (Zpos M) false false)
    with (shifted (Zpos M) 0).
  rewrite iter_pos_shifted by lia. f_equal. lia.
Qed.

(** The second shift of [binary_round_aux], when the rounded mantissa has
    at most 53 digits. *)
Lemma shr_fexp_second (R e1 : Z) :
  (-1074 <= e1)%Z -> (0 <= R < 2 ^ 53)%Z ->
  SpecFloat.shr_fexp FloatOps.prec FloatOps.emax R e1 SpecFloat.loc_Exact
  = (SpecFloat.Build_shr_record R false false, e1).
Proof.
  intros He (HR0 & HR). unfold SpecFloat.shr_fexp, SpecFloat.shr.
  cbn [SpecFloat.shr_record_of_loc]. rewrite fexp_binary64.
  assert (Hd : (SpecFloat.Zdigits2 R <= 53)%Z).
  { destruct R as [|r|r]; [simpl; lia | | lia].
    rewrite Zdigits2_log2.
    assert (Z.log2 (Zpos r) < 53)%Z by (apply Z.log2_lt_pow2; lia). lia. }
  destruct (Z.max (SpecFloat.Zdigits2 R + e1 - 53) (-1074) - e1)%Z
    as [|p|p] eqn:Hn; try reflexivity; lia.
Qed.

(** The second shift when rounding carried into a 54th digit. *)
Lemma shr_fexp_carry (e1 : Z) :
  (-1074 <= e1)%Z ->
  SpecFloat.shr_fexp FloatOps.prec FloatOps.emax (2 ^ 53) e1 SpecFloat.loc_Exact
  = (SpecFloat.Build_shr_record (2 ^ 52) false false, (e1 + 1)%Z).
Proof.
  intros He. unfold SpecFloat.shr_fexp, SpecFloat.shr.
  cbn [SpecFloat.shr_record_of_loc]. rewrite fexp_binary64.
  change (SpecFloat.Zdigits2 (2 ^ 53)) with 54%Z.
  replace (Z.max (54 + e1 - 53) (-1074) - e1)%Z with 1%Z by lia.
  reflexivity.
Qed.

Lemma round_to_double_signed (s : bool) (x : Q) :
  0 < x ->
  round_to_double (if s then - x else x)
  == (if s then - nearest x else nearest x).
Proof.
  intros Hx. unfold round_to_double. destruct s.
  - assert (H : (- x ?= 0) = Lt) by (apply (proj1 (Qlt_alt _ _)); lra).
    rewrite H.
    apply Qopp_comp, nearest_comp; [lra | ring].
  - assert (H : (x ?= 0) = Gt) by (apply (proj1 (Qgt_alt _ _)); lra).
    now rewrite H.
Qed.

Lemma binary64_finite (s : bool) (x q : Q) :
  0 < x -> q == (if s then - nearest x else nearest x) ->
  nearest x < pow2 1024 ->
  eqb (binary64 (if s then - x else x)) (Finite q) = true.
Proof.
  intros Hx Hq Hsmall.
  pose proof (round_to_double_signed s x Hx) as Hrd.
  pose proof (nearest_nonneg x (Qlt_le_weak _ _ Hx)) as H0.
  pose proof (pow2_pos 1024) as Hp.
  set (top := pow2 1024) in *. set (n := nearest x) in *.
  destruct (binary64_cases (if s then - x else x))
    as [(-> & _) | [(_ & Hbig) | (_ & Hbig)]]; fold top in Hbig || idtac.
  - cbn [eqb]. apply Qeq_bool_iff. now rewrite Hrd, Hq.
  - exfalso. rewrite Hrd in Hbig. clearbody top n. destruct s; lra.
  - exfalso. rewrite Hrd in Hbig. clearbody top n. destruct s; lra.
Qed.

Lemma binary64_infinite (s : bool) (x : Q) :
  0 < x -> pow2 1024 <= nearest x ->
  binary64 (if s then - x else x) = Infinity s.
Proof.
  intros Hx Hbig.
  pose proof (round_to_double_signed s x Hx) as Hrd.
  pose proof (pow2_pos 1024) as Hp.
  set (top := pow2 1024) in *. set (n := nearest x) in *.
  destruct (binary64_cases (if s then - x else x))
    as [(_ & H1 & H2) | [(-> & H) | (-> & H)]];
    fold top in H1, H2 || fold top in H;
    try rewrite Hrd in H1; try rewrite Hrd in H2; try rewrite Hrd in H;
    clearbody top n; destruct s; try reflexivity; lra.
Qed.

(** The mantissa [binary_round_aux] rounds to, as a multiple of the unit
    in the last place. *)
Lemma nearest_scaled (M : positive) (E : Z) :
  let x := inject_Z (Zpos M) * pow2 E in
  (E < exponent x)%Z ->
  nearest x
  = inject_Z (round_half_even
                (inject_Z (Zpos M) / inject_Z (2 ^ (exponent x - E))))
    * pow2 (exponent x).
Proof.
  intros x He. unfold nearest, ulp. f_equal. f_equal.
  apply round_half_even_comp.
  set (e1 := exponent x) in *. clearbody e1. unfold x.
  rewrite (pow2_split e1 E) by lia.
  pose proof (pow2_pos E) as HE.
  assert (HP : 0 < inject_Z (2 ^ (e1 - E))).
  { change 0 with (inject_Z 0). rewrite <- Zlt_Qlt.
    apply Z.pow_pos_nonneg; lia. }
  set (u := pow2 E) in *. set (P := inject_Z (2 ^ (e1 - E))) in *.
  clearbody u P. field. lra.
Qed.

(** What the rounded mantissa can be. *)
Lemma rounded_mantissa_bounds (M : positive) (E : Z) :
  let x := inject_Z (Zpos M) * pow2 E in
  let R := round_half_even
             (inject_Z (Zpos M) / inject_Z (2 ^ (exponent x - E))) in
  (E < exponent x)%Z ->
  (0 <= R <= 2 ^ 53)%Z /\ ((-1074 < exponent x)%Z -> (2 ^ 52 <= R)%Z).
Proof.
  intros x R He.
  assert (Hexp : exponent x = Z.max (Z.log2 (Zpos M) + E - 52) (-1074)).
  { unfold exponent, x. now rewrite ilog2_scaled. }
  destruct (Z.log2_spec (Zpos M) eq_refl) as (Hl & Hu).
  pose proof (Z.log2_nonneg (Zpos M)) as HL.
  set (n := (exponent x - E)%Z) in *. set (L := Z.log2 (Zpos M)) in *.
  assert (Hn : (0 < n)%Z) by lia.
  assert (HP : (0 < 2 ^ n)%Z) by (apply Z.pow_pos_nonneg; lia).
  assert (HiP : 0 < inject_Z (2 ^ n))
    by (change 0 with (inject_Z 0); now rewrite <- Zlt_Qlt).
  split; [split|].
  - apply round_half_even_ge. change (inject_Z 0) with 0.
    apply Qle_shift_div_l; [exact HiP|]. rewrite Qmult_0_l. discriminate.
  - apply round_half_even_le.
    apply Qle_shift_div_r; [exact HiP|].
    rewrite <- inject_Z_mult, <- Zle_Qle, <- Z.pow_add_r by lia.
    apply Z.le_trans with (2 ^ Z.succ L)%Z; [lia|].
    apply Z.pow_le_mono_r; lia.
  - intros Hnormal. apply round_half_even_ge.
    apply Qle_shift_div_l; [exact HiP|].
    rewrite <- inject_Z_mult, <- Zle_Qle, <- Z.pow_add_r by lia.
    apply Z.le_trans with (2 ^ L)%Z; [|exact Hl].
    apply Z.pow_le_mono_r; lia.
Qed.

Lemma pow2_scale (k e : Z) :
  (0 <= k)%Z -> inject_Z (2 ^ k) * pow2 e == pow2 (k + e).
Proof. intros Hk. now rewrite pow2_add, (pow2_Z k Hk). Qed.

(** [binary_round_aux] rounds an exact product to the nearest double,
    when the product has digits to lose. *)
Lemma binary_round_aux_value (s : bool) (M : positive) (E : Z) :
  let x := inject_Z (Zpos M) * pow2 E in
  (E < exponent x)%Z ->
  eqb (binary64 (if s then - x else x))
      (of_binary64
         (SpecFloat.binary_round_aux FloatOps.prec FloatOps.emax s
            (Zpos M) E SpecFloat.loc_Exact))
  = true.
Proof.
  intros x He.
  pose proof (scaled_pos M E) as Hx. fold x in Hx.
  pose proof (nearest_scaled M E He) as Hnear.
  destruct (rounded_mantissa_bounds M E He) as ((HR0 & HR) & Hnormal).
  fold x in Hnear, HR0, HR, Hnormal.
  unfold SpecFloat.binary_round_aux.
  rewrite (shr_fexp_first M E He). fold x.
  rewrite round_shifted by lia.
  set (e1 := exponent x) in *.
  set (R := round_half_even (inject_Z (Zpos M) / inject_Z (2 ^ (e1 - E)))) in *.
  assert (He1 : (-1074 <= e1)%Z) by (unfold e1, exponent; lia).
  change (FloatOps.emax - FloatOps.prec)%Z with 971%Z.
  destruct (Z.eq_dec R (2 ^ 53)%Z) as [Hcarry | Hno].
  - rewrite Hcarry in *. rewrite shr_fexp_carry by exact He1.
    cbn [SpecFloat.shr_m]. change (2 ^ 52)%Z with 4503599627370496%Z.
    assert (Hval : nearest x == pow2 (53 + e1))
      by (rewrite Hnear; apply pow2_scale; lia).
    destruct (Z.leb_spec (e1 + 1) 971) as [Hfit | Hover].
    + cbn [of_binary64]. apply binary64_finite; [exact Hx | |].
      * assert (H : inject_Z 4503599627370496 * pow2 (e1 + 1) == pow2 (53 + e1)).
        { change 4503599627370496%Z with (2 ^ 52)%Z.
          rewrite pow2_scale by lia.
          now replace (52 + (e1 + 1))%Z with (53 + e1)%Z by lia. }
        destruct s; rewrite Hval, <- H; ring.
      * rewrite Hval. apply pow2_lt. lia.
    + cbn [of_binary64]. rewrite binary64_infinite; [now destruct s | exact Hx |].
      rewrite Hval. apply pow2_le. lia.
  - rewrite shr_fexp_second by lia. cbn [SpecFloat.shr_m].
    destruct R as [|r|r] eqn:HRv; [| |lia].
    + cbn [of_binary64]. apply binary64_finite with (s := s); [exact Hx | |].
      * rewrite Hnear. destruct s; ring.
      * rewrite Hnear. ring_simplify. apply pow2_pos.
    + assert (Hlt : nearest x < pow2 (53 + e1)).
      { rewrite Hnear, <- pow2_scale by lia.
        apply Qmult_lt_r; [apply pow2_pos|]. rewrite <- Zlt_Qlt. lia. }
      destruct (Z.leb_spec e1 971) as [Hfit | Hover].
      * cbn [of_binary64]. apply binary64_finite; [exact Hx | |].
        -- rewrite Hnear. destruct s; ring.
        -- eapply Qlt_le_trans; [exact Hlt | apply pow2_le; lia].
      * cbn [of_binary64]. rewrite binary64_infinite; [now destruct s | exact Hx |].
        apply Qle_trans with (pow2 (52 + e1)); [apply pow2_le; lia|].
        rewrite Hnear, <- pow2_scale by lia.
        apply Qmult_le_compat_r; [|apply Qlt_le_weak, pow2_pos].
        rewrite <- Zle_Qle. apply Hnormal. lia.
Qed.

Lemma eqb_trans (a b c : number) :
  eqb a b = true -> eqb b c = true -> eqb a c = true.
Proof.
  destruct a as [x | s |], b as [y | s' |], c as [z | s'' |];
    cbn [eqb]; try discriminate; try reflexivity.
  - apply Qeq_bool_trans.
  - destruct s, s', s''; try discriminate; reflexivity.
Qed.

(** The product of a double and 100, as the components compute it, is the
    product binary64 arithmetic gives. *)
Lemma times_100_binary64 (f : SpecFloat.spec_float) :
  SpecFloat.valid_binary FloatOps.prec FloatOps.emax f = true ->
  eqb (times (of_binary64 f) (Finite 100))
      (of_binary64 (SpecFloat.SFmul FloatOps.prec FloatOps.emax f hundred))
  = true.
Proof.
  intros Hvalid. destruct f as [s | s | | s m e].
  - destruct s; vm_compute; reflexivity.
  - destruct s; vm_compute; reflexivity.
  - reflexivity.
  - cbn [SpecFloat.SFmul hundred of_binary64 times].
    rewrite xorb_false_r.
    set (M := (m * 7036874417766400)%positive).
    set (E := (e + -46)%Z).
    apply eqb_trans
      with (binary64 (if s then - (inject_Z (Zpos M) * pow2 E)
                      else inject_Z (Zpos M) * pow2 E)).
    + apply binary64_comp.
      assert (H100 : inject_Z 7036874417766400 * pow2 (-46) == 100)
        by reflexivity.
      unfold M, E. rewrite Pos2Z.inj_mul, inject_Z_mult.
      destruct s; rewrite pow2_add, <- H100; ring.
    + apply binary_round_aux_value.
      unfold exponent. rewrite ilog2_scaled.
      cbn [SpecFloat.valid_binary] in Hvalid.
      unfold SpecFloat.bounded, SpecFloat.canonical_mantissa in Hvalid.
      apply andb_true_iff in Hvalid. destruct Hvalid as (Hcanon & _).
      apply Z.eqb_eq in Hcanon. rewrite fexp_binary64 in Hcanon.
      change (Zpos (SpecFloat.digits2_pos m))
        with (SpecFloat.Zdigits2 (Zpos m)) in Hcanon.
      rewrite Zdigits2_log2 in Hcanon.
      assert (Hmul : (Z.log2 (Zpos m) + Z.log2 7036874417766400
                      <= Z.log2 (Zpos M))%Z).
      { unfold M. rewrite Pos2Z.inj_mul. apply Z.log2_mul_below; reflexivity. }
      change (Z.log2 7036874417766400) with 52%Z in Hmul.
      unfold E. lia.
Qed.

(** The same, of the primitive floats: the product with 100 that the
    processor computes. *)
Lemma times_100_primitive (f : PrimFloat.float) :
  eqb (times (of_binary64 (FloatOps.Prim2SF f)) (Finite 100))
      (of_binary64
         (FloatOps.Prim2SF (PrimFloat.mul f (FloatOps.SF2Prim hundred))))
  = true.
Proof.
  rewrite FloatAxioms.mul_spec.
  change (FloatOps.Prim2SF (FloatOps.SF2Prim hundred)) with hundred.
  apply times_100_binary64, FloatAxioms.Prim2SF_valid.
Qed.

End NumberProofs.

(** *** The percentage shown *)

(** C7, as stated, fails at the double nearest to 0.015, which is a
    little below 0.015: the product of doubles is exactly 1.5 (in the
    model as in binary64 arithmetic) and both components print 2, while
    round(100 p) is 1; the bar of ProgressBar is 2 percent wide and the
    bar of the JobList row 1.5 percent, neither of which is 100 p. *)
Lemma percentage_rounds_double_product :
  let p := (8646911284551352 # 576460752303423488)%Q in
  let double := SpecFloat.S754_finite false 8646911284551352 (-59) in
  let bar := Components.ProgressBar (Number.Finite p) (VStr "processing") in
  let row := Components.JobList_progress (Number.Finite p) (VStr "processing") in
  ((0 <= p)%Q /\ (p <= 1)%Q) /\
  Number.eqb (Number.binary64 (15 # 1000)) (Number.Finite p) = true /\
  Number.eqb (Number.of_binary64 double) (Number.Finite p) = true /\
  SpecFloat.SFmul FloatOps.prec FloatOps.emax double hundred
  = SpecFloat.S754_finite false 6755399441055744 (-52) /\
  Components.label bar = Number.Finite 2 /\
  Components.label row = Number.Finite 2 /\
  Qfloor (100 * p + (1 # 2)) = 1%Z /\
  Components.width bar = Number.Finite 2 /\
  Number.eqb (Components.width row) (Number.Finite (3 # 2)) = true /\
  ~ (2 == 100 * p)%Q /\ ~ (3 # 2 == 100 * p)%Q.
Proof.
  cbv zeta. split; [split; discriminate|].
  repeat split; try (vm_compute; reflexivity); intros H; discriminate H.
Qed.

(** C7, amended.  For a progress p between 0 and 1, both components
    compute the double nearest to 100 p, which lies between 0 and 100
    within 2^-47 of 100 p, and print the integer nearest to that double (a
    half going up): an integer between 0 and 100, which is round(100 p)
    unless 100 p lies within 2^-47 of the middle of two integers.  The bar
    of the JobList row is as wide as the double, the bar of ProgressBar as
    wide as the integer printed. *)
Theorem progress_percentage (p : Q) (status : value) :
  (0 <= p)%Q -> (p <= 1)%Q ->
  exists (x : Q) (shown : Z),
    Number.times (Number.Finite p) (Number.Finite 100) = Number.Finite x /\
    (0 <= x)%Q /\ (x <= 100)%Q /\
    (100 * p - (1 # 140737488355328) <= x)%Q /\
    (x <= 100 * p + (1 # 140737488355328))%Q /\
    (x - (1 # 2) < inject_Z shown)%Q /\ (inject_Z shown <= x + (1 # 2))%Q /\
    (0 <= shown <= 100)%Z /\
    (shown = Qfloor (100 * p + (1 # 2)) \/
     exists k : Z,
       (100 * p - (1 # 140737488355328) <= inject_Z k + (1 # 2))%Q /\
       (inject_Z k + (1 # 2) <= 100 * p + (1 # 140737488355328))%Q) /\
    Components.label (Components.ProgressBar (Number.Finite p) status)
    = Number.Finite (inject_Z shown) /\
    Components.label (Components.JobList_progress (Number.Finite p) status)
    = Number.Finite (inject_Z shown) /\
    Components.width (Components.JobList_progress (Number.Finite p) status)
    = Number.Finite x /\
    Components.width (Components.ProgressBar (Number.Finite p) status)
    = Number.Finite (inject_Z shown).
Proof.
  intros H0 H1.
  destruct (binary64_percent (p * 100)) as (x & Hx & Hx0 & Hx100 & Hlow & Hhigh);
    [lra | lra |].
  destruct (Qfloor_bounds (x + (1 # 2))) as (Hf1 & Hf2).
  destruct (Qfloor_bounds (100 * p + (1 # 2))) as (Hg1 & Hg2).
  exists x, (Qfloor (x + (1 # 2))).
  unfold Components.ProgressBar, Components.JobList_progress.
  cbn [Number.times Components.label Components.width]. rewrite Hx.
  cbn [Components.Math_round].
  split; [reflexivity|]. split; [exact Hx0|]. split; [exact Hx100|].
  split; [lra|]. split; [lra|]. split; [lra|]. split; [lra|].
  split; [|split; [|repeat split; reflexivity]].
  - split.
    + change 0%Z with (Qfloor 0). apply Qfloor_resp_le. lra.
    + change 100%Z with (Qfloor (100 + (1 # 2))). apply Qfloor_resp_le. lra.
  - set (a := Qfloor (x + (1 # 2))) in *.
    set (b := Qfloor (100 * p + (1 # 2))) in *.
    destruct (Z.lt_trichotomy a b) as [Hlt | [Heq | Hgt]].
    + right. exists a.
      assert (H : (inject_Z (a + 1) <= inject_Z b)%Q)
        by (rewrite <- Zle_Qle; lia).
      rewrite inject_Z_plus in H. change (inject_Z 1) with 1%Q in H.
      split; lra.
    + now left.
    + right. exists b.
      assert (H : (inject_Z (b + 1) <= inject_Z a)%Q)
        by (rewrite <- Zle_Qle; lia).
      rewrite inject_Z_plus in H. change (inject_Z 1) with 1%Q in H.
      split; lra.
Qed.

Lemma progress_percentage_witness :
  ((0 <= 1 # 3)%Q /\ (1 # 3 <= 1)%Q) /\
  exists shown : Z,
    (0 <= shown <= 100)%Z /\
    Components.label
      (Components.ProgressBar (Number.Finite (1 # 3)) (VStr "processing"))
    = Number.Finite (inject_Z shown).
Proof.
  assert (H0 : (0 <= 1 # 3)%Q) by discriminate.
  assert (H1 : (1 # 3 <= 1)%Q) by discriminate.
  split; [split; assumption|].
  destruct (progress_percentage (1 # 3) (VStr "processing") H0 H1)
    as (x & shown & _ & _ & _ & _ & _ & _ & _ & Hrange & _ & Hbar & _).
  exists shown. split; [exact Hrange | exact Hbar].
Defined.

(** A third is shown as 33%, on a bar 33 percent wide in ProgressBar;
    a progress of 0.995, which as a double is a little below, is shown
    as 100%, and one of -0.005, a little below as well, as 0%. *)
Example sample_percentages :
  Components.label
    (Components.ProgressBar (Number.binary64 (1 # 3)) (VStr "processing"))
  = Number.Finite 33 /\
  Components.label
    (Components.ProgressBar (Number.binary64 (995 # 1000)) (VStr "processing"))
  = Number.Finite 100 /\
  Components.label
    (Components.ProgressBar (Number.binary64 (- (5 # 1000))) (VStr "processing"))
  = Number.Finite 0.
Proof. repeat split; vm_compute; reflexivity. Qed.

(** A job without a progress prints NaN. *)
Example no_progress_is_NaN :
  Components.label (Components.JobList_progress Number.NaN (VStr "pending"))
  = Number.NaN.
Proof. reflexivity. Qed.

(** ** Status badges *)

(** StatusBadge returns a badge with the status as its text, whatever the
    status. *)
Lemma StatusBadge_total (status : string) :
  exists b, Components.StatusBadge status = Normal b /\
            Components.children b = status.
Proof.
  unfold Components.StatusBadge, Components.member, Components.inherited.
  cbn -[String.eqb].
  repeat (match goal with
          | |- context [String.eqb ?a ?b] => destruct (String.eqb a b)
          end; cbn -[String.eqb]; try (eexists; split; reflexivity)).
Qed.

(** A status that is neither known nor the name of a property of
    [Object.prototype] gets the pending colours. *)
Lemma StatusBadge_unknown_status (status : string) :
  ~ In status known_statuses ->
  Components.inherited status = VUndefined ->
  Components.StatusBadge status
  = Normal {| Components.className := Components.pending_className;
              Components.children := status |}.
Proof.
  intros Hunknown Hplain.
  unfold Components.StatusBadge, Components.member.
  assert (Hown : lookup_own status Components.STATUS_COLORS = None).
  { cbn -[String.eqb].
    repeat (match goal with
            | |- context [String.eqb ?a status] =>
                destruct (String.eqb_spec a status) as [<- | _];
                [destruct Hunknown; simpl; tauto|]
            end).
    reflexivity. }
  rewrite Hown, Hplain. reflexivity.
Qed.

(** A known status gets its own colours. *)
Example StatusBadge_failed :
  Components.StatusBadge "failed"
  = Normal {| Components.className :=
                [Lit "inline-flex items-center px-2.5 py-0.5 rounded-full text-xs font-medium ";
                 Sub (VStr "bg-red-100"); Lit " "; Sub (VStr "text-red-800")];
              Components.children := "failed" |}.
Proof. reflexivity. Qed.

(** C9.  StatusBadge returns a badge showing the status text for every
    status string, but the status "constructor", which is none of the
    four known keys, does not receive the pending colours: the lookup
    finds the method inherited from [Object.prototype], which is truthy,
    and both colour classes come out [undefined]. *)
Theorem StatusBadge_inherited_name :
  ~ In "constructor" known_statuses /\
  Components.StatusBadge "constructor"
  = Normal {| Components.className :=
                [Lit "inline-flex items-center px-2.5 py-0.5 rounded-full text-xs font-medium ";
                 Sub VUndefined; Lit " "; Sub VUndefined];
              Components.children := "constructor" |} /\
  Components.StatusBadge "constructor"
  <> Normal {| Components.className := Components.pending_className;
               Components.children := "constructor" |} /\
  Components.JobList_status_class (VStr "constructor")
  = "bg-yellow-100 text-yellow-800".
Proof.
  split; [|split; [reflexivity | split; [discriminate | reflexivity]]].
  simpl. intros H. repeat (destruct H as [H | H]; [discriminate|]). exact H.
Qed.


(** * Further properties of the code *)

(** ** Which paths the validations accept *)

Lemma prefix_occurs (sub s : string) :
  String.prefix sub s = true <-> exists post, s = (sub ++ post)%string.
Proof.
  revert s. induction sub as [|c sub IH]; intros s.
  - split; [intros _; now exists s | intros _; now destruct s].
  - destruct s as [|d s]; simpl;
      [split; [discriminate | intros (post & [=])]|].
    destruct (Ascii.ascii_dec c d) as [<- | Hcd].
    + rewrite IH. split; intros (post & H); exists post;
        [now rewrite H | now injection H].
    + split; [discriminate|]. intros (post & [= Hd _]). now destruct Hcd.
Qed.

(** [includes] finds exactly the occurrences. *)
Lemma includes_occurs (s sub : string) :
  includes s sub = true <-> occurs_in sub s.
Proof.
  unfold occurs_in. induction s as [|c s IH]; cbn [includes].
  - rewrite orb_false_r, prefix_occurs. split.
    + intros (post & H). now exists "", post.
    + intros (pre & post & H). destruct pre; [now exists post | discriminate].
  - rewrite orb_true_iff, prefix_occurs, IH. split.
    + intros [(post & H) | (pre & post & H)].
      * now exists "", post.
      * exists (String c pre), post. simpl. now rewrite H.
    + intros (pre & post & H). destruct pre as [|d pre]; simpl in H.
      * left. now exists post.
      * right. injection H as _ H. now exists pre, post.
Qed.

Lemma validations_agree_but_on_empty_helper (path : value) :
  (Preload.validatePath path = true ->
   MainHardened.validatePath path = true) /\
  (MainHardened.validatePath path = true ->
   Preload.validatePath path = true \/ path = VStr "").
Proof.
  split.
  - unfold Preload.validatePath, Preload.validateString,
           MainHardened.validatePath.
    destruct path as [| | | |s| | |]; try discriminate.
    rewrite !andb_true_iff, negb_true_iff.
    intros ((_ & Hlen) & ->). apply Nat.leb_le in Hlen.
    destruct (Nat.ltb_spec 4096 (String.length s)); [lia | reflexivity].
  - unfold Preload.validatePath, Preload.validateString,
           MainHardened.validatePath.
    destruct path as [| | | |s| | |]; try discriminate.
    destruct (includes s "..") eqn:Hdots; [discriminate|].
    destruct (Nat.ltb_spec 4096 (String.length s)) as [|Hlen]; [discriminate|].
    intros _. destruct s as [|c s]; [now right|]. left. simpl.
    apply Nat.leb_le in Hlen. simpl in Hlen. now rewrite Hlen.
Qed.

(** X2.  Whatever the preload script lets through also passes the
    validation of the hardened main process, and the empty string is the
    only path the main process accepts that the preload script refuses. *)
Theorem validations_agree_but_on_empty (path : value) :
  (Preload.validatePath path = true ->
   MainHardened.validatePath path = true) /\
  (MainHardened.validatePath path = true ->
   Preload.validatePath path = true \/ path = VStr "") /\
  MainHardened.validatePath (VStr "") = true /\
  Preload.validatePath (VStr "") = false.
Proof.
  destruct (validations_agree_but_on_empty_helper path) as (H1 & H2).
  split; [exact H1|]. split; [exact H2|]. split; reflexivity.
Qed.

Lemma validations_agree_but_on_empty_witness :
  Preload.validatePath (VStr "/music/out") = true /\
  MainHardened.validatePath (VStr "/music/out") = true.
Proof.
  assert (H : Preload.validatePath (VStr "/music/out") = true) by reflexivity.
  split; [exact H|].
  exact (proj1 (validations_agree_but_on_empty (VStr "/music/out")) H).
Defined.

(** X3.  Through the validating preload script and the hardened main
    process, a directory is opened exactly when the path passes the
    preload validation, exists and is a directory; the promise resolves to
    [true] in that case only; and the one path the shell is ever asked to
    open is the path of the call. *)
Theorem guarded_open_directory (fs : MainHardened.filesystem) (path : value) :
  let outcome := api_openDirectory Preload.openDirectory
                   (MainHardened.open_directory fs) path in
  (opens_a_directory (snd outcome) = true <->
   exists s, path = VStr s /\ Preload.validatePath path = true /\
             MainHardened.existsSync fs s = true /\
             MainHardened.isDirectory fs s = true) /\
  (fst outcome = Resolved (VBool true) <->
   opens_a_directory (snd outcome) = true) /\
  (forall p, In (ShellOpenPath p) (snd outcome) -> p = path).
Proof.
  unfold api_openDirectory, Preload.openDirectory, MainHardened.open_directory.
  destruct (Preload.validatePath path) eqn:Hpre; simpl.
  - rewrite (proj1 (validations_agree_but_on_empty_helper path) Hpre). simpl.
    destruct path as [| | | |s| | |]; try discriminate.
    destruct (MainHardened.existsSync fs s) eqn:He; simpl;
      [destruct (MainHardened.isDirectory fs s) eqn:Hd; simpl|].
    + split; [|split].
      * split; [intros _; now exists s | reflexivity].
      * split; reflexivity.
      * intros p [[=] | [[= <-] | []]]. reflexivity.
    + split; [|split].
      * split; [discriminate | intros (s' & [= <-] & _ & _ & H); congruence].
      * split; discriminate.
      * intros p [[=] | []].
    + split; [|split].
      * split; [discriminate | intros (s' & [= <-] & _ & H & _); congruence].
      * split; discriminate.
      * intros p [[=] | []].
  - split; [|split].
    + split; [discriminate | intros (s & _ & [=] & _)].
    + split; discriminate.
    + intros p [].
Qed.

Lemma guarded_open_directory_witness :
  let fs := MainHardened.Filesystem (fun _ => true) (fun _ => true) in
  let path := VStr "/music/out" in
  (exists s, path = VStr s /\ Preload.validatePath path = true /\
             MainHardened.existsSync fs s = true /\
             MainHardened.isDirectory fs s = true) /\
  opens_a_directory
    (snd (api_openDirectory Preload.openDirectory
            (MainHardened.open_directory fs) path)) = true.
Proof.
  intros fs path.
  assert (H : exists s, path = VStr s /\ Preload.validatePath path = true /\
                        MainHardened.existsSync fs s = true /\
                        MainHardened.isDirectory fs s = true).
  { exists "/music/out". repeat split; reflexivity. }
  split; [exact H|].
  exact (proj2 (proj1 (guarded_open_directory fs path)) H).
Defined.

(** ** Which listeners the preload script keeps *)

Lemma listening_snoc (channel : string) (st : Preload.state)
  (a b c : nat) (ch : string) (cb : value) :
  listening channel (Preload.State a b c (Preload.listeners st ++ [(ch, cb)]))
  = listening channel st ++ (if String.eqb ch channel then [cb] else []).
Proof.
  unfold listening. simpl. rewrite List.filter_app, List.map_app. simpl.
  now destruct (String.eqb ch channel).
Qed.

Lemma listening_length (channel : string) (st : Preload.state) :
  List.length (listening channel st) = Preload.registered channel st.
Proof. unfold listening, Preload.registered. apply List.length_map. Qed.

Lemma offered_cons (channel : string) (c : Preload.call)
  (calls : list Preload.call) :
  offered channel (c :: calls) = offered channel [c] ++ offered channel calls.
Proof. unfold offered. cbn [flat_map]. now rewrite app_nil_r. Qed.

(** One call adds the function it offers, if there is room. *)
Lemma listening_step (channel : string) (c : Preload.call)
  (st : Preload.state) :
  preload_channel channel -> within_budget st ->
  listening channel (Preload.step st c)
  = listening channel st
    ++ firstn (10 - List.length (listening channel st)) (offered channel [c]).
Proof.
  intros Hch (Hl & He & Hx & Bl & Be & Bx).
  unfold Preload.MAX_LISTENERS in *.
  pose proof (listening_length "python-log" st) as Hlog.
  pose proof (listening_length "python-error" st) as Herr.
  pose proof (listening_length "python-exit" st) as Hexit.
  destruct Hch as [-> | [-> | ->]]; destruct c as [cb | cb | cb];
    unfold offered, Preload.step, Preload.onPythonLog, Preload.onPythonError,
           Preload.onPythonExit, Preload.MAX_LISTENERS;
    cbn [flat_map];
    destruct (String.eqb (typeof cb) "function");
    cbn -[Nat.sub firstn listening Nat.leb];
    rewrite ?firstn_nil, ?app_nil_r; try reflexivity;
    match goal with
    | |- context [(10 <=? ?n)%nat] =>
        destruct (Nat.leb_spec 10 n) as [Hfull | Hroom]
    end;
    rewrite ?listening_snoc; cbn -[Nat.sub firstn listening];
    rewrite ?app_nil_r; try reflexivity.
  all: try (replace (10 - List.length (listening _ st))%nat with 0%nat by lia;
            cbn [firstn]; now rewrite app_nil_r).
  all: match goal with
       | |- _ = _ ++ firstn ?k _ =>
           destruct k as [|k'] eqn:Hk; [lia | cbn [firstn]; now rewrite firstn_nil]
       end.
Qed.

(** From a state within budget, a run keeps the listeners it has and adds
    the first functions offered, as far as the budget goes. *)
Lemma listening_run (channel : string) (calls : list Preload.call)
  (st : Preload.state) :
  preload_channel channel -> within_budget st ->
  listening channel (Preload.run calls st)
  = listening channel st
    ++ firstn (10 - List.length (listening channel st)) (offered channel calls).
Proof.
  intros Hch. revert st.
  induction calls as [|c calls IH]; intros st Hin.
  - simpl. now rewrite firstn_nil, app_nil_r.
  - change (Preload.run (c :: calls) st)
      with (Preload.run calls (Preload.step st c)).
    rewrite (IH _ (within_budget_step st c Hin)), offered_cons.
    rewrite (listening_step channel c st Hch Hin), <- app_assoc.
    f_equal. rewrite List.firstn_app. f_equal.
    rewrite List.length_app, List.length_firstn. f_equal.
    assert (Hone : (List.length (offered channel [c]) <= 1)%nat).
    { unfold offered. cbn [flat_map]. rewrite app_nil_r.
      destruct c; match goal with
                  | |- context [if ?b then _ else _] => destruct b
                  end; simpl; lia. }
    lia.
Qed.

(** X4.  After any sequence of registration calls, the callbacks
    listening on a channel are the first ten functions that were offered
    to it, in the order of the calls: what is offered to another channel,
    what is not a function, and every function after the tenth is left
    out. *)
Theorem first_ten_listeners_kept (channel : string)
  (calls : list Preload.call) :
  preload_channel channel ->
  listening channel (Preload.run calls Preload.initial)
  = firstn 10 (offered channel calls) /\
  Preload.registered channel (Preload.run calls Preload.initial)
  = Nat.min 10 (List.length (offered channel calls)).
Proof.
  intros Hch.
  assert (H : listening channel (Preload.run calls Preload.initial)
              = firstn 10 (offered channel calls)).
  { now rewrite (listening_run channel calls Preload.initial Hch
                   within_budget_initial). }
  split; [exact H|].
  now rewrite <- listening_length, H, List.length_firstn.
Qed.

Lemma first_ten_listeners_kept_witness :
  let calls := [Preload.OnPythonLog (VFun 1); Preload.OnPythonError (VFun 2);
                Preload.OnPythonLog (VStr "x"); Preload.OnPythonLog (VFun 3)] in
  preload_channel "python-log" /\
  listening "python-log" (Preload.run calls Preload.initial) = [VFun 1; VFun 3].
Proof.
  intros calls.
  assert (H : preload_channel "python-log") by (left; reflexivity).
  split; [exact H|].
  exact (proj1 (first_ten_listeners_kept "python-log" calls H)).
Defined.

(** ** What the operations of the provider do to its state *)

(** Closes the goals about grown logs and requests. *)
Ltac grown :=
  first
    [ exists []; split; [now rewrite app_nil_r | constructor]
    | eexists; split;
      [ rewrite <- ?app_assoc; reflexivity
      | repeat constructor; unfold known_type; simpl; tauto ]
    | exists []; now rewrite app_nil_r
    | eexists; rewrite <- ?app_assoc; reflexivity ].

(** Closes a footprint in which the jobs and the timers are untouched. *)
Ltac still :=
  unfold footprint; simpl;
  split; [grown|]; split; [grown|];
  split; [left; split; [reflexivity | now left]|];
  split; [intros Hobj; now split | auto].

Lemma startProcessing_footprint (net : reply) (st : ProcessContext.state) :
  footprint st (snd (ProcessContext.startProcessing net st)).
Proof.
  unfold ProcessContext.startProcessing. run_M.
  destruct (String.eqb (ProcessContext.inputPath st) ""
            || String.eqb (ProcessContext.outputPath st) ""); simpl; [still|].
  destruct net as [e | [[data | e]]]; simpl; try still.
  destruct (get data Job_id) as [id | e] eqn:Hid; simpl; [|still].
  destruct (truthy id) eqn:Ht; simpl; [|still].
  pose proof (truthy_job_id_object data id Hid Ht) as Hdata.
  rewrite template_literal_one.
  destruct (stringifies id) eqn:Hs; simpl; unfold footprint; simpl;
    (split; [grown|]); (split; [grown|]).
  - split; [right; exists data; split; [exact Hdata|]; split; [reflexivity|];
            right; now exists id|].
    split; [|auto]. intros Hobj. split; [|reflexivity].
    apply Forall_app. split; [exact Hobj|]. now constructor.
  - split; [right; exists data; split; [exact Hdata|]; split; [reflexivity|];
            now left|].
    split; [|auto]. intros Hobj. split; [|reflexivity].
    apply Forall_app. split; [exact Hobj|]. now constructor.
Qed.

Lemma validateSetup_footprint (net : reply) (st : ProcessContext.state) :
  footprint st (snd (ProcessContext.validateSetup net st)).
Proof.
  unfold ProcessContext.validateSetup. run_M.
  destruct net as [e | [[data | e]]]; simpl; try still.
  destruct (get data Valid) as [ok | e]; simpl; [|still].
  destruct (truthy ok); simpl; [still|].
  destruct (get data Validations) as [checks | e]; simpl; [|still].
  destruct (Object_entries checks) as [entries | e]; simpl; [|still].
  rewrite for_each_failed_checks. simpl.
  unfold footprint; simpl.
  split.
  - eexists. split; [reflexivity|].
    apply List.Forall_forall. intros entry Hin.
    apply in_map_iff in Hin. destruct Hin as (kv & <- & _).
    right; right; reflexivity.
  - split; [grown|].
    split; [left; split; [reflexivity | now left]|].
    split; [intros Hobj; now split | auto].
Qed.

Lemma select_footprint (answer : completion (list string))
  (st : ProcessContext.state) :
  footprint st (snd (ProcessContext.selectInputPath answer st)) /\
  footprint st (snd (ProcessContext.selectOutputPath answer st)).
Proof.
  unfold ProcessContext.selectInputPath, ProcessContext.selectOutputPath,
         ProcessContext.await.
  run_M. destruct answer as [[|first rest] | e]; simpl; split; still.
Qed.

Lemma openDirectory_footprint (settled : settlement)
  (st : ProcessContext.state) :
  footprint st (snd (ProcessContext.openDirectory settled st)).
Proof.
  unfold ProcessContext.openDirectory, ProcessContext.await.
  run_M. destruct settled as [v | e]; simpl; still.
Qed.

Section FootprintProofs.

Variable same_ref : value -> value -> bool.

Lemma tick_logs_requests (interval : nat) (net : reply)
  (st : ProcessContext.state) :
  let st' := snd (ProcessContext.tick same_ref interval net st) in
  (exists more, ProcessContext.logs st' = ProcessContext.logs st ++ more /\
                Forall known_type more) /\
  (exists more, ProcessContext.requests st'
                = ProcessContext.requests st ++ more) /\
  ProcessContext.processing st' = ProcessContext.processing st /\
  (ProcessContext.renderError st' = ProcessContext.renderError st \/
   exists t data e,
     ProcessContext.timers st !! interval = Some t /\
     ProcessContext.merge_status same_ref (polled t) data
       (ProcessContext.jobs st) = Throw e).
Proof.
  unfold ProcessContext.tick.
  destruct (ProcessContext.timers st !! interval) as [t|] eqn:Hlook;
    [|simpl; split; [grown|]; split; [grown|]; split; [reflexivity | now left]].
  destruct (active t);
    [|simpl; split; [grown|]; split; [grown|]; split; [reflexivity | now left]].
  unfold ProcessContext.interval_callback. run_M.
  unfold ProcessContext.fetch, ProcessContext.setJobs. simpl.
  destruct net as [e | [[data | e]]]; simpl;
    try (split; [grown|]; split; [grown|]; split; [reflexivity | now left]).
  destruct (ProcessContext.merge_status same_ref (polled t) data
              (ProcessContext.jobs st)) as [next | e0] eqn:Hm; simpl;
    (destruct (get data Status) as [s | e]; simpl;
     [destruct (is_string s "completed" || is_string s "failed") eqn:Hterm;
      simpl; [destruct (is_string s "completed"); simpl|]|]);
    (split; [grown|]; split; [grown|]; split; [reflexivity|]);
    try (now left); right; exists t, data, e0; now split.
Qed.

Lemma tick_footprint (interval : nat) (net : reply)
  (st : ProcessContext.state) :
  footprint st (snd (ProcessContext.tick same_ref interval net st)).
Proof.
  destruct (tick_logs_requests interval net st) as (Hlogs & Hreq & Hproc & Hrender).
  unfold footprint. split; [exact Hlogs|]. split; [exact Hreq|].
  split; [|split].
  - left. split.
    + destruct (tick_jobs same_ref interval net st)
        as [-> | (t & data & _ & _ & Hm)]; [reflexivity|].
      exact (proj1 (merge_status_entries same_ref _ _ _ _ Hm)).
    + destruct (ProcessContext.timers st !! interval) as [t|] eqn:Hlook.
      * destruct (active t) eqn:Hact.
        -- destruct (tick_armed same_ref interval t net st Hlook Hact)
             as (_ & _ & Htim).
           rewrite Htim. destruct (poll_stops net); [right; now exists interval | now left].
        -- left. rewrite tick_unarmed; [reflexivity|].
           intros (t' & Hlook' & Hact'). congruence.
      * left. rewrite tick_unarmed; [reflexivity|].
        intros (t' & Hlook' & _). congruence.
  - intros Hobj. split; [exact (tick_keeps_objects same_ref interval net st Hobj)|].
    destruct Hrender as [Hsame | (t & data & e & _ & Hthrow)]; [exact Hsame|].
    destruct (merge_status_total same_ref (polled t) data _ Hobj) as (next & Hm).
    congruence.
  - intros Hp. now rewrite Hproc.
Qed.

Lemma perform_footprint (a : ProcessContext.action)
  (st : ProcessContext.state) :
  footprint st (ProcessContext.perform same_ref st a).
Proof.
  destruct a; simpl.
  - apply startProcessing_footprint.
  - apply tick_footprint.
  - apply validateSetup_footprint.
  - apply select_footprint.
  - apply select_footprint.
  - apply openDirectory_footprint.
Qed.

End FootprintProofs.

(** ** Histories of the provider *)

Lemma footprint_at_rest (st st' : ProcessContext.state) :
  footprint st st' -> at_rest st -> at_rest st'.
Proof.
  intros (_ & _ & Hjt & Hobj & Hproc) (Hlen & Ho & Hr & Hd & Hp).
  destruct (Hobj Ho) as (Ho' & Hr').
  unfold at_rest. rewrite Hr', Hr, (Hproc Hp).
  destruct Hjt as [(Hl & [Ht | (i & Ht)])
                  | (data & _ & Hj & [Ht | (id & Hs & Ht)])];
    rewrite Ht.
  - rewrite Hl. now repeat split.
  - unfold cleared. rewrite length_alter, Hl. repeat split; auto.
    apply Forall_alter; [exact Hd|]. now intros t _ Ht1.
  - rewrite Hj, List.length_app. simpl.
    split; [lia|]. rewrite Hj in Ho'. now repeat split.
  - rewrite Hj, !List.length_app. simpl.
    split; [lia|]. rewrite Hj in Ho'.
    split; [exact Ho'|]. split; [reflexivity|].
    split; [|reflexivity].
    apply Forall_app. split; [exact Hd|]. now repeat constructor.
Qed.

Section HistoryProofs.

Variable same_ref : value -> value -> bool.

(** X5.  Over any history of the provider (starting jobs, timer periods,
    setup checks, directory choices, opening folders), the logs and the
    list of issued requests only grow at the end: no entry is dropped,
    reordered or rewritten, and every entry written has one of the types
    info, success and error. *)
Theorem logs_and_requests_only_grow (actions : list ProcessContext.action)
  (st : ProcessContext.state) :
  (exists more,
     ProcessContext.logs (ProcessContext.history same_ref actions st)
     = ProcessContext.logs st ++ more /\
     Forall known_type more) /\
  (exists more,
     ProcessContext.requests (ProcessContext.history same_ref actions st)
     = ProcessContext.requests st ++ more).
Proof.
  revert st. induction actions as [|a actions IH]; intros st; simpl.
  - split; [exists [] | exists []]; rewrite app_nil_r; auto.
  - destruct (perform_footprint same_ref a st)
      as ((l1 & Hl1 & Hk1) & (r1 & Hr1) & _).
    destruct (IH (ProcessContext.perform same_ref st a))
      as ((l2 & Hl2 & Hk2) & (r2 & Hr2)).
    split.
    + exists (l1 ++ l2). rewrite Hl2, Hl1, <- app_assoc.
      split; [reflexivity|]. apply Forall_app. now split.
    + exists (r1 ++ r2). now rewrite Hr2, Hr1, <- app_assoc.
Qed.

(** X6.  After any history from the initial state of the provider, no
    timer is without a job (a job is without a timer when its job_id had
    no string), every job is an object, no state updater has thrown,
    every timer has a period of 1000 ms and polls a job id that has a
    string, and the processing flag is down. *)
Theorem provider_at_rest (clock : Z) (actions : list ProcessContext.action) :
  let st := ProcessContext.history same_ref actions
              (ProcessContext.initial clock) in
  (List.length (ProcessContext.timers st)
   <= List.length (ProcessContext.jobs st))%nat /\
  Forall is_object (ProcessContext.jobs st) /\
  ProcessContext.renderError st = None /\
  Forall (fun t => delay t = 1000%Z /\ stringifies (polled t) = true)
         (ProcessContext.timers st) /\
  ProcessContext.processing st = false.
Proof.
  assert (Hgen : forall st, at_rest st ->
                   at_rest (ProcessContext.history same_ref actions st)).
  { induction actions as [|a actions IH]; intros st Hst; simpl; [exact Hst|].
    apply IH. exact (footprint_at_rest _ _ (perform_footprint same_ref a st) Hst). }
  apply Hgen. unfold at_rest. simpl. repeat split; constructor.
Qed.

End HistoryProofs.

(** The inequality is strict after a job_id without a string: one job,
    no timer. *)
Example job_without_timer :
  let st := ProcessContext.history (fun _ _ => false)
              [ProcessContext.SelectInputPath (Normal ["/music/in"]);
               ProcessContext.SelectOutputPath (Normal ["/music/out"]);
               ProcessContext.StartProcessing
                 (Responds (Response (Normal
                    (VObj [("job_id", VArr [VObj [("toString", VNull)]])]))))]
              (ProcessContext.initial 0) in
  List.length (ProcessContext.jobs st) = 1%nat /\
  ProcessContext.timers st = [].
Proof. split; reflexivity. Qed.

(** ** Starting a job, whatever the network does *)

(** X8.  With both paths filled, [startProcessing] returns normally
    whatever the network answers, with the processing flag down, exactly
    one request issued and exactly two log entries written: the start
    entry and one more.  That entry is of type info when a job was
    appended and its timer armed.  It is of type error otherwise, and
    then no timer is armed, and the jobs are as before unless the reply
    carried a truthy job_id without a string, whose body was appended
    before the conversion threw. *)
Theorem startProcessing_always_settles (net : reply)
  (st : ProcessContext.state) :
  ProcessContext.inputPath st <> "" -> ProcessContext.outputPath st <> "" ->
  let st' := snd (ProcessContext.startProcessing net st) in
  fst (ProcessContext.startProcessing net st) = Normal tt /\
  ProcessContext.processing st' = false /\
  List.length (ProcessContext.requests st')
  = S (List.length (ProcessContext.requests st)) /\
  exists entry,
    ProcessContext.logs st'
    = ProcessContext.logs st ++ [started_entry st; entry] /\
    ((type entry = "info" /\
      exists data id,
        delivers net data /\ get data Job_id = Normal id /\
        truthy id = true /\ stringifies id = true /\
        ProcessContext.jobs st' = ProcessContext.jobs st ++ [data] /\
        ProcessContext.timers st'
        = ProcessContext.timers st ++ [Timer id 1000 true]) \/
     (type entry = "error" /\
      ProcessContext.timers st' = ProcessContext.timers st /\
      (ProcessContext.jobs st' = ProcessContext.jobs st \/
       exists data id,
         delivers net data /\ get data Job_id = Normal id /\
         truthy id = true /\ stringifies id = false /\
         ProcessContext.jobs st' = ProcessContext.jobs st ++ [data]))).
Proof.
  intros Hi Ho. unfold ProcessContext.startProcessing, delivers. run_M.
  rewrite (filled_paths_test _ _ Hi Ho). simpl. unfold started_entry.
  destruct net as [e | [[data | e]]]; simpl.
  - rewrite List.length_app, <- app_assoc. simpl.
    repeat split; [lia|]. eexists. split; [reflexivity|].
    right. split; [reflexivity|]. split; [reflexivity | now left].
  - destruct (get data Job_id) as [id | e] eqn:Hid; simpl;
      [destruct (truthy id) eqn:Ht; simpl;
       [rewrite template_literal_one; destruct (stringifies id) eqn:Hs; simpl|]|];
      rewrite ?List.length_app, <- ?app_assoc; simpl;
      (repeat split; [lia|]); eexists; (split; [reflexivity|]).
    + left. split; [reflexivity|]. exists data, id. now repeat split.
    + right. split; [reflexivity|]. split; [reflexivity|].
      right. exists data, id. now repeat split.
    + right. split; [reflexivity|]. split; [reflexivity | now left].
    + right. split; [reflexivity|]. split; [reflexivity | now left].
  - rewrite List.length_app, <- app_assoc. simpl.
    repeat split; [lia|]. eexists. split; [reflexivity|].
    right. split; [reflexivity|]. split; [reflexivity | now left].
Qed.

Lemma startProcessing_always_settles_witness :
  let st := ProcessContext.State "/music/in" "/music/out" false "{title}"
              "genius" true "key" false [] [] [] [] None 0 in
  (ProcessContext.inputPath st <> "" /\ ProcessContext.outputPath st <> "") /\
  ProcessContext.processing
    (snd (ProcessContext.startProcessing (Rejects (Error "Failed to fetch")) st))
  = false.
Proof.
  intros st.
  assert (Hi : ProcessContext.inputPath st <> "") by discriminate.
  assert (Ho : ProcessContext.outputPath st <> "") by discriminate.
  split; [split; assumption|].
  exact (proj1 (proj2 (startProcessing_always_settles
                         (Rejects (Error "Failed to fetch")) st Hi Ho))).
Defined.

(** X9.  When the fetch rejects or the JSON decoding of the answer
    throws, [startProcessing] creates no job and no timer, and the entry
    that follows the start entry in the logs is the error "Error: "
    followed by the message of what was thrown. *)
Theorem startProcessing_network_failure (net : reply) (e : error)
  (st : ProcessContext.state) :
  ProcessContext.inputPath st <> "" -> ProcessContext.outputPath st <> "" ->
  fails_with net e ->
  let st' := snd (ProcessContext.startProcessing net st) in
  ProcessContext.jobs st' = ProcessContext.jobs st /\
  ProcessContext.timers st' = ProcessContext.timers st /\
  ProcessContext.logs st'
  = ProcessContext.logs st
    ++ [started_entry st;
        Renderer.LogEntry [Lit "Error: "; Sub (VStr (JS.message e))] "error"
                          (ProcessContext.now st)].
Proof.
  intros Hi Ho Hfail. unfold ProcessContext.startProcessing. run_M.
  rewrite (filled_paths_test _ _ Hi Ho). simpl. unfold started_entry.
  destruct Hfail as [-> | ->]; simpl; rewrite <- app_assoc; now repeat split.
Qed.

Lemma startProcessing_network_failure_witness :
  let st := ProcessContext.State "/music/in" "/music/out" false "{title}"
              "genius" true "key" false [] [] [] [] None 0 in
  let net := Responds (Response (Throw (Error "Unexpected end of JSON input"))) in
  (ProcessContext.inputPath st <> "" /\ ProcessContext.outputPath st <> "" /\
   fails_with net (Error "Unexpected end of JSON input")) /\
  ProcessContext.jobs (snd (ProcessContext.startProcessing net st)) = [].
Proof.
  intros st net.
  assert (Hi : ProcessContext.inputPath st <> "") by discriminate.
  assert (Ho : ProcessContext.outputPath st <> "") by discriminate.
  assert (Hf : fails_with net (Error "Unexpected end of JSON input"))
    by (right; reflexivity).
  split; [repeat split; assumption|].
  exact (proj1 (startProcessing_network_failure net _ st Hi Ho Hf)).
Defined.

(** ** Choosing directories *)

(** X10.  A cancelled choice (the dialog answers no path) leaves the
    provider's state as it is.  After an input and an output directory
    have been chosen, whatever else the dialogs returned after the first
    path, [startProcessing] posts exactly the first chosen paths as
    input_path and output_path, and choosing one directory does not touch
    the other. *)
Theorem chosen_directories_are_posted (input output : string)
  (more_inputs more_outputs : list string) (net : reply)
  (st : ProcessContext.state) :
  input <> "" -> output <> "" ->
  let st1 := snd (ProcessContext.selectInputPath
                    (Normal (input :: more_inputs)) st) in
  let st2 := snd (ProcessContext.selectOutputPath
                    (Normal (output :: more_outputs)) st1) in
  snd (ProcessContext.selectInputPath (Normal []) st) = st /\
  snd (ProcessContext.selectOutputPath (Normal []) st) = st /\
  ProcessContext.outputPath st1 = ProcessContext.outputPath st /\
  ProcessContext.inputPath st2 = input /\
  ProcessContext.outputPath st2 = output /\
  exists posted,
    ProcessContext.requests (snd (ProcessContext.startProcessing net st2))
    = ProcessContext.requests st ++ [posted] /\
    option_map (fun b => lookup_own "input_path" (fields_of b)) (body posted)
    = Some (Some (VStr input)) /\
    option_map (fun b => lookup_own "output_path" (fields_of b)) (body posted)
    = Some (Some (VStr output)).
Proof.
  intros Hi Ho st1 st2.
  split; [reflexivity|]. split; [reflexivity|].
  split; [reflexivity|]. split; [reflexivity|]. split; [reflexivity|].
  eexists. split.
  - rewrite (startProcessing_requests net st2); [reflexivity | exact Hi | exact Ho].
  - split; reflexivity.
Qed.

Lemma chosen_directories_are_posted_witness :
  let st := ProcessContext.initial 0 in
  let st2 := snd (ProcessContext.selectOutputPath (Normal ["/music/out"])
                    (snd (ProcessContext.selectInputPath
                            (Normal ["/music/in"; "/music/other"]) st))) in
  ("/music/in" <> "" /\ "/music/out" <> "") /\
  ProcessContext.inputPath st2 = "/music/in".
Proof.
  intros st st2.
  assert (Hi : "/music/in" <> "") by discriminate.
  assert (Ho : "/music/out" <> "") by discriminate.
  split; [split; assumption|].
  exact (proj1 (proj2 (proj2 (proj2
           (chosen_directories_are_posted "/music/in" "/music/out"
              ["/music/other"] [] (Rejects (Error "x")) st Hi Ho))))).
Defined.

(** ** Opening the folder of a job *)

(** X11.  A press on Open Folder writes a log entry only when the call is
    rejected.  For a path the preload validation refuses, the provider
    logs "Error opening directory: Invalid path" and nothing is set off,
    whatever the main process; when the hardened main process declines a
    validated path (it does not exist or is no directory), the promise
    resolves to [false], no directory is opened, and the provider's
    state, logs included, is as before: the user is told nothing. *)
Theorem open_folder_outcomes (handler : value -> value * list event)
  (fs : MainHardened.filesystem) (path : value) (st : ProcessContext.state) :
  (Preload.validatePath path = false ->
   open_folder Preload.openDirectory handler path st
   = (ProcessContext.with_logs
        (ProcessContext.logs st
         ++ [open_error_entry (ProcessContext.now st) (Error "Invalid path")])
        st, [])) /\
  (forall s,
     path = VStr s -> Preload.validatePath path = true ->
     MainHardened.existsSync fs s && MainHardened.isDirectory fs s = false ->
     open_folder Preload.openDirectory (MainHardened.open_directory fs) path st
     = (st, [IpcInvoke "open-directory" path])) /\
  (forall expose v,
     fst (api_openDirectory expose handler path) = Resolved v ->
     fst (open_folder expose handler path st) = st).
Proof.
  split; [|split].
  - intros Hbad. unfold open_folder, api_openDirectory, Preload.openDirectory.
    now rewrite Hbad.
  - intros s -> Hok Hmissing.
    pose proof (proj1 (validations_agree_but_on_empty_helper (VStr s)) Hok)
      as Hmain.
    unfold open_folder, api_openDirectory, Preload.openDirectory.
    rewrite Hok. cbn -[MainHardened.validatePath].
    unfold MainHardened.open_directory. rewrite Hmain.
    apply andb_false_iff in Hmissing.
    destruct (MainHardened.existsSync fs s); simpl; [|reflexivity].
    destruct Hmissing as [[=] | ->]. reflexivity.
  - intros expose v. unfold open_folder.
    destruct (api_openDirectory expose handler path) as [settled evs].
    simpl. now intros ->.
Qed.

Lemma open_folder_outcomes_witness :
  let st := ProcessContext.initial 0 in
  let path := VStr "/music/../secret" in
  Preload.validatePath path = false /\
  snd (open_folder Preload.openDirectory Main.open_directory path st) = [].
Proof.
  intros st path.
  assert (H : Preload.validatePath path = false) by reflexivity.
  split; [exact H|].
  exact (f_equal snd
           (proj1 (open_folder_outcomes Main.open_directory
                     (MainHardened.Filesystem (fun _ => true) (fun _ => true))
                     path st) H)).
Defined.

(** ** Merging a status into a job *)

Lemma lookup_own_app (k : string) (l1 l2 : list (string * value)) :
  lookup_own k (l1 ++ l2)
  = match lookup_own k l1 with
    | Some v => Some v
    | None => lookup_own k l2
    end.
Proof.
  induction l1 as [|[k1 v1] l1 IH]; simpl; [reflexivity|].
  now destruct (String.eqb k1 k).
Qed.

Lemma lookup_own_assign (k : string) (fields : list (string * value))
  (kv : string * value) :
  lookup_own k (assign fields kv)
  = if String.eqb (fst kv) k then Some (snd kv) else lookup_own k fields.
Proof.
  destruct kv as [k' v']. simpl.
  induction fields as [|[k1 v1] fields IH]; simpl; [reflexivity|].
  destruct (String.eqb_spec k1 k') as [-> | Hne]; simpl.
  - now destruct (String.eqb k' k).
  - destruct (String.eqb_spec k1 k) as [-> | Hne1]; [|exact IH].
    destruct (String.eqb_spec k' k) as [-> | _]; [now destruct Hne | reflexivity].
Qed.

(** After a run of assignments a name holds what was assigned to it
    last. *)
Lemma lookup_own_fold_assign (k : string) (l acc : list (string * value)) :
  lookup_own k (fold_left assign l acc)
  = match lookup_own k (rev l) with
    | Some v => Some v
    | None => lookup_own k acc
    end.
Proof.
  revert acc. induction l as [|x l IH]; intros acc; simpl; [reflexivity|].
  rewrite IH, lookup_own_app, lookup_own_assign.
  destruct (lookup_own k (rev l)); [reflexivity|].
  destruct x as [k' v']. simpl. now destruct (String.eqb k' k).
Qed.

Lemma lookup_own_absent (k : string) (l : list (string * value)) :
  ~ In k (List.map fst l) -> lookup_own k l = None.
Proof.
  induction l as [|[k1 v1] l IH]; simpl; [reflexivity|].
  intros Hnot. destruct (String.eqb_spec k1 k) as [-> | _]; [tauto|].
  apply IH. tauto.
Qed.

Lemma lookup_own_rev (k : string) (l : list (string * value)) :
  distinct_names l -> lookup_own k (rev l) = lookup_own k l.
Proof.
  unfold distinct_names.
  induction l as [|[k1 v1] l IH]; simpl; [reflexivity|].
  intros Hnd. inversion Hnd as [|? ? Hnotin Hnd']; subst.
  rewrite lookup_own_app, (IH Hnd'). simpl.
  destruct (String.eqb_spec k1 k) as [-> | _].
  - now rewrite (lookup_own_absent k l Hnotin).
  - now destruct (lookup_own k l).
Qed.

Lemma assign_names (fields : list (string * value)) (kv : string * value)
  (k : string) :
  In k (List.map fst (assign fields kv)) ->
  In k (List.map fst fields) \/ k = fst kv.
Proof.
  induction fields as [|[k1 v1] fields IH]; simpl.
  - intros [<- | []]. now right.
  - destruct (String.eqb k1 (fst kv)); simpl; [tauto|].
    intros [<- | Hin]; [tauto|]. destruct (IH Hin); tauto.
Qed.

Lemma assign_distinct (fields : list (string * value)) (kv : string * value) :
  distinct_names fields -> distinct_names (assign fields kv).
Proof.
  unfold distinct_names.
  induction fields as [|[k1 v1] fields IH]; simpl.
  - intros _. repeat constructor. intros [].
  - intros Hnd. inversion Hnd as [|? ? Hnotin Hnd']; subst.
    destruct (String.eqb_spec k1 (fst kv)) as [Heq | Hne]; simpl.
    + now constructor.
    + constructor; [|now apply IH].
      intros Hin. destruct (assign_names _ _ _ Hin); [tauto | now destruct Hne].
Qed.

Lemma fold_assign_distinct (l acc : list (string * value)) :
  distinct_names acc -> distinct_names (fold_left assign l acc).
Proof.
  revert acc. induction l as [|x l IH]; intros acc Hacc; simpl; [exact Hacc|].
  apply IH, assign_distinct, Hacc.
Qed.

(** X12.  The entry a poll writes, [{ ...job, ...data }], has each
    property name once; and when the job and the polled body have each of
    their names once, a name reads in the merged entry as it reads in the
    polled body if the body has it, and as it read in the job
    otherwise. *)
Theorem merged_entry_fields (job data : value) :
  distinct_names (fields_of (spread job data)) /\
  (distinct_names (own_enumerable job) ->
   distinct_names (own_enumerable data) ->
   forall name,
     lookup_own name (fields_of (spread job data))
     = match lookup_own name (own_enumerable data) with
       | Some v => Some v
       | None => lookup_own name (own_enumerable job)
       end).
Proof.
  unfold spread. simpl. split.
  - apply fold_assign_distinct. constructor.
  - intros Hjob Hdata name.
    rewrite lookup_own_fold_assign, rev_app_distr, lookup_own_app.
    rewrite (lookup_own_rev name _ Hdata), (lookup_own_rev name _ Hjob).
    destruct (lookup_own name (own_enumerable data)); [reflexivity|].
    now destruct (lookup_own name (own_enumerable job)).
Qed.

Lemma merged_entry_fields_witness :
  let job := VObj [("job_id", VStr "j1"); ("status", VStr "pending")] in
  let data := VObj [("status", VStr "processing"); ("progress", VNum (1 # 2))] in
  (distinct_names (own_enumerable job) /\
   distinct_names (own_enumerable data)) /\
  lookup_own "job_id" (fields_of (spread job data)) = Some (VStr "j1").
Proof.
  intros job data.
  assert (Hj : distinct_names (own_enumerable job)).
  { unfold distinct_names. simpl.
    constructor; [intros [H | []]; discriminate H|].
    constructor; [intros []|constructor]. }
  assert (Hd : distinct_names (own_enumerable data)).
  { unfold distinct_names. simpl.
    constructor; [intros [H | []]; discriminate H|].
    constructor; [intros []|constructor]. }
  split; [split; assumption|].
  exact (proj2 (merged_entry_fields job data) Hj Hd "job_id").
Defined.

(** ** App *)

(** X13.  [checkApiConnection] never throws and never leaves the status
    at "checking": it issues one GET /config and ends "connected" exactly
    when a body is decoded that is not [null] and whose version (or
    [undefined], when it has none) converts to a string, and "error"
    otherwise; the entry it writes after the checking entry is of type
    success in the first case and error in the second. *)
Theorem checkApiConnection_outcome (net : reply) (st : App.state) :
  let st' := snd (App.checkApiConnection net st) in
  fst (App.checkApiConnection net st) = Normal tt /\
  App.requests st' = App.requests st ++ [config_request] /\
  (App.apiStatus st' = "connected" <->
   exists data version,
     delivers net data /\ read data "version" = Normal version /\
     stringifies version = true) /\
  (App.apiStatus st' = "connected" \/ App.apiStatus st' = "error") /\
  exists entry,
    App.logs st'
    = App.logs st
      ++ [App.LogEntry (App.now st) [Lit "Checking Python API connection..."]
                       "info" (App.now st);
          entry] /\
    App.type entry
    = (if String.eqb (App.apiStatus st') "connected" then "success" else "error").
Proof.
  unfold App.checkApiConnection, delivers. run_M. unfold App.fetch. simpl.
  destruct net as [e | [[data | e]]]; simpl.
  - rewrite <- app_assoc. repeat split; try discriminate.
    + intros (data & version & [=] & _).
    + now right.
    + eexists. split; reflexivity.
  - destruct (read data "version") as [version | e] eqn:Hv; simpl;
      [rewrite template_literal_one;
       destruct (stringifies version) eqn:Hs; simpl|];
      rewrite <- app_assoc.
    + repeat split.
      * intros _. now exists data, version.
      * now left.
      * eexists. split; reflexivity.
    + repeat split; try discriminate.
      * intros (d & v & [= <-] & Hv' & Hs'). congruence.
      * now right.
      * eexists. split; reflexivity.
    + repeat split; try discriminate.
      * intros (d & v & [= <-] & Hv' & _). congruence.
      * now right.
      * eexists. split; reflexivity.
  - rewrite <- app_assoc. repeat split; try discriminate.
    + intros (data & version & [=] & _).
    + now right.
    + eexists. split; reflexivity.
Qed.

(** A version that is an object owning a [toString] that is no function
    ends the check in "error", although the server answered. *)
Example version_without_string :
  App.apiStatus
    (snd (App.checkApiConnection
            (Responds (Response (Normal
               (VObj [("version", VObj [("toString", VNum 1)])]))))
            (App.initial 0)))
  = "error".
Proof. reflexivity. Qed.

(** X14.  With both paths filled, App's [handleProcess] returns normally
    whatever the network answers, with the processing flag down and the
    paths and the API status untouched, so that a Process button that was
    enabled before the call is enabled after it; the entry written after
    "Starting processing..." is of type success exactly when the decoded
    body has a truthy job_id that converts to a string, and of type error
    otherwise. *)
Theorem handleProcess_always_settles (net : reply) (st : App.state) :
  App.inputPath st <> "" -> App.outputPath st <> "" ->
  let st' := snd (App.handleProcess net st) in
  fst (App.handleProcess net st) = Normal tt /\
  App.isProcessing st' = false /\
  App.inputPath st' = App.inputPath st /\
  App.outputPath st' = App.outputPath st /\
  App.apiStatus st' = App.apiStatus st /\
  (App.process_disabled st = false -> App.process_disabled st' = false) /\
  exists entry,
    App.logs st'
    = App.logs st
      ++ [App.LogEntry (App.now st) [Lit "Starting processing..."] "info"
                       (App.now st);
          entry] /\
    (App.type entry = "success" \/ App.type entry = "error") /\
    (App.type entry = "success" <->
     exists data id,
       delivers net data /\ get data Job_id = Normal id /\
       truthy id = true /\ stringifies id = true).
Proof.
  intros Hi Ho. unfold App.handleProcess, App.process_disabled, delivers.
  run_M. rewrite (filled_paths_test _ _ Hi Ho). unfold App.fetch. simpl.
  assert (Hbutton : forall b : bool,
            b || String.eqb (App.inputPath st) ""
              || String.eqb (App.outputPath st) ""
              || negb (String.eqb (App.apiStatus st) "connected") = false ->
            String.eqb (App.inputPath st) ""
              || String.eqb (App.outputPath st) ""
              || negb (String.eqb (App.apiStatus st) "connected") = false).
  { intros b. destruct b; [discriminate | auto]. }
  destruct net as [e | [[data | e]]]; simpl.
  - rewrite <- app_assoc. repeat split; eauto.
    eexists. split; [reflexivity|]. split; [now right|].
    split; [discriminate | intros (d & id & [=] & _)].
  - destruct (get data Job_id) as [id | e] eqn:Hid; simpl;
      [destruct (truthy id) eqn:Ht; simpl;
       [rewrite template_literal_one; destruct (stringifies id) eqn:Hs; simpl|]|];
      rewrite <- app_assoc; (repeat split; eauto);
      eexists; (split; [reflexivity|]).
    + split; [now left|]. split; [|reflexivity].
      intros _. exists data, id. now repeat split.
    + split; [now right|].
      split; [discriminate | intros (d & id' & [= <-] & Hid' & _ & Hs')].
      congruence.
    + split; [now right|].
      split; [discriminate | intros (d & id' & [= <-] & Hid' & Ht' & _)].
      congruence.
    + split; [now right|].
      split; [discriminate | intros (d & id' & [= <-] & Hid' & _)].
      congruence.
  - rewrite <- app_assoc. repeat split; eauto.
    eexists. split; [reflexivity|]. split; [now right|].
    split; [discriminate | intros (d & id & [=] & _)].
Qed.

Lemma handleProcess_always_settles_witness :
  let st := {| App.inputPath := "/music/in"; App.outputPath := "/music/out";
               App.logs := []; App.isProcessing := false;
               App.apiStatus := "connected"; App.requests := [];
               App.now := 0 |} in
  (App.inputPath st <> "" /\ App.outputPath st <> "") /\
  App.isProcessing
    (snd (App.handleProcess (Rejects (Error "Failed to fetch")) st)) = false.
Proof.
  intros st.
  assert (Hi : App.inputPath st <> "") by discriminate.
  assert (Ho : App.outputPath st <> "") by discriminate.
  split; [split; assumption|].
  exact (proj1 (proj2 (handleProcess_always_settles
                         (Rejects (Error "Failed to fetch")) st Hi Ho))).
Defined.

(** ** Percentages *)

(** X15.  The percentage shown grows with the progress: when a job's
    progress does not decrease, neither does the percentage printed by
    ProgressBar and by the JobList row, nor the width of either bar.  This
    holds of every pair of numbers that compare, the infinities
    included. *)
Theorem percentage_is_monotone (p q : Number.number)
  (status status' : value) :
  Number.le p q ->
  Number.le (Components.label (Components.ProgressBar p status))
            (Components.label (Components.ProgressBar q status')) /\
  Number.le (Components.label (Components.JobList_progress p status))
            (Components.label (Components.JobList_progress q status')) /\
  Number.le (Components.width (Components.ProgressBar p status))
            (Components.width (Components.ProgressBar q status')) /\
  Number.le (Components.width (Components.JobList_progress p status))
            (Components.width (Components.JobList_progress q status')).
Proof.
  intros Hpq. pose proof (times_100_monotone p q Hpq) as Hx.
  pose proof (Math_round_monotone _ _ Hx) as Hr.
  unfold Components.ProgressBar, Components.JobList_progress.
  cbn [Components.label Components.width]. now repeat split.
Qed.

Lemma percentage_is_monotone_witness :
  Number.le (Number.Finite (1 # 4)) (Number.Finite (1 # 2)) /\
  Number.le
    (Components.label
       (Components.ProgressBar (Number.Finite (1 # 4)) (VStr "processing")))
    (Components.label
       (Components.ProgressBar (Number.Finite (1 # 2)) (VStr "processing"))).
Proof.
  assert (H : Number.le (Number.Finite (1 # 4)) (Number.Finite (1 # 2)))
    by (simpl; discriminate).
  split; [exact H|].
  exact (proj1 (percentage_is_monotone (Number.Finite (1 # 4))
                  (Number.Finite (1 # 2)) (VStr "processing")
                  (VStr "processing") H)).
Defined.

(** X16.  For every progress and status, ProgressBar and the JobList row
    agree on the colour of the bar and on the percentage printed, and
    their bars differ in width by at most half a percent: the bar of
    ProgressBar is as wide as the percentage printed, which is the integer
    nearest to the width of the bar of the row; when that width is an
    infinity or NaN, so is the other. *)
Theorem progress_views_agree (p : Number.number) (status : value) :
  let bar := Components.ProgressBar p status in
  let row := Components.JobList_progress p status in
  Components.barColor bar = Components.barColor row /\
  Components.label bar = Components.label row /\
  Components.width bar = Components.label row /\
  match Components.width row with
  | Number.Finite x =>
      exists shown : Z,
        Components.width bar = Number.Finite (inject_Z shown) /\
        (x - (1 # 2) < inject_Z shown)%Q /\
        (inject_Z shown <= x + (1 # 2))%Q
  | other => Components.width bar = other
  end.
Proof.
  unfold Components.ProgressBar, Components.JobList_progress.
  cbn [Components.barColor Components.label Components.width].
  split; [reflexivity|]. split; [reflexivity|]. split; [reflexivity|].
  destruct (Number.times p (Number.Finite 100)) as [x | s |];
    cbn [Components.Math_round]; try reflexivity.
  eexists. split; [reflexivity|]. exact (Math_round_nearest x).
Qed.

(** ** The colours of a status *)

Lemma inherited_plain (status : string) :
  ~ In status inherited_names -> Components.inherited status = VUndefined.
Proof.
  unfold inherited_names, Components.inherited,
         Components.Object_prototype_methods.
  intros Hnot. cbn -[String.eqb].
  repeat match goal with
         | |- context [String.eqb ?a status] =>
             destruct (String.eqb_spec a status) as [<- | _];
             [destruct Hnot; simpl; tauto|]
         | |- context [String.eqb status ?a] =>
             destruct (String.eqb_spec status a) as [-> | _];
             [destruct Hnot; simpl; tauto|]
         end.
  reflexivity.
Qed.

(** X18.  StatusBadge shows the status text in every case.  For the
    twelve property names found on [Object.prototype] both colour classes
    come out [undefined]; for every other status the badge has exactly the
    colours the status cell of the JobList row has: those of the status if
    it is one of pending, processing, completed and failed, and those of
    pending otherwise. *)
Theorem StatusBadge_colours (status : string) :
  (In status inherited_names ->
   Components.StatusBadge status
   = Normal {| Components.className := badge_class VUndefined VUndefined;
               Components.children := status |}) /\
  (~ In status inherited_names ->
   exists bg text,
     Components.StatusBadge status
     = Normal {| Components.className := badge_class (VStr bg) (VStr text);
                 Components.children := status |} /\
     Components.JobList_status_class (VStr status)
     = (bg ++ " " ++ text)%string).
Proof.
  split.
  - unfold inherited_names, Components.Object_prototype_methods. simpl.
    intros Hin.
    repeat (destruct Hin as [<- | Hin]; [reflexivity|]). destruct Hin.
  - intros Hnot. pose proof (inherited_plain status Hnot) as Hplain.
    destruct (String.eqb_spec status "pending") as [-> | Hp];
      [now exists "bg-yellow-100", "text-yellow-800"|].
    destruct (String.eqb_spec status "processing") as [-> | Hr];
      [now exists "bg-blue-100", "text-blue-800"|].
    destruct (String.eqb_spec status "completed") as [-> | Hc];
      [now exists "bg-green-100", "text-green-800"|].
    destruct (String.eqb_spec status "failed") as [-> | Hf];
      [now exists "bg-red-100", "text-red-800"|].
    exists "bg-yellow-100", "text-yellow-800". split.
    + rewrite StatusBadge_unknown_status; [reflexivity | | exact Hplain].
      unfold known_statuses. simpl. intros [H | [H | [H | [H | []]]]];
        symmetry in H; contradiction.
    + unfold Components.JobList_status_class, is_string.
      apply String.eqb_neq in Hr, Hc, Hf. now rewrite Hc, Hf, Hr.
Qed.

Lemma StatusBadge_colours_witness :
  In "toString" inherited_names /\
  Components.StatusBadge "toString"
  = Normal {| Components.className := badge_class VUndefined VUndefined;
              Components.children := "toString" |}.
Proof.
  assert (H : In "toString" inherited_names).
  { unfold inherited_names, Components.Object_prototype_methods. simpl. tauto. }
  split; [exact H|].
  exact (proj1 (StatusBadge_colours "toString") H).
Defined.

(** ** The setup check *)

Lemma truthy_field_object (v ok : value) (f : field) :
  get v f = Normal ok -> truthy ok = true -> is_object v.
Proof.
  destruct v; simpl; intros [= <-]; try discriminate. now eexists.
Qed.

(** What [validateSetup] resolves to: an object, whose [valid] is truthy
    exactly when the server's was. *)
Lemma validateSetup_result (net : reply) (st : ProcessContext.state) :
  exists v,
    fst (ProcessContext.validateSetup net st) = Normal v /\
    is_object v /\
    ((exists ok, get v Valid = Normal ok /\ truthy ok = true) <->
     (exists data ok,
        delivers net data /\ get data Valid = Normal ok /\ truthy ok = true)).
Proof.
  unfold ProcessContext.validateSetup, delivers. run_M.
  unfold ProcessContext.fetch. simpl.
  assert (Hno : ~ exists ok, get (VObj [("valid", VBool false)]) Valid = Normal ok
                             /\ truthy ok = true).
  { intros (ok & [= <-] & [=]). }
  destruct net as [e | [[data | e]]]; simpl.
  - eexists. split; [reflexivity|]. split; [now eexists|].
    split; [intros H; now destruct Hno | intros (d & ok & [=] & _)].
  - destruct (get data Valid) as [ok | e] eqn:Hok; simpl.
    + destruct (truthy ok) eqn:Ht; simpl.
      * exists data. split; [reflexivity|].
        split; [exact (truthy_field_object data ok Valid Hok Ht)|].
        split; [intros _; now exists data, ok | intros _; now exists ok].
      * destruct (get data Validations) as [checks | e] eqn:Hc; simpl.
        -- destruct (Object_entries checks) as [entries | e] eqn:He; simpl.
           ++ rewrite for_each_failed_checks. simpl.
              exists data. split; [reflexivity|]. split.
              ** destruct data; simpl in Hc; try discriminate;
                   try (injection Hc as <-; discriminate He).
                 now eexists.
              ** split.
                 --- intros (ok' & Hok' & Ht'). congruence.
                 --- intros (d & ok' & [= <-] & Hok' & Ht'). congruence.
           ++ eexists. split; [reflexivity|]. split; [now eexists|].
              split; [intros H; now destruct Hno|].
              intros (d & ok' & [= <-] & Hok' & Ht'). congruence.
        -- eexists. split; [reflexivity|]. split; [now eexists|].
           split; [intros H; now destruct Hno|].
           intros (d & ok' & [= <-] & Hok' & Ht'). congruence.
    + eexists. split; [reflexivity|]. split; [now eexists|].
      split; [intros H; now destruct Hno|].
      intros (d & ok' & [= <-] & Hok' & _). congruence.
  - eexists. split; [reflexivity|]. split; [now eexists|].
    split; [intros H; now destruct Hno | intros (d & ok & [=] & _)].
Qed.

(** X19.  [validateSetup] always resolves to an object, never to [null],
    [undefined] or a primitive, whatever the server sends: a caller may
    read its [valid] without a check.  That [valid] is truthy exactly when
    a body was decoded whose [valid] is truthy. *)
Theorem validateSetup_returns_object (net : reply)
  (st : ProcessContext.state) :
  exists fields,
    fst (ProcessContext.validateSetup net st) = Normal (VObj fields) /\
    (truthy (match lookup_own "valid" fields with
             | Some ok => ok
             | None => VUndefined
             end) = true <->
     exists data ok,
       delivers net data /\ get data Valid = Normal ok /\ truthy ok = true).
Proof.
  destruct (validateSetup_result net st) as (v & Hv & (fields & ->) & Hiff).
  exists fields. split; [exact Hv|]. rewrite <- Hiff. simpl. split.
  - intros Ht. eexists. split; [reflexivity | exact Ht].
  - intros (ok & [= <-] & Ht). exact Ht.
Qed.

(** X20.  [checkSetup] of the Settings panel always ends with
    [isValidating] false and with [validation] set to what
    [validateSetup] resolved to; its [catch] branch is never taken, so the
    provider's state is exactly what [validateSetup] left, without a
    "Validation error" entry.  The panel then shows a verdict, and the
    tick exactly when a body was decoded whose [valid] is truthy. *)
Theorem checkSetup_outcome (net : reply) (ctx : ProcessContext.state)
  (s : Settings.state) :
  let done := Settings.checkSetup net (ctx, s) in
  fst done = Normal tt /\
  fst (snd done) = snd (ProcessContext.validateSetup net ctx) /\
  Settings.isValidating (snd (snd done)) = false /\
  fst (ProcessContext.validateSetup net ctx)
  = Normal (Settings.validation (snd (snd done))) /\
  (Settings.shown_verdict (snd (snd done)) = Normal Settings.KeyValid \/
   Settings.shown_verdict (snd (snd done)) = Normal Settings.KeyInvalid) /\
  (Settings.shown_verdict (snd (snd done)) = Normal Settings.KeyValid <->
   exists data ok,
     delivers net data /\ get data Valid = Normal ok /\ truthy ok = true).
Proof.
  destruct (validateSetup_result net ctx) as (v & Hv & (fields & ->) & Hiff).
  unfold Settings.checkSetup, Settings.in_context, Settings.setSetupStatus.
  run_M.
  destruct (ProcessContext.validateSetup net ctx) as [c ctx'] eqn:Hrun.
  simpl in Hv. subst c. simpl.
  split; [reflexivity|]. split; [reflexivity|]. split; [reflexivity|].
  split; [reflexivity|].
  unfold Settings.shown_verdict. simpl. rewrite <- Hiff. simpl.
  destruct (truthy match lookup_own "valid" fields with
                   | Some x => x
                   | None => VUndefined
                   end) eqn:Ht.
  - split; [now left|]. split; [|reflexivity].
    intros _. eexists. split; [reflexivity | exact Ht].
  - split; [now right|]. split; [discriminate|].
    intros (ok & [= <-] & Ht'). congruence.
Qed.

